(** * Signature verification core of PdfForQt (pdfsignaturehandler.cpp)

    A shallow embedding of the verification result flags, the trusted
    certificate store, the byte-range assembler, the three verification
    engines and the QDataStream persistence of certificates, together
    with the properties the specification states about them.

    Conventions.
    - [PDFInteger] is a 64-bit signed integer and [int] a 32-bit signed
      integer; both are values of [Z] and every arithmetic operation of the
      source is followed by its wrap-around ([wrap64], [wrap32]).
    - [QByteArray] is a list of bytes; [QString] is a list of UTF-16 code
      units.  A null and an empty array (or string) are not distinguished,
      as Qt's [operator==] does not distinguish them either.
    - The OpenSSL primitives are an interface ([OpenSSL]); the program is
      modelled for every implementation of it. *)

From Stdlib Require Import ZArith List Bool Lia String Ascii DecimalString.
From Stdlib.Strings Require Import Byte.
Import ListNotations.
Local Open Scope Z_scope.

Set Implicit Arguments.

(* ================================================================== *)
(** * Machine integers *)
(* ================================================================== *)

Module MachineInt.

Definition wrap (w : Z) (z : Z) : Z := (z + 2 ^ (w - 1)) mod 2 ^ w - 2 ^ (w - 1).

(** [int] of the C++ source (32 bits). *)
Definition wrap32 (z : Z) : Z := wrap 32 z.
(** [PDFInteger] of the C++ source (std::int64_t). *)
Definition wrap64 (z : Z) : Z := wrap 64 z.

Definition INT_MAX : Z := 2 ^ 31 - 1.

Definition is_int32 (z : Z) : Prop := - 2 ^ 31 <= z < 2 ^ 31.
Definition is_int64 (z : Z) : Prop := - 2 ^ 63 <= z < 2 ^ 63.

End MachineInt.
Export MachineInt.

(* ================================================================== *)
(** * Qt value types *)
(* ================================================================== *)

Module Qt.

Definition QByteArray := list byte.

(** A [QString] is its sequence of UTF-16 code units. *)
Definition QString := list Z.

(** [QByteArray::size]. *)
Definition QByteArray_size (a : QByteArray) : Z := Z.of_nat (List.length a).

(** [QString::fromLatin1]. *)
Definition fromLatin1 (a : QByteArray) : QString :=
  map (fun b => Z.of_N (Byte.to_N b)) a.

(** A string literal of the source, as a [QByteArray]. *)
Definition lit (s : string) : QByteArray := list_byte_of_string s.

(** [tr("...")]: the untranslated text. *)
Definition tr (s : string) : QString := fromLatin1 (lit s).

(** [QString::number]. *)
Definition number (n : Z) : QString :=
  tr (NilZero.string_of_int (Z.to_int n)).

(** [QString::arg]: every occurrence of the place marker %1 is replaced. *)
Fixpoint arg (fmt : QString) (a : QString) : QString :=
  match fmt with
  | [] => []
  | c :: rest =>
      match rest with
      | d :: rest' =>
          if (c =? 37) && (d =? 49) then a ++ arg rest' a else c :: arg rest a
      | [] => [c]
      end
  end.

Definition byte_eqb (a b : byte) : bool := Byte.eqb a b.

Fixpoint list_eqb {A : Type} (eqb : A -> A -> bool) (l1 l2 : list A) : bool :=
  match l1, l2 with
  | [], [] => true
  | x :: r1, y :: r2 => eqb x y && list_eqb eqb r1 r2
  | _, _ => false
  end.

(** [operator==] of QByteArray and of QString. *)
Definition QByteArray_eqb : QByteArray -> QByteArray -> bool := list_eqb byte_eqb.
Definition QString_eqb : QString -> QString -> bool := list_eqb Z.eqb.

(** A [QDateTime] as QDataStream stores it: the Julian day of the date, the
    milliseconds since midnight and the time specification. *)
Record QDateTime := mkQDateTime {
  dt_julianDay : Z;
  dt_msecs : Z;
  dt_timeSpec : Z
}.

Definition Qt_LocalTime : Z := 0.
Definition Qt_UTC : Z := 1.

(** The default-constructed (null) [QDateTime]. *)
Definition nullDateTime : QDateTime :=
  mkQDateTime (- 2 ^ 63) (-1) Qt_LocalTime.

(** [QDateTime::fromSecsSinceEpoch(secs, Qt::UTC)]; 2440588 is the Julian
    day of 1970-01-01. *)
Definition fromSecsSinceEpoch (secs : Z) : QDateTime :=
  mkQDateTime (2440588 + secs / 86400) ((secs mod 86400) * 1000) Qt_UTC.

Definition QDateTime_eqb (a b : QDateTime) : bool :=
  (dt_julianDay a =? dt_julianDay b) && (dt_msecs a =? dt_msecs b)
  && (dt_timeSpec a =? dt_timeSpec b).

End Qt.
Export Qt.

(* ================================================================== *)
(** * Certificate description *)
(* ================================================================== *)

Module CertificateInfo.

(** Modelled from the spec: the enumerations and the data members of
    [PDFCertificateInfo] are declared in pdfsignaturehandler.h, which is not
    among the sources; they follow section 3 of the specification and the
    member names that serialize() and the setters use. *)
Inductive PublicKey : Type := KeyRSA | KeyDSA | KeyDH | KeyEC | KeyUnknown.

Inductive NameEntry : Type :=
| CountryName | OrganizationName | OrganizationalUnitName | DistinguishedName
| StateOrProvinceName | CommonName | SerialNumber | LocalityName | Title
| Surname | GivenName | Initials | Pseudonym | GenerationalQualifier | Email.

Definition nameIndex (e : NameEntry) : nat :=
  match e with
  | CountryName => 0 | OrganizationName => 1 | OrganizationalUnitName => 2
  | DistinguishedName => 3 | StateOrProvinceName => 4 | CommonName => 5
  | SerialNumber => 6 | LocalityName => 7 | Title => 8 | Surname => 9
  | GivenName => 10 | Initials => 11 | Pseudonym => 12
  | GenerationalQualifier => 13 | Email => 14
  end%nat.

(** Number of name entries ([NameEnd]). *)
Definition NameEnd : nat := 15.

Definition KeyUsageNone : Z := 0.

Record PDFCertificateInfo := mkInfo {
  m_version : Z;                    (* int32_t *)
  m_keySize : Z;                    (* int *)
  m_publicKey : PublicKey;
  m_nameEntries : list QString;     (* std::array<QString, NameEnd> *)
  m_notValidBefore : QDateTime;
  m_notValidAfter : QDateTime;
  m_keyUsage : Z;                   (* KeyUsageFlags *)
  m_certificateData : QByteArray
}.

(** The default-constructed value. *)
Definition defaultInfo : PDFCertificateInfo :=
  mkInfo 0 0 KeyUnknown (repeat [] NameEnd) nullDateTime nullDateTime KeyUsageNone [].

Fixpoint setNth {A : Type} (n : nat) (x : A) (l : list A) : list A :=
  match l, n with
  | [], _ => []
  | _ :: r, O => x :: r
  | y :: r, S n' => y :: setNth n' x r
  end.

Definition setName (i : PDFCertificateInfo) (e : NameEntry) (name : QString) :=
  mkInfo (m_version i) (m_keySize i) (m_publicKey i)
         (setNth (nameIndex e) name (m_nameEntries i))
         (m_notValidBefore i) (m_notValidAfter i) (m_keyUsage i) (m_certificateData i).

Definition getName (i : PDFCertificateInfo) (e : NameEntry) : QString :=
  nth (nameIndex e) (m_nameEntries i) [].

Definition setVersion (i : PDFCertificateInfo) (version : Z) :=
  mkInfo version (m_keySize i) (m_publicKey i) (m_nameEntries i)
         (m_notValidBefore i) (m_notValidAfter i) (m_keyUsage i) (m_certificateData i).

Definition setKeySize (i : PDFCertificateInfo) (keySize : Z) :=
  mkInfo (m_version i) keySize (m_publicKey i) (m_nameEntries i)
         (m_notValidBefore i) (m_notValidAfter i) (m_keyUsage i) (m_certificateData i).

Definition setPublicKey (i : PDFCertificateInfo) (publicKey : PublicKey) :=
  mkInfo (m_version i) (m_keySize i) publicKey (m_nameEntries i)
         (m_notValidBefore i) (m_notValidAfter i) (m_keyUsage i) (m_certificateData i).

Definition setNotValidBefore (i : PDFCertificateInfo) (t : QDateTime) :=
  mkInfo (m_version i) (m_keySize i) (m_publicKey i) (m_nameEntries i)
         t (m_notValidAfter i) (m_keyUsage i) (m_certificateData i).

Definition setNotValidAfter (i : PDFCertificateInfo) (t : QDateTime) :=
  mkInfo (m_version i) (m_keySize i) (m_publicKey i) (m_nameEntries i)
         (m_notValidBefore i) t (m_keyUsage i) (m_certificateData i).

Definition setKeyUsage (i : PDFCertificateInfo) (keyUsage : Z) :=
  mkInfo (m_version i) (m_keySize i) (m_publicKey i) (m_nameEntries i)
         (m_notValidBefore i) (m_notValidAfter i) keyUsage (m_certificateData i).

Definition setCertificateData (i : PDFCertificateInfo) (certificateData : QByteArray) :=
  mkInfo (m_version i) (m_keySize i) (m_publicKey i) (m_nameEntries i)
         (m_notValidBefore i) (m_notValidAfter i) (m_keyUsage i) certificateData.

(** Modelled from the spec: [operator==] of [PDFCertificateInfo]
    (pdfsignaturehandler.h): "value-equality uses the full DN entry map
    plus validity window plus DER bytes". *)
Definition info_eqb (a b : PDFCertificateInfo) : bool :=
  list_eqb QString_eqb (m_nameEntries a) (m_nameEntries b)
  && QDateTime_eqb (m_notValidBefore a) (m_notValidBefore b)
  && QDateTime_eqb (m_notValidAfter a) (m_notValidAfter b)
  && QByteArray_eqb (m_certificateData a) (m_certificateData b).

End CertificateInfo.
Export CertificateInfo.

(* ================================================================== *)
(** * The OpenSSL interface *)
(* ================================================================== *)

(** The objects and primitives of OpenSSL (and the two digest and decoding
    helpers of Qt and libc) that the source calls.  A pointer that may be
    null is an [option]; a STACK_OF(X) is a list; a primitive that changes
    the object it is given returns the changed object.  The constants are
    fields as well: the source only compares against them. *)
Class OpenSSL : Type := {
  X509 : Type;
  X509_NAME : Type;
  X509_NAME_ENTRY : Type;
  ASN1_STRING : Type;
  ASN1_TIME : Type;
  ASN1_OCTET_STRING : Type;
  EVP_PKEY : Type;
  EVP_MD : Type;
  RSA : Type;
  X509_SIG : Type;
  PKCS7 : Type;
  PKCS7_SIGNER_INFO : Type;
  X509_STORE_CTX : Type;
  BIO : Type;

  (* --- decoding --- *)
  d2i_X509 : QByteArray -> option X509;
  d2i_PKCS7 : QByteArray -> option PKCS7;
  d2i_ASN1_OCTET_STRING : QByteArray -> option ASN1_OCTET_STRING;
  d2i_X509_SIG : QByteArray -> Z -> option X509_SIG;
  i2d_X509 : X509 -> Z * QByteArray;
  (* X509_free on the only reference to a certificate: the certificate a
     later read through the same pointer finds.  The object is gone, and
     the source does not determine what its memory holds then. *)
  X509_free : X509 -> X509;

  (* --- certificate fields --- *)
  NID_countryName : Z;
  NID_organizationName : Z;
  NID_organizationalUnitName : Z;
  NID_distinguishedName : Z;
  NID_stateOrProvinceName : Z;
  NID_commonName : Z;
  NID_serialNumber : Z;
  NID_localityName : Z;
  NID_title : Z;
  NID_surname : Z;
  NID_givenName : Z;
  NID_initials : Z;
  NID_pseudonym : Z;
  NID_generationQualifier : Z;
  NID_pkcs9_emailAddress : Z;
  X509_get_subject_name : X509 -> option X509_NAME;
  X509_NAME_get_index_by_NID : X509_NAME -> Z -> Z -> Z;
  X509_NAME_get_entry : X509_NAME -> Z -> option X509_NAME_ENTRY;
  X509_NAME_ENTRY_get_data : X509_NAME_ENTRY -> option ASN1_STRING;
  ASN1_STRING_to_UTF8 : ASN1_STRING -> Z * QByteArray;
  QString_fromUtf8 : QByteArray -> Z -> QString;
  X509_get_version : X509 -> Z;
  X509_get0_notBefore : X509 -> option ASN1_TIME;
  X509_get0_notAfter : X509 -> option ASN1_TIME;
  (* ASN1_TIME_to_tm followed by _mkgmtime: [None] when ASN1_TIME_to_tm
     does not return a positive value *)
  ASN1_TIME_to_time_t : ASN1_TIME -> option Z;
  (* EVP_PKEY_type(EVP_PKEY_base_id(X509_PUBKEY_get(X509_get_X509_PUBKEY(c)))) *)
  X509_public_key_type : X509 -> Z;
  (* EVP_PKEY_bits(X509_PUBKEY_get(X509_get_X509_PUBKEY(c))) *)
  X509_public_key_bits : X509 -> Z;
  EVP_PKEY_RSA : Z;
  EVP_PKEY_DSA : Z;
  EVP_PKEY_DH : Z;
  EVP_PKEY_EC : Z;
  X509_get_key_usage : X509 -> Z;
  X509_get0_pubkey : X509 -> option EVP_PKEY;
  EVP_PKEY_get0_RSA : EVP_PKEY -> option RSA;

  (* --- PKCS#7 --- *)
  PKCS7_type_is_signed : PKCS7 -> bool;
  PKCS7_type_is_signedAndEnveloped : PKCS7 -> bool;
  PKCS7_sign_cert : PKCS7 -> option (list X509);
  PKCS7_signed_and_enveloped_cert : PKCS7 -> option (list X509);
  PKCS7_get_signer_info : PKCS7 -> option (list PKCS7_SIGNER_INFO);
  (* the certificate with the issuer and the serial number of a signer *)
  X509_find_by_issuer_and_serial : list X509 -> PKCS7_SIGNER_INFO -> option X509;
  PKCS7_dataInit : PKCS7 -> QByteArray -> option BIO;
  (* the loop calling BIO_read until it returns no more bytes *)
  BIO_read_until_end : BIO -> BIO;
  (* the value returned, and the reason ERR_GET_REASON(ERR_get_error())
     gives after the call *)
  PKCS7_signatureVerify : BIO -> PKCS7 -> PKCS7_SIGNER_INFO -> X509 -> Z * Z;
  PKCS7_R_DIGEST_FAILURE : Z;

  (* --- chain validation --- *)
  X509_STORE_CTX_new : X509_STORE_CTX;
  X509_STORE_CTX_init :
    X509_STORE_CTX -> list X509 -> X509 -> list X509 -> bool * X509_STORE_CTX;
  X509_STORE_CTX_set_purpose : X509_STORE_CTX -> Z -> bool * X509_STORE_CTX;
  X509_STORE_CTX_set_flags : X509_STORE_CTX -> Z -> X509_STORE_CTX;
  X509_verify_cert : X509_STORE_CTX -> Z * X509_STORE_CTX;
  X509_STORE_CTX_get_error : X509_STORE_CTX -> Z;
  X509_STORE_CTX_get0_chain : X509_STORE_CTX -> list X509;
  X509_STORE_CTX_cleanup : X509_STORE_CTX -> X509_STORE_CTX;
  X509_PURPOSE_SMIME_SIGN : Z;
  X509_V_FLAG_TRUSTED_FIRST : Z;
  X509_V_FLAG_NO_CHECK_TIME : Z;
  X509_V_OK : Z;
  X509_V_ERR_CERT_HAS_EXPIRED : Z;
  X509_V_ERR_DEPTH_ZERO_SELF_SIGNED_CERT : Z;
  X509_V_ERR_SELF_SIGNED_CERT_IN_CHAIN : Z;
  X509_V_ERR_UNABLE_TO_GET_ISSUER_CERT : Z;
  X509_V_ERR_UNABLE_TO_GET_ISSUER_CERT_LOCALLY : Z;
  X509_V_ERR_CERT_REVOKED : Z;
  (* the certificates of the Windows system store "ROOT"; empty elsewhere *)
  systemRootCertificates : list QByteArray;

  (* --- RSA and digests --- *)
  RSA_size : RSA -> Z;
  RSA_public_decrypt : ASN1_OCTET_STRING -> RSA -> Z * QByteArray;
  (* OBJ_obj2nid of the algorithm of a DigestInfo *)
  X509_SIG_algorithm_nid : X509_SIG -> Z;
  EVP_get_digestbynid : Z -> option EVP_MD;
  (* EVP_DigestInit, EVP_DigestUpdate, EVP_DigestFinal *)
  EVP_Digest : EVP_MD -> QByteArray -> QByteArray;
  (* the value returned, and the reason of the error it leaves *)
  RSA_verify : Z -> QByteArray -> ASN1_OCTET_STRING -> RSA -> Z * Z;
  RSA_R_DIGEST_DOES_NOT_MATCH : Z;
  SHA1 : QByteArray -> QByteArray
}.

Module Extractor.

Section WithOpenSSL.
Context {ssl : OpenSSL}.

Definition UINT32_MAX : Z := 2 ^ 32 - 1.

(** [PDFPublicKeySignatureHandler::getStringFromX509Name]. *)
Definition getStringFromX509Name (name : X509_NAME) (nid : Z) : QString :=
  let stringLocation := X509_NAME_get_index_by_NID name nid (-1) in
  match X509_NAME_get_entry name stringLocation with
  | None => []
  | Some entry =>
      match X509_NAME_ENTRY_get_data entry with
      | None => []
      | Some string =>
          let (errorCodeOrLength, utf8Buffer) := ASN1_STRING_to_UTF8 string in
          if errorCodeOrLength >? 0 then QString_fromUtf8 utf8Buffer errorCodeOrLength
          else []
      end
  end.

(** [PDFPublicKeySignatureHandler::getDateTimeFromASN]. *)
Definition getDateTimeFromASN (time : option ASN1_TIME) : QDateTime :=
  match time with
  | None => nullDateTime
  | Some t =>
      match ASN1_TIME_to_time_t t with
      | Some localTime => fromSecsSinceEpoch localTime
      | None => nullDateTime
      end
  end.

(** [PDFPublicKeySignatureHandler::getCertificateInfo] on a parsed certificate. *)
Definition getCertificateInfo (certificate : X509) : PDFCertificateInfo :=
  let info := defaultInfo in
  match X509_get_subject_name certificate with
  | None => info
  | Some subjectName =>
      let countryName := getStringFromX509Name subjectName NID_countryName in
      let organizationName := getStringFromX509Name subjectName NID_organizationName in
      let organizationalUnitName := getStringFromX509Name subjectName NID_organizationalUnitName in
      let distinguishedName := getStringFromX509Name subjectName NID_distinguishedName in
      let stateOrProvinceName := getStringFromX509Name subjectName NID_stateOrProvinceName in
      let commonName := getStringFromX509Name subjectName NID_commonName in
      let serialNumber := getStringFromX509Name subjectName NID_serialNumber in
      let localityName := getStringFromX509Name subjectName NID_localityName in
      let title := getStringFromX509Name subjectName NID_title in
      let surname := getStringFromX509Name subjectName NID_surname in
      let givenName := getStringFromX509Name subjectName NID_givenName in
      let initials := getStringFromX509Name subjectName NID_initials in
      let pseudonym := getStringFromX509Name subjectName NID_pseudonym in
      let generationQualifier := getStringFromX509Name subjectName NID_generationQualifier in
      let email := getStringFromX509Name subjectName NID_pkcs9_emailAddress in
      let info := setName info CountryName countryName in
      let info := setName info OrganizationName organizationName in
      let info := setName info OrganizationalUnitName organizationalUnitName in
      let info := setName info DistinguishedName distinguishedName in
      let info := setName info StateOrProvinceName stateOrProvinceName in
      let info := setName info CommonName commonName in
      let info := setName info SerialNumber serialNumber in
      let info := setName info LocalityName localityName in
      let info := setName info Title title in
      let info := setName info Surname surname in
      let info := setName info GivenName givenName in
      let info := setName info Initials initials in
      let info := setName info Pseudonym pseudonym in
      let info := setName info GenerationalQualifier generationQualifier in
      let info := setName info Email email in
      let version := X509_get_version certificate in
      let info := setVersion info (wrap32 version) in
      let info := setNotValidBefore info (getDateTimeFromASN (X509_get0_notBefore certificate)) in
      let info := setNotValidAfter info (getDateTimeFromASN (X509_get0_notAfter certificate)) in
      let keyType := X509_public_key_type certificate in
      let key :=
        if keyType =? EVP_PKEY_RSA then KeyRSA
        else if keyType =? EVP_PKEY_DSA then KeyDSA
        else if keyType =? EVP_PKEY_DH then KeyDH
        else if keyType =? EVP_PKEY_EC then KeyEC
        else KeyUnknown in
      let info := setPublicKey info key in
      let info := setKeySize info (X509_public_key_bits certificate) in
      let keyUsage := X509_get_key_usage certificate in
      let info := if negb (keyUsage =? UINT32_MAX) then setKeyUsage info (wrap32 keyUsage) else info in
      let (length, buffer) := i2d_X509 certificate in
      if length >=? 0 then setCertificateData info (firstn (Z.to_nat length) buffer)
      else info
  end.

(** [PDFCertificateInfo::getCertificateInfo] on certificate bytes. *)
Definition getCertificateInfoFromData (certificateData : QByteArray) : option PDFCertificateInfo :=
  match d2i_X509 certificateData with
  | Some certificate => Some (getCertificateInfo certificate)
  | None => None
  end.

End WithOpenSSL.

End Extractor.
Export Extractor.

(* ================================================================== *)
(** * Trusted certificate store *)
(* ================================================================== *)

Module CertificateStore.

(** Modelled from the spec: [EntryType] and [CertificateEntry] are declared
    in pdfsignaturehandler.h; an entry is an entry type and a certificate
    description. *)
Inductive EntryType : Type := System | User.

Record CertificateEntry := mkEntry {
  type : EntryType;
  info : PDFCertificateInfo
}.

Record PDFCertificateStore := mkStore {
  m_certificates : list CertificateEntry
}.

Definition emptyStore : PDFCertificateStore := mkStore [].

(** The predicate of the [std::find_if] calls. *)
Definition sameInfo (i : PDFCertificateInfo) (entry : CertificateEntry) : bool :=
  info_eqb (info entry) i.

(** [PDFCertificateStore::add] on a certificate description: the value
    returned and the store afterwards. *)
Definition add (store : PDFCertificateStore) (t : EntryType) (i : PDFCertificateInfo)
  : bool * PDFCertificateStore :=
  match find (sameInfo i) (m_certificates store) with
  | None => (true, mkStore (m_certificates store ++ [mkEntry t i]))
  | Some _ => (true, store)
  end.

(** [PDFCertificateStore::contains]. *)
Definition contains (store : PDFCertificateStore) (i : PDFCertificateInfo) : bool :=
  match find (sameInfo i) (m_certificates store) with
  | None => false
  | Some _ => true
  end.

(** [PDFCertificateStore::add] on certificate bytes. *)
Definition addCertificate {ssl : OpenSSL} (store : PDFCertificateStore) (t : EntryType)
    (certificate : QByteArray) : bool * PDFCertificateStore :=
  match getCertificateInfoFromData certificate with
  | Some certificateInfo => add store t certificateInfo
  | None => (false, store)
  end.

(** Number of entries of the store whose description equals [i]. *)
Definition countInfo (store : PDFCertificateStore) (i : PDFCertificateInfo) : nat :=
  List.length (filter (sameInfo i) (m_certificates store)).

End CertificateStore.
Export CertificateStore.

(* ================================================================== *)
(** * Verification flags and verification result *)
(* ================================================================== *)

Module VerificationResult.

(** Modelled from the spec: the enumeration
    [PDFSignatureVerificationResult::VerificationFlag] is declared in
    pdfsignaturehandler.h, which is not among the sources.  Every flag the
    source names is one bit of the flag word; the bits are numbered here in
    the order in which the specification lists the groups. *)
Inductive VerificationFlag : Type :=
| OK
| Certificate_OK
| Signature_OK
| Error_NoHandler
| Error_Certificate_Invalid
| Error_Certificate_NoSignatures
| Error_Certificate_Missing
| Error_Certificate_Generic
| Error_Certificate_Expired
| Error_Certificate_SelfSigned
| Error_Certificate_SelfSignedChain
| Error_Certificate_TrustedNotFound
| Error_Certificate_Revoked
| Error_Certificate_Other
| Error_Signature_Invalid
| Error_Signature_NoSignaturesFound
| Error_Signature_SourceCertificateMissing
| Error_Signature_DigestFailure
| Error_Signature_DataOther
| Error_Signature_DataCoveredBySignatureMissing
| Warning_Signature_NotCoveredBytes.

Definition flagBit (f : VerificationFlag) : Z :=
  match f with
  | OK => 0
  | Certificate_OK => 1
  | Signature_OK => 2
  | Error_NoHandler => 3
  | Error_Certificate_Invalid => 4
  | Error_Certificate_NoSignatures => 5
  | Error_Certificate_Missing => 6
  | Error_Certificate_Generic => 7
  | Error_Certificate_Expired => 8
  | Error_Certificate_SelfSigned => 9
  | Error_Certificate_SelfSignedChain => 10
  | Error_Certificate_TrustedNotFound => 11
  | Error_Certificate_Revoked => 12
  | Error_Certificate_Other => 13
  | Error_Signature_Invalid => 14
  | Error_Signature_NoSignaturesFound => 15
  | Error_Signature_SourceCertificateMissing => 16
  | Error_Signature_DigestFailure => 17
  | Error_Signature_DataOther => 18
  | Error_Signature_DataCoveredBySignatureMissing => 19
  | Warning_Signature_NotCoveredBytes => 20
  end.

(** The enumerator's integer value. *)
Definition flagValue (f : VerificationFlag) : Z := Z.shiftl 1 (flagBit f).

(** [QFlags<VerificationFlag>]: the [int] holding the bits. *)
Definition VerificationFlags := Z.

(** [QFlags::setFlag(flag, on)]. *)
Definition QFlags_setFlag (i : VerificationFlags) (flag : Z) (on : bool) : VerificationFlags :=
  if on then Z.lor i flag else Z.land i (Z.lnot flag).

(** [QFlags::testFlag(flag)]. *)
Definition QFlags_testFlag (i : VerificationFlags) (flag : Z) : bool :=
  (Z.land i flag =? flag) && (negb (flag =? 0) || (i =? flag)).

Definition certificateErrors : list VerificationFlag :=
  [ Error_Certificate_Invalid; Error_Certificate_NoSignatures;
    Error_Certificate_Missing; Error_Certificate_Generic;
    Error_Certificate_Expired; Error_Certificate_SelfSigned;
    Error_Certificate_SelfSignedChain; Error_Certificate_TrustedNotFound;
    Error_Certificate_Revoked; Error_Certificate_Other ].

Definition signatureErrors : list VerificationFlag :=
  [ Error_Signature_Invalid; Error_Signature_NoSignaturesFound;
    Error_Signature_SourceCertificateMissing; Error_Signature_DigestFailure;
    Error_Signature_DataOther; Error_Signature_DataCoveredBySignatureMissing ].

Definition maskOf (l : list VerificationFlag) : Z :=
  fold_right (fun f m => Z.lor (flagValue f) m) 0 l.

(** Modelled from the spec: the masks of the certificate group and of the
    signature group (pdfsignaturehandler.h), the union of the error bits of
    each group as section 7 of the specification lists them. *)
Definition Error_Certificates_Mask : Z := maskOf certificateErrors.
Definition Error_Signatures_Mask : Z := maskOf signatureErrors.

Definition PDFObjectReference := (Z * Z)%type.

Record PDFSignatureVerificationResult := mkResult {
  m_flags : VerificationFlags;
  m_signatureFieldReference : PDFObjectReference;
  m_signatureFieldQualifiedName : QString;
  m_errors : list QString;
  m_warnings : list QString;
  m_certificateInfos : list PDFCertificateInfo
}.

(** The default-constructed result and the two-argument constructor. *)
Definition emptyResult : PDFSignatureVerificationResult :=
  mkResult 0 (0, 0) [] [] [] [].

Definition newResult (reference : PDFObjectReference) (name : QString) :=
  mkResult 0 reference name [] [] [].

Definition withFlags (r : PDFSignatureVerificationResult) (fl : VerificationFlags) :=
  mkResult fl (m_signatureFieldReference r) (m_signatureFieldQualifiedName r)
           (m_errors r) (m_warnings r) (m_certificateInfos r).

(** Modelled from the spec: the inline accessors of
    pdfsignaturehandler.h ([setFlag], [hasFlag], [isValid],
    [isCertificateValid], [isSignatureValid], [hasCertificateError],
    [hasSignatureError], [addCertificateInfo]). *)
Definition setFlag (r : PDFSignatureVerificationResult) (f : VerificationFlag) (on : bool) :=
  withFlags r (QFlags_setFlag (m_flags r) (flagValue f) on).

Definition hasFlag (r : PDFSignatureVerificationResult) (f : VerificationFlag) : bool :=
  QFlags_testFlag (m_flags r) (flagValue f).

Definition isValid r := hasFlag r OK.
Definition isCertificateValid r := hasFlag r Certificate_OK.
Definition isSignatureValid r := hasFlag r Signature_OK.

Definition hasCertificateError (r : PDFSignatureVerificationResult) : bool :=
  negb (Z.land (m_flags r) Error_Certificates_Mask =? 0).

Definition hasSignatureError (r : PDFSignatureVerificationResult) : bool :=
  negb (Z.land (m_flags r) Error_Signatures_Mask =? 0).

Definition addCertificateInfo (r : PDFSignatureVerificationResult) (info : PDFCertificateInfo) :=
  mkResult (m_flags r) (m_signatureFieldReference r) (m_signatureFieldQualifiedName r)
           (m_errors r) (m_warnings r) (m_certificateInfos r ++ [info]).

(** [m_flags.setFlag(f); m_errors << message]. *)
Definition addError (r : PDFSignatureVerificationResult) (f : VerificationFlag) (message : QString) :=
  mkResult (QFlags_setFlag (m_flags r) (flagValue f) true)
           (m_signatureFieldReference r) (m_signatureFieldQualifiedName r)
           (m_errors r ++ [message]) (m_warnings r) (m_certificateInfos r).

Definition addNoHandlerError r (format : QByteArray) :=
  addError r Error_NoHandler
    (arg (tr "No signature handler for signature format '%1'.") (fromLatin1 format)).

Definition addInvalidCertificateError r :=
  addError r Error_Certificate_Invalid (tr "Certificate format is invalid.").

Definition addNoSignaturesError r :=
  addError r Error_Certificate_NoSignatures (tr "No signatures in certificate data.").

Definition addCertificateMissingError r :=
  addError r Error_Certificate_Missing (tr "Certificate is missing.").

Definition addCertificateGenericError r :=
  addError r Error_Certificate_Generic
    (tr "Generic error occured during certificate validation.").

Definition addCertificateExpiredError r :=
  addError r Error_Certificate_Expired (tr "Certificate has expired.").

Definition addCertificateSelfSignedError r :=
  addError r Error_Certificate_SelfSigned (tr "Certificate is self-signed.").

Definition addCertificateSelfSignedInChainError r :=
  addError r Error_Certificate_SelfSignedChain (tr "Self-signed certificate in chain.").

Definition addCertificateTrustedNotFoundError r :=
  addError r Error_Certificate_TrustedNotFound (tr "Trusted certificate not found.").

Definition addCertificateRevokedError r :=
  addError r Error_Certificate_Revoked (tr "Certificate has been revoked.").

Definition addCertificateOtherError r (error : Z) :=
  addError r Error_Certificate_Other
    (arg (tr "Certificate validation failed with code %1.") (number error)).

Definition addInvalidSignatureError r :=
  addError r Error_Signature_Invalid (tr "Signature is invalid.").

Definition addSignatureNoSignaturesFoundError r :=
  addError r Error_Signature_NoSignaturesFound (tr "No signatures found in certificate.").

Definition addSignatureCertificateMissingError r :=
  addError r Error_Signature_SourceCertificateMissing (tr "Signature certificate is missing.").

Definition addSignatureDigestFailureError r :=
  addError r Error_Signature_DigestFailure
    (tr "Signed data has different hash function digest.").

Definition addSignatureDataOtherError r :=
  addError r Error_Signature_DataOther (tr "Signed data are invalid.").

Definition addSignatureDataCoveredBySignatureMissingError r :=
  addError r Error_Signature_DataCoveredBySignatureMissing
    (tr "Data covered by signature are not present.").

Definition addSignatureNotCoveredBytesWarning (r : PDFSignatureVerificationResult) (count : Z) :=
  mkResult (QFlags_setFlag (m_flags r) (flagValue Warning_Signature_NotCoveredBytes) true)
           (m_signatureFieldReference r) (m_signatureFieldQualifiedName r)
           (m_errors r)
           (m_warnings r ++ [arg (tr "%1 bytes are not covered by signature.") (number count)])
           (m_certificateInfos r).

Definition setSignatureFieldQualifiedName (r : PDFSignatureVerificationResult) (name : QString) :=
  mkResult (m_flags r) (m_signatureFieldReference r) name
           (m_errors r) (m_warnings r) (m_certificateInfos r).

Definition setSignatureFieldReference (r : PDFSignatureVerificationResult) (reference : PDFObjectReference) :=
  mkResult (m_flags r) reference (m_signatureFieldQualifiedName r)
           (m_errors r) (m_warnings r) (m_certificateInfos r).

(** [PDFSignatureVerificationResult::validate]. *)
Definition validate (r : PDFSignatureVerificationResult) : PDFSignatureVerificationResult :=
  if isCertificateValid r && isSignatureValid r then withFlags r (QFlags_setFlag (m_flags r) (flagValue OK) true)
  else r.

End VerificationResult.
Export VerificationResult.


(* ================================================================== *)
(** * Closed interval sets *)
(* ================================================================== *)

Module ClosedIntervalSet.

(** Modelled from the spec: [PDFClosedIntervalSet] is declared in
    pdfutils.h, which is not among the sources.  The specification calls it
    the coverage set, "the union of intervals of the file actually
    protected by the signature", kept merged; it is compared against an
    interval and its total covered length is taken.  The set is the list of
    its merged intervals in increasing order. *)
Definition ClosedInterval := (Z * Z)%type.

Definition PDFClosedIntervalSet := list ClosedInterval.

Definition emptySet : PDFClosedIntervalSet := [].

(** Merge the non-empty interval [low, high] into a merged list. *)
Fixpoint mergeInterval (low high : Z) (s : PDFClosedIntervalSet) : PDFClosedIntervalSet :=
  match s with
  | [] => [(low, high)]
  | (a, b) :: rest =>
      if high + 1 <? a then (low, high) :: (a, b) :: rest
      else if b + 1 <? low then (a, b) :: mergeInterval low high rest
      else mergeInterval (Z.min low a) (Z.max high b) rest
  end.

(** [PDFClosedIntervalSet::addInterval]; an interval with [high < low] has
    no element and adds nothing. *)
Definition addInterval (s : PDFClosedIntervalSet) (low high : Z) : PDFClosedIntervalSet :=
  if high <? low then s else mergeInterval low high s.

(** [PDFClosedIntervalSet::isCovered]. *)
Definition isCovered (s : PDFClosedIntervalSet) (low high : Z) : bool :=
  (high <? low) || existsb (fun i => (fst i <=? low) && (high <=? snd i)) s.

(** [PDFClosedIntervalSet::getTotalLength]. *)
Definition getTotalLength (s : PDFClosedIntervalSet) : Z :=
  fold_left (fun count i => count + (snd i - fst i + 1)) s 0.

(** The integers of the set. *)
Definition member (x : Z) (s : PDFClosedIntervalSet) : Prop :=
  exists i, In i s /\ fst i <= x <= snd i.

End ClosedIntervalSet.
Export ClosedIntervalSet.

(* ================================================================== *)
(** * Signature dictionary and byte-range assembler *)
(* ================================================================== *)

Module SignatureDictionary.

Inductive SignatureType : Type := Sig | DocTimeStamp.

Record ByteRange := mkByteRange {
  offset : Z;     (* PDFInteger *)
  size : Z        (* PDFInteger *)
}.

(** The members of [PDFSignature] that verification reads. *)
Record PDFSignature := mkSignature {
  m_type : SignatureType;
  m_filter : QByteArray;
  m_subfilter : QByteArray;
  m_contents : QByteArray;
  m_certificates : option (list QByteArray);
  m_byteRanges : list ByteRange
}.

End SignatureDictionary.
Export SignatureDictionary.

Module Assembler.

(** [QByteArray::toHex]: two lower-case hexadecimal digits per byte. *)
Definition hexDigit (n : N) : byte :=
  match Byte.of_N (if (n <? 10)%N then 48 + n else 87 + n)%N with
  | Some b => b
  | None => x00
  end.

Definition toHex (a : QByteArray) : QByteArray :=
  flat_map (fun b => [hexDigit (Byte.to_N b / 16); hexDigit (Byte.to_N b mod 16)]) a.

(** [QByteArray::toUpper], on the letters a to z (the only letters a
    hexadecimal encoding contains). *)
Definition upperByte (b : byte) : byte :=
  let n := Byte.to_N b in
  if ((97 <=? n) && (n <=? 122))%N then
    match Byte.of_N (n - 32) with Some c => c | None => b end
  else b.

Definition toUpper (a : QByteArray) : QByteArray := map upperByte a.

Fixpoint startsWith (a needle : QByteArray) : bool :=
  match needle, a with
  | [], _ => true
  | _ :: _, [] => false
  | x :: needle', y :: a' => byte_eqb x y && startsWith a' needle'
  end.

Fixpoint indexOfFrom (a needle : QByteArray) (from : Z) : Z :=
  match a with
  | [] => match needle with [] => from | _ :: _ => -1 end
  | _ :: a' => if startsWith a needle then from else indexOfFrom a' needle (from + 1)
  end.

(** [QByteArray::indexOf]: index of the first occurrence, or -1. *)
Definition indexOf (a needle : QByteArray) : Z := indexOfFrom a needle 0.

(** [QByteArray::operator[]]. *)
Definition at_ (a : QByteArray) (i : Z) : byte := nth (Z.to_nat i) a x00.

(** The [length] bytes at [data + start]. *)
Definition bytesAt (a : QByteArray) (start length : Z) : QByteArray :=
  firstn (Z.to_nat length) (skipn (Z.to_nat start) a).

(** The first loop of [getSignedDataBuffer]: the sum of the range sizes. *)
Definition sumSizes (byteRanges : list ByteRange) : Z :=
  fold_left (fun size byteRange => wrap64 (size + SignatureDictionary.size byteRange)) byteRanges 0.

(** The condition under which the second loop gives up. *)
Definition outOfBounds (sourceData : QByteArray) (startOffset endOffset : Z) : bool :=
  (startOffset >? endOffset) || (startOffset <? 0) || (endOffset <? 0)
  || (startOffset >=? QByteArray_size sourceData)
  || (endOffset >? QByteArray_size sourceData).

(** The second loop of [getSignedDataBuffer]: the output buffer, and the
    covered intervals unless a range fails the checks. *)
Fixpoint appendRanges (sourceData : QByteArray) (byteRanges : list ByteRange)
    (outputBuffer : QByteArray) (bytesCoveredBySignature : PDFClosedIntervalSet)
  : QByteArray * option PDFClosedIntervalSet :=
  match byteRanges with
  | [] => (outputBuffer, Some bytesCoveredBySignature)
  | byteRange :: rest =>
      let startOffset := offset byteRange in
      let endOffset := wrap64 (offset byteRange + SignatureDictionary.size byteRange) in
      if startOffset =? endOffset then
        appendRanges sourceData rest outputBuffer bytesCoveredBySignature
      else if outOfBounds sourceData startOffset endOffset then
        (outputBuffer, None)
      else
        let length := wrap32 (wrap64 (endOffset - startOffset)) in
        appendRanges sourceData rest
          (outputBuffer ++ bytesAt sourceData startOffset length)
          (addInterval bytesCoveredBySignature startOffset (wrap64 (endOffset - 1)))
  end.

(** The search of the hexadecimal contents in the file and the interval it
    adds to the covered set. *)
Definition coverContents (sourceData contents : QByteArray)
    (bytesCoveredBySignature : PDFClosedIntervalSet) : PDFClosedIntervalSet :=
  let hexContents := toHex contents in
  let index := indexOf sourceData hexContents in
  let index := if index =? -1 then indexOf sourceData (toUpper hexContents) else index in
  if negb (index =? -1) then
    let firstByteIndex := index in
    let lastByteIndex := wrap32 (wrap32 (index + QByteArray_size hexContents) - 1) in
    let firstByteIndex :=
      if (firstByteIndex >? 0) && byte_eqb (at_ sourceData (wrap32 (firstByteIndex - 1))) "<"%byte
      then wrap32 (firstByteIndex - 1) else firstByteIndex in
    let lastByteIndex :=
      if (wrap32 (lastByteIndex + 1) <? QByteArray_size sourceData)
         && byte_eqb (at_ sourceData (wrap32 (lastByteIndex + 1))) ">"%byte
      then wrap32 (lastByteIndex + 1) else lastByteIndex in
    addInterval bytesCoveredBySignature firstByteIndex lastByteIndex
  else bytesCoveredBySignature.

(** [PDFPublicKeySignatureHandler::getSignedDataBuffer]: the result, the
    output buffer, and the bytes of the memory BIO returned ([None] for a
    null pointer). *)
Definition getSignedDataBuffer (signature : PDFSignature) (sourceData : QByteArray)
    (result : PDFSignatureVerificationResult) (outputBuffer : QByteArray)
  : PDFSignatureVerificationResult * QByteArray * option QByteArray :=
  let contents := m_contents signature in
  let byteRanges := m_byteRanges signature in
  let size := sumSizes byteRanges in
  if size >? QByteArray_size sourceData then
    (addSignatureDataCoveredBySignatureMissingError result, outputBuffer, None)
  else
    match appendRanges sourceData byteRanges outputBuffer emptySet with
    | (outputBuffer, None) =>
        (addSignatureDataCoveredBySignatureMissingError result, outputBuffer, None)
    | (outputBuffer, Some bytesCoveredBySignature) =>
        let bytesCoveredBySignature :=
          coverContents sourceData contents bytesCoveredBySignature in
        let result :=
          if negb (isCovered bytesCoveredBySignature 0 (wrap32 (QByteArray_size sourceData - 1)))
          then
            let notCoveredBytes :=
              wrap32 (QByteArray_size sourceData - wrap32 (getTotalLength bytesCoveredBySignature)) in
            addSignatureNotCoveredBytesWarning result notCoveredBytes
          else result in
        (result, outputBuffer, Some outputBuffer)
    end.

(** The covered set that [getSignedDataBuffer] compares with the file: the
    byte ranges and then the contents, merged. *)
Definition mergedCoverage (signature : PDFSignature) (sourceData : QByteArray)
  : option PDFClosedIntervalSet :=
  match snd (appendRanges sourceData (m_byteRanges signature) [] emptySet) with
  | Some s => Some (coverContents sourceData (m_contents signature) s)
  | None => None
  end.

(** The slices of the file that the ranges of nonzero length name, in
    array order. *)
Definition rangeSlices (sourceData : QByteArray) (byteRanges : list ByteRange) : QByteArray :=
  flat_map (fun r => bytesAt sourceData (offset r) (SignatureDictionary.size r))
           (filter (fun r => negb (SignatureDictionary.size r =? 0)) byteRanges).

Definition sumNonzeroSizes (byteRanges : list ByteRange) : Z :=
  fold_right Z.add 0
    (map SignatureDictionary.size (filter (fun r => negb (SignatureDictionary.size r =? 0)) byteRanges)).

(** The fields of a byte range are PDFInteger values. *)
Definition wfByteRange (r : ByteRange) : Prop :=
  is_int64 (offset r) /\ is_int64 (SignatureDictionary.size r).

(** A range passes the check of the second loop: it is empty, or it has
    a positive length and lies within the file. *)
Definition passesRangeCheck (sourceData : QByteArray) (r : ByteRange) : Prop :=
  SignatureDictionary.size r = 0
  \/ (0 <= offset r /\ 0 < SignatureDictionary.size r
      /\ offset r + SignatureDictionary.size r <= QByteArray_size sourceData).

(** The byte ranges pass the sanity check on the sum of the sizes and the
    check of every range. *)
Definition passesBoundsChecks (sourceData : QByteArray) (byteRanges : list ByteRange) : Prop :=
  sumSizes byteRanges <= QByteArray_size sourceData
  /\ Forall (passesRangeCheck sourceData) byteRanges.

(** The intervals of the ranges of nonzero length, merged into [covered]. *)
Definition coverRanges (byteRanges : list ByteRange) (covered : PDFClosedIntervalSet)
  : PDFClosedIntervalSet :=
  fold_left (fun c r =>
               if SignatureDictionary.size r =? 0 then c
               else addInterval c (offset r) (offset r + SignatureDictionary.size r - 1))
            byteRanges covered.

(** The whole file [0, |F| - 1] is in the covered set. *)
Definition coversFile (s : PDFClosedIntervalSet) (sourceData : QByteArray) : Prop :=
  forall x, 0 <= x <= QByteArray_size sourceData - 1 -> member x s.

End Assembler.
Export Assembler.

(* ================================================================== *)
(** * Signature handlers (verification engines) *)
(* ================================================================== *)

Module Handlers.

(** [PDFSignatureHandler::Parameters]. *)
Record Parameters := mkParameters {
  store : option PDFCertificateStore;
  enableVerification : bool;
  ignoreExpirationDate : bool;
  useSystemCertificateStore : bool
}.

(** Modelled from the spec: the form classes are declared in pdfform.h.  A
    field has a type, a self-reference and a fully qualified name; a field
    of type [Signature] carries its signature dictionary.  A form tells
    whether it is an AcroForm or an XFA form and enumerates its fields in a
    fixed order ([PDFForm::apply]). *)
Inductive FieldType : Type := Invalid | Button | Text | Choice | Signature.

Definition FieldType_eqb (a b : FieldType) : bool :=
  match a, b with
  | Invalid, Invalid | Button, Button | Text, Text | Choice, Choice
  | Signature, Signature => true
  | _, _ => false
  end.

Record PDFFormField := mkField {
  getFieldType : FieldType;
  getSelfReference : PDFObjectReference;
  getFullyQualifiedName : QString;
  getSignature : PDFSignature
}.

Record PDFForm := mkForm {
  isAcroForm : bool;
  isXFAForm : bool;
  formFields : list PDFFormField
}.

(** [PDFForm::apply]: the visitor is called on every field in the form's
    order; [state] is what the visitor captures by reference. *)
Definition apply {S : Type} (form : PDFForm) (visitor : S -> PDFFormField -> S) (state : S) : S :=
  fold_left visitor (formFields form) state.

(** The three classes derived from [PDFSignatureHandler]. *)
Inductive HandlerClass : Type :=
| PDFSignatureHandler_adbe_pkcs7_detached
| PDFSignatureHandler_adbe_pkcs7_sha1
| PDFSignatureHandler_adbe_pkcs7_rsa_sha1.

Record PDFSignatureHandler := mkHandler {
  handlerClass : HandlerClass;
  m_signatureField : PDFFormField;
  m_sourceData : QByteArray;
  m_parameters : Parameters
}.

(** [PDFSignatureHandler::createHandler]. *)
Definition createHandler (signatureField : PDFFormField) (sourceData : QByteArray)
    (parameters : Parameters) : option PDFSignatureHandler :=
  let subfilter := m_subfilter (getSignature signatureField) in
  if QByteArray_eqb subfilter (lit "adbe.pkcs7.detached") then
    Some (mkHandler PDFSignatureHandler_adbe_pkcs7_detached signatureField sourceData parameters)
  else if QByteArray_eqb subfilter (lit "adbe.pkcs7.sha1") then
    Some (mkHandler PDFSignatureHandler_adbe_pkcs7_sha1 signatureField sourceData parameters)
  else if QByteArray_eqb subfilter (lit "adbe.x509.rsa_sha1") then
    Some (mkHandler PDFSignatureHandler_adbe_pkcs7_rsa_sha1 signatureField sourceData parameters)
  else None.

Section WithOpenSSL.
Context {ssl : OpenSSL}.

(** [PDFPublicKeySignatureHandler::initializeResult]. *)
Definition initializeResult (h : PDFSignatureHandler) (result : PDFSignatureVerificationResult) :=
  let signatureFieldReference := getSelfReference (m_signatureField h) in
  let signatureFieldQualifiedName := getFullyQualifiedName (m_signatureField h) in
  let result := setSignatureFieldReference result signatureFieldReference in
  setSignatureFieldQualifiedName result signatureFieldQualifiedName.

(** [PDFPublicKeySignatureHandler::getCertificates]. *)
Definition getCertificates (pkcs7 : option PKCS7) : option (list X509) :=
  match pkcs7 with
  | None => None
  | Some p =>
      if PKCS7_type_is_signed p then PKCS7_sign_cert p
      else if PKCS7_type_is_signedAndEnveloped p then PKCS7_signed_and_enveloped_cert p
      else None
  end.

(** The certificates a loop of d2i_X509 and X509_STORE_add_cert adds. *)
Fixpoint addEncodedCertificates (x509store : list X509) (encoded : list QByteArray) : list X509 :=
  match encoded with
  | [] => x509store
  | certificateData :: rest =>
      match d2i_X509 certificateData with
      | Some certificate => addEncodedCertificates (x509store ++ [certificate]) rest
      | None => addEncodedCertificates x509store rest
      end
  end.

(** [PDFPublicKeySignatureHandler::addTrustedCertificates]; the X509_STORE
    is the list of the certificates added to it. *)
Definition addTrustedCertificates (h : PDFSignatureHandler) (x509store : list X509) : list X509 :=
  let x509store :=
    match store (m_parameters h) with
    | Some certificateStore =>
        addEncodedCertificates x509store
          (map (fun entry => m_certificateData (info entry)) (CertificateStore.m_certificates certificateStore))
    | None => x509store
    end in
  if useSystemCertificateStore (m_parameters h)
  then addEncodedCertificates x509store systemRootCertificates
  else x509store.

(** The switch on X509_STORE_CTX_get_error, written twice in the source. *)
Definition addVerificationError (result : PDFSignatureVerificationResult) (error : Z) :=
  if error =? X509_V_OK then result
  else if error =? X509_V_ERR_CERT_HAS_EXPIRED then addCertificateExpiredError result
  else if error =? X509_V_ERR_DEPTH_ZERO_SELF_SIGNED_CERT then addCertificateSelfSignedError result
  else if error =? X509_V_ERR_SELF_SIGNED_CERT_IN_CHAIN then addCertificateSelfSignedInChainError result
  else if (error =? X509_V_ERR_UNABLE_TO_GET_ISSUER_CERT)
          || (error =? X509_V_ERR_UNABLE_TO_GET_ISSUER_CERT_LOCALLY)
  then addCertificateTrustedNotFoundError result
  else if error =? X509_V_ERR_CERT_REVOKED then addCertificateRevokedError result
  else addCertificateOtherError result error.

(** The loops calling addCertificateInfo(getCertificateInfo(...)). *)
Definition addCertificateInfos (result : PDFSignatureVerificationResult) (certificates : list X509) :=
  fold_left (fun r c => addCertificateInfo r (getCertificateInfo c)) certificates result.

Definition verificationFlags (h : PDFSignatureHandler) : Z :=
  let flags := X509_V_FLAG_TRUSTED_FIRST in
  if ignoreExpirationDate (m_parameters h) then Z.lor flags X509_V_FLAG_NO_CHECK_TIME else flags.

(** The part of both certificate checks from X509_STORE_CTX_set_flags to
    X509_STORE_CTX_cleanup. *)
Definition verifyChain (h : PDFSignatureHandler) (context : X509_STORE_CTX)
    (certificates : list X509) (result : PDFSignatureVerificationResult)
  : X509_STORE_CTX * PDFSignatureVerificationResult :=
  let context := X509_STORE_CTX_set_flags context (verificationFlags h) in
  let (verificationResult, context) := X509_verify_cert context in
  let result :=
    if verificationResult <=? 0 then
      let error := X509_STORE_CTX_get_error context in
      let result := addVerificationError result error in
      addCertificateInfos result certificates
    else
      let validChain := X509_STORE_CTX_get0_chain context in
      addCertificateInfos result validChain in
  (X509_STORE_CTX_cleanup context, result).

(** The loop over the signer infos in [verifyCertificate]. *)
Fixpoint verifyCertificateSigners (h : PDFSignatureHandler) (x509store : list X509)
    (certificates : list X509) (signerInfo : list PKCS7_SIGNER_INFO)
    (context : X509_STORE_CTX) (result : PDFSignatureVerificationResult)
  : PDFSignatureVerificationResult :=
  match signerInfo with
  | [] => result
  | signerInfoValue :: rest =>
      match X509_find_by_issuer_and_serial certificates signerInfoValue with
      | None => addCertificateMissingError result
      | Some signer =>
          let (initialized, context) := X509_STORE_CTX_init context x509store signer certificates in
          if negb initialized then addCertificateGenericError result
          else
            let (purposeSet, context) := X509_STORE_CTX_set_purpose context X509_PURPOSE_SMIME_SIGN in
            if negb purposeSet then addCertificateGenericError result
            else
              let (context, result) := verifyChain h context certificates result in
              verifyCertificateSigners h x509store certificates rest context result
      end
  end.

(** sk_X_num: the number of elements, -1 for a null stack. *)
Definition sk_num {A : Type} (stack : option (list A)) : Z :=
  match stack with
  | Some l => Z.of_nat (List.length l)
  | None => -1
  end.

Definition setCertificateOK (result : PDFSignatureVerificationResult) :=
  if negb (hasCertificateError result) then setFlag result Certificate_OK true else result.

Definition setSignatureOK (result : PDFSignatureVerificationResult) :=
  if negb (hasSignatureError result) then setFlag result Signature_OK true else result.

(** [PDFPublicKeySignatureHandler::verifyCertificate]. *)
Definition verifyCertificate (h : PDFSignatureHandler) (result : PDFSignatureVerificationResult) :=
  let signature := getSignature (m_signatureField h) in
  let content := m_contents signature in
  let result :=
    match d2i_PKCS7 content with
    | Some pkcs7 =>
        let context := X509_STORE_CTX_new in
        let x509store := addTrustedCertificates h [] in
        let signerInfo := PKCS7_get_signer_info pkcs7 in
        let signerInfoCount := sk_num signerInfo in
        let certificates := getCertificates (Some pkcs7) in
        match signerInfo, certificates with
        | Some signers, Some certs =>
            if signerInfoCount >? 0
            then verifyCertificateSigners h x509store certs signers context result
            else addNoSignaturesError result
        | _, _ => addNoSignaturesError result
        end
    | None => addInvalidCertificateError result
    end in
  setCertificateOK result.

(** [PDFSignatureHandler_adbe_pkcs7_sha1::getSignedDataBuffer]. *)
Definition getSignedDataBuffer_sha1 (signature : PDFSignature) (sourceData : QByteArray)
    (result : PDFSignatureVerificationResult) (outputBuffer : QByteArray)
  : PDFSignatureVerificationResult * QByteArray * option QByteArray :=
  match getSignedDataBuffer signature sourceData result [] with
  | (result, temporaryBuffer, Some _) =>
      let outputBuffer := SHA1 temporaryBuffer in
      (result, outputBuffer, Some outputBuffer)
  | (result, _, None) => (result, outputBuffer, None)
  end.

(** The virtual call of getSignedDataBuffer. *)
Definition getSignedDataBufferOf (h : PDFSignatureHandler)
    (result : PDFSignatureVerificationResult) (outputBuffer : QByteArray) :=
  match handlerClass h with
  | PDFSignatureHandler_adbe_pkcs7_sha1 =>
      getSignedDataBuffer_sha1 (getSignature (m_signatureField h)) (m_sourceData h) result outputBuffer
  | _ =>
      getSignedDataBuffer (getSignature (m_signatureField h)) (m_sourceData h) result outputBuffer
  end.

(** The loop over the signer infos in [verifySignature]. *)
Fixpoint verifySignatureSigners (pkcs7 : PKCS7) (dataBio : BIO) (certificates : list X509)
    (signerInfo : list PKCS7_SIGNER_INFO) (result : PDFSignatureVerificationResult)
  : PDFSignatureVerificationResult :=
  match signerInfo with
  | [] => result
  | signerInfoValue :: rest =>
      match X509_find_by_issuer_and_serial certificates signerInfoValue with
      | None => addSignatureCertificateMissingError result
      | Some signer =>
          let (verification, reason) := PKCS7_signatureVerify dataBio pkcs7 signerInfoValue signer in
          let result :=
            if verification <=? 0 then
              if reason =? PKCS7_R_DIGEST_FAILURE then addSignatureDigestFailureError result
              else addSignatureDataOtherError result
            else result in
          verifySignatureSigners pkcs7 dataBio certificates rest result
      end
  end.

(** [PDFPublicKeySignatureHandler::verifySignature]. *)
Definition verifySignature (h : PDFSignatureHandler) (result : PDFSignatureVerificationResult) :=
  let signature := getSignature (m_signatureField h) in
  let content := m_contents signature in
  let result :=
    match d2i_PKCS7 content with
    | Some pkcs7 =>
        match getSignedDataBufferOf h result [] with
        | (result, buffer, Some inputBuffer) =>
            match PKCS7_dataInit pkcs7 inputBuffer with
            | Some dataBio =>
                let dataBio := BIO_read_until_end dataBio in
                let signerInfo := PKCS7_get_signer_info pkcs7 in
                let signerInfoCount := sk_num signerInfo in
                let certificates := getCertificates (Some pkcs7) in
                match signerInfo, certificates with
                | Some signers, Some certs =>
                    if signerInfoCount >? 0
                    then verifySignatureSigners pkcs7 dataBio certs signers result
                    else addSignatureNoSignaturesFoundError result
                | _, _ => addSignatureNoSignaturesFoundError result
                end
            | None => addInvalidSignatureError result
            end
        | (result, _, None) => result
        end
    | None => addInvalidSignatureError result
    end in
  setSignatureOK result.

(** [PDFSignatureHandler_adbe_pkcs7_rsa_sha1::createCertificate]. *)
Definition createCertificate (h : PDFSignatureHandler) (index : nat) : option X509 :=
  match m_certificates (getSignature (m_signatureField h)) with
  | Some certificates =>
      match nth_error certificates index with
      | Some certificateData => d2i_X509 certificateData
      | None => None
      end
  | None => None
  end.

(** The loop of [verifyRSACertificate] calling createCertificate(i) for
    i = 1, 2, ... until it returns a null pointer; [encoded] is the list of
    the certificates from index 1 on.  The loop pushes each certificate
    and frees it at once (sk_X509_push stores the pointer without taking a
    reference), so what it leaves on the stack are pointers to freed
    certificates. *)
Fixpoint createCertificatesFrom (encoded : list QByteArray) : list X509 :=
  match encoded with
  | [] => []
  | certificateData :: rest =>
      match d2i_X509 certificateData with
      | Some currentCertificate =>
          X509_free currentCertificate :: createCertificatesFrom rest
      | None => []
      end
  end.

(** [PDFSignatureHandler_adbe_pkcs7_rsa_sha1::getMessageDigestAlgorithm]:
    the value returned and [algorithmNID]. *)
Definition getMessageDigestAlgorithm (encryptedString : ASN1_OCTET_STRING) (rsa : RSA) : bool * Z :=
  let algorithmNID := 0 in
  let (signatureSize, decryptedBuffer) := RSA_public_decrypt encryptedString rsa in
  if signatureSize <=? 0 then (false, algorithmNID)
  else
    match d2i_X509_SIG decryptedBuffer signatureSize with
    | Some x509_sig => (true, X509_SIG_algorithm_nid x509_sig)
    | None => (false, algorithmNID)
    end.

(** [PDFSignatureHandler_adbe_pkcs7_rsa_sha1::getMessageDigest]: the value
    returned, [algorithmNID] and [digest]. *)
Definition getMessageDigest (message : QByteArray) (encryptedString : ASN1_OCTET_STRING)
    (rsa : RSA) (digest : QByteArray) : bool * Z * QByteArray :=
  let (found, algorithmNID) := getMessageDigestAlgorithm encryptedString rsa in
  if negb found then (false, algorithmNID, digest)
  else
    match EVP_get_digestbynid algorithmNID with
    | Some md => (true, algorithmNID, EVP_Digest md message)
    | None => (false, algorithmNID, digest)
    end.

(** [PDFSignatureHandler_adbe_pkcs7_rsa_sha1::verifyRSACertificate].  The
    first certificate is freed at the end of the function only; the
    certificates behind it are on the stack as freed
    ([createCertificatesFrom]). *)
Definition verifyRSACertificate (h : PDFSignatureHandler) (result : PDFSignatureVerificationResult) :=
  let result :=
    match createCertificate h 0 with
    | Some certificate =>
        let certificates :=
          certificate ::
          createCertificatesFrom
            (match m_certificates (getSignature (m_signatureField h)) with
             | Some encoded => skipn 1 encoded
             | None => []
             end) in
        let context := X509_STORE_CTX_new in
        let x509store := addTrustedCertificates h [] in
        let signer := certificate in
        let (initialized, context) := X509_STORE_CTX_init context x509store signer certificates in
        let result := if negb initialized then addCertificateGenericError result else result in
        let (purposeSet, context) := X509_STORE_CTX_set_purpose context X509_PURPOSE_SMIME_SIGN in
        let result := if negb purposeSet then addCertificateGenericError result else result in
        if negb (hasCertificateError result)
        then snd (verifyChain h context certificates result)
        else result
    | None => addInvalidCertificateError result
    end in
  setCertificateOK result.

(** [PDFSignatureHandler_adbe_pkcs7_rsa_sha1::verifyRSASignature]. *)
Definition verifyRSASignature (h : PDFSignatureHandler) (result : PDFSignatureVerificationResult) :=
  match createCertificate h 0 with
  | None => addSignatureCertificateMissingError result
  | Some certificate =>
      match X509_get0_pubkey certificate with
      | None => addSignatureCertificateMissingError result
      | Some evpKey =>
          match EVP_PKEY_get0_RSA evpKey with
          | None => addSignatureCertificateMissingError result
          | Some rsa =>
              match getSignedDataBufferOf h result [] with
              | (result, outputBuffer, Some bio) =>
                  let signKey := m_contents (getSignature (m_signatureField h)) in
                  match d2i_ASN1_OCTET_STRING signKey with
                  | Some encryptedString =>
                      match getMessageDigest outputBuffer encryptedString rsa [] with
                      | (false, _, _) => addSignatureDataOtherError result
                      | (true, algorithmNID, digestBuffer) =>
                          let (verifyValue, errorCode) :=
                            RSA_verify algorithmNID digestBuffer encryptedString rsa in
                          let result :=
                            if verifyValue =? 0 then
                              if errorCode =? RSA_R_DIGEST_DOES_NOT_MATCH
                              then addSignatureDigestFailureError result
                              else addSignatureDataOtherError result
                            else result in
                          setSignatureOK result
                      end
                  | None => setSignatureOK (addSignatureDataOtherError result)
                  end
              | (result, _, None) => setSignatureOK result
              end
          end
      end
  end.

(** The virtual [verify] of the three handler classes. *)
Definition verify (h : PDFSignatureHandler) : PDFSignatureVerificationResult :=
  match handlerClass h with
  | PDFSignatureHandler_adbe_pkcs7_detached
  | PDFSignatureHandler_adbe_pkcs7_sha1 =>
      let result := emptyResult in
      let result := initializeResult h result in
      let result := verifyCertificate h result in
      let result := verifySignature h result in
      validate result
  | PDFSignatureHandler_adbe_pkcs7_rsa_sha1 =>
      let result := emptyResult in
      let result := initializeResult h result in
      let result := verifyRSACertificate h result in
      let result := verifyRSASignature h result in
      validate result
  end.

(** The visitor of [verifySignatures] collecting the signature fields. *)
Definition getSignatureFields (signatureFields : list PDFFormField) (field : PDFFormField) :=
  if FieldType_eqb (getFieldType field) Signature
  then signatureFields ++ [field]
  else signatureFields.

(** The body of the loop of [verifySignatures] for one signature field. *)
Definition verifyField (sourceData : QByteArray) (parameters : Parameters)
    (signatureField : PDFFormField) : PDFSignatureVerificationResult :=
  match createHandler signatureField sourceData parameters with
  | Some signatureHandler => verify signatureHandler
  | None =>
      let signatureFieldReference := getSelfReference signatureField in
      let qualifiedName := getFullyQualifiedName signatureField in
      let verificationResult := newResult signatureFieldReference qualifiedName in
      addNoHandlerError verificationResult (m_subfilter (getSignature signatureField))
  end.

(** [PDFSignatureHandler::verifySignatures]. *)
Definition verifySignatures (form : PDFForm) (sourceData : QByteArray) (parameters : Parameters)
  : list PDFSignatureVerificationResult :=
  let result := [] in
  if enableVerification parameters && (isAcroForm form || isXFAForm form) then
    let signatureFields := apply form getSignatureFields [] in
    fold_left (fun result signatureField =>
                 result ++ [verifyField sourceData parameters signatureField])
              signatureFields result
  else result.

End WithOpenSSL.

End Handlers.
Export Handlers.

(* ================================================================== *)
(** * Persistence with QDataStream *)
(* ================================================================== *)

Module DataStream.

(** The bytes of a QDataStream device: operator<< appends at the end,
    operator>> takes from the front. *)
Definition Stream := list byte.

Definition byteOfZ (z : Z) : byte :=
  match Byte.of_N (Z.to_N z) with
  | Some b => b
  | None => x00
  end.

Definition ZofByte (b : byte) : Z := Z.of_N (Byte.to_N b).

(** The [n] low-order bytes of [z], most significant first (QDataStream's
    default byte order is big-endian). *)
Fixpoint bytesBE (n : nat) (z : Z) : list byte :=
  match n with
  | O => []
  | S n' => bytesBE n' (z / 256) ++ [byteOfZ (z mod 256)]
  end.

Definition fromBE (l : list byte) : Z :=
  fold_left (fun acc b => acc * 256 + ZofByte b) l 0.

(** Take [n] bytes, if the stream has them, as an unsigned number. *)
Definition readBE (n : nat) (s : Stream) : option (Z * Stream) :=
  if (n <=? List.length s)%nat then Some (fromBE (firstn n s), skipn n s) else None.

Definition readBytes (n : nat) (s : Stream) : option (list byte * Stream) :=
  if (n <=? List.length s)%nat then Some (firstn n s, skipn n s) else None.

(** The stream operators of a type: the bytes operator<< appends, and
    operator>> reading into an object whose present value is the first
    argument.  [None] stands for a stream whose status is no longer Ok.
    [defaultValue] is the value-initialized object. *)
Class Streamable (A : Type) : Type := {
  defaultValue : A;
  write : A -> Stream;
  read : A -> Stream -> option (A * Stream)
}.

Notation "s << x" := (s ++ write x) (at level 50, left associativity).

Notation "' ( x , s ) <- e ;; k" :=
  (match e with
   | Some (x, s) => k
   | None => None
   end) (at level 10, x name, s name, e at level 100, k at level 200).

(** qint32 and int. *)
Definition write_int32 (z : Z) : Stream := bytesBE 4 z.
Definition read_int32 (s : Stream) : option (Z * Stream) :=
  '(u, s) <- readBE 4 s ;; Some (wrap32 u, s).

#[export] Instance Streamable_int : Streamable Z :=
  {| defaultValue := 0; write := write_int32; read := fun _ => read_int32 |}.

(** quint32. *)
Definition write_uint32 (z : Z) : Stream := bytesBE 4 z.
Definition read_uint32 (s : Stream) : option (Z * Stream) := readBE 4 s.

(** std::size_t, streamed as quint64. *)
Definition write_size_t (n : nat) : Stream := bytesBE 8 (Z.of_nat n).
Definition read_size_t (s : Stream) : option (nat * Stream) :=
  '(u, s) <- readBE 8 s ;; Some (Z.to_nat u, s).

(** QByteArray: the length as quint32, then the bytes; 0xFFFFFFFF is the
    length written for a null array, which is the empty array here. *)
Definition nullMarker : Z := 2 ^ 32 - 1.

Definition write_QByteArray (a : QByteArray) : Stream :=
  match a with
  | [] => write_uint32 nullMarker
  | _ :: _ => write_uint32 (QByteArray_size a) ++ a
  end.

Definition read_QByteArray (s : Stream) : option (QByteArray * Stream) :=
  '(len, s) <- read_uint32 s ;;
  if len =? nullMarker then Some ([], s) else readBytes (Z.to_nat len) s.

#[export] Instance Streamable_QByteArray : Streamable QByteArray :=
  {| defaultValue := []; write := write_QByteArray; read := fun _ => read_QByteArray |}.

(** QString: the number of bytes as quint32, then the UTF-16 code units,
    two bytes each; 0xFFFFFFFF for a null string, the empty string here.
    An odd number of bytes is corrupt data. *)
Fixpoint unitsOf (l : list byte) : list Z :=
  match l with
  | hi :: lo :: rest => (ZofByte hi * 256 + ZofByte lo) :: unitsOf rest
  | _ => []
  end.

Definition write_QString (str : QString) : Stream :=
  match str with
  | [] => write_uint32 nullMarker
  | _ :: _ =>
      write_uint32 (2 * Z.of_nat (List.length str)) ++ flat_map (bytesBE 2) str
  end.

Definition read_QString (s : Stream) : option (QString * Stream) :=
  '(bytes, s) <- read_uint32 s ;;
  if bytes =? nullMarker then Some ([], s)
  else if Z.odd bytes then None
  else '(data, s) <- readBytes (Z.to_nat bytes) s ;; Some (unitsOf data, s).

#[export] Instance Streamable_QString : Streamable QString :=
  {| defaultValue := []; write := write_QString; read := fun _ => read_QString |}.

(** QDateTime (format of Qt 5.2 and later): the Julian day as qint64, the
    milliseconds as quint32, the time specification as qint8.  A time
    specification with an offset or a time zone is outside the model. *)
Definition write_QDateTime (t : QDateTime) : Stream :=
  bytesBE 8 (dt_julianDay t) ++ bytesBE 4 (dt_msecs t) ++ bytesBE 1 (dt_timeSpec t).

Definition read_QDateTime (s : Stream) : option (QDateTime * Stream) :=
  '(jd, s) <- readBE 8 s ;;
  '(ds, s) <- readBE 4 s ;;
  '(spec, s) <- readBE 1 s ;;
  if (spec =? Qt_LocalTime) || (spec =? Qt_UTC)
  then Some (mkQDateTime (wrap64 jd) (wrap32 ds) spec, s)
  else None.

#[export] Instance Streamable_QDateTime : Streamable QDateTime :=
  {| defaultValue := nullDateTime; write := write_QDateTime; read := fun _ => read_QDateTime |}.

(** Enumerations are streamed as their underlying [int]; an integer that
    is no enumerator has no counterpart in the model. *)
Definition PublicKey_toInt (k : PublicKey) : Z :=
  match k with KeyRSA => 0 | KeyDSA => 1 | KeyDH => 2 | KeyEC => 3 | KeyUnknown => 4 end.

Definition PublicKey_ofInt (z : Z) : option PublicKey :=
  if z =? 0 then Some KeyRSA else if z =? 1 then Some KeyDSA
  else if z =? 2 then Some KeyDH else if z =? 3 then Some KeyEC
  else if z =? 4 then Some KeyUnknown else None.

#[export] Instance Streamable_PublicKey : Streamable PublicKey :=
  {| defaultValue := KeyUnknown;
     write := fun k => write_int32 (PublicKey_toInt k);
     read := fun _ s =>
       '(z, s) <- read_int32 s ;;
       match PublicKey_ofInt z with Some k => Some (k, s) | None => None end |}.

Definition EntryType_toInt (t : EntryType) : Z :=
  match t with System => 0 | User => 1 end.

Definition EntryType_ofInt (z : Z) : option EntryType :=
  if z =? 0 then Some System else if z =? 1 then Some User else None.

#[export] Instance Streamable_EntryType : Streamable EntryType :=
  {| defaultValue := System;
     write := fun t => write_int32 (EntryType_toInt t);
     read := fun _ s =>
       '(z, s) <- read_int32 s ;;
       match EntryType_ofInt z with Some t => Some (t, s) | None => None end |}.

Section Containers.
Context {A : Type} {SA : Streamable A}.

Definition writeItems (items : list A) : Stream := flat_map write items.

(** Read into every element of [items] in turn. *)
Fixpoint readItems (items : list A) (s : Stream) : option (list A * Stream) :=
  match items with
  | [] => Some ([], s)
  | item :: rest =>
      '(x, s) <- read item s ;;
      '(xs, s) <- readItems rest s ;;
      Some (x :: xs, s)
  end.

(** [std::vector::resize]. *)
Definition resize (n : nat) (v : list A) : list A :=
  firstn n v ++ repeat defaultValue (n - List.length v).

(** Modelled from the spec: the stream operators of [std::vector]
    (pdfutils.h, not among the sources): a "length-tagged" sequence, the
    number of elements and then the elements; reading resizes the vector
    and reads into its elements. *)
Definition write_vector (v : list A) : Stream :=
  write_size_t (List.length v) ++ writeItems v.

Definition read_vector (v : list A) (s : Stream) : option (list A * Stream) :=
  '(size, s) <- read_size_t s ;; readItems (resize size v) s.

(** Read [count] elements into the array; the elements beyond the
    array's end are read into a temporary and dropped. *)
Fixpoint readArrayItems (count : nat) (array : list A) (s : Stream) : option (list A * Stream) :=
  match count with
  | O => Some (array, s)
  | S count' =>
      match array with
      | item :: rest =>
          '(x, s) <- read item s ;;
          '(xs, s) <- readArrayItems count' rest s ;;
          Some (x :: xs, s)
      | [] =>
          '(x, s) <- read defaultValue s ;; readArrayItems count' [] s
      end
  end.

(** Modelled from the spec: the stream operators of [std::array]
    (pdfutils.h), tagged with the number of elements like a vector. *)
Definition write_array (a : list A) : Stream :=
  write_size_t (List.length a) ++ writeItems a.

Definition read_array (a : list A) (s : Stream) : option (list A * Stream) :=
  '(size, s) <- read_size_t s ;; readArrayItems size a s.

End Containers.

(** Modelled from the spec: [persist_version] is a constant member
    declared in pdfsignaturehandler.h, "value 1 in current practice". *)
Definition persist_version : Z := 1.

(** [PDFCertificateInfo::serialize]. *)
Definition serialize_info (i : PDFCertificateInfo) (stream : Stream) : Stream :=
  let stream := stream << persist_version in
  let stream := stream << m_version i in
  let stream := stream << m_keySize i in
  let stream := stream << m_publicKey i in
  let stream := stream ++ write_array (m_nameEntries i) in
  let stream := stream << m_notValidBefore i in
  let stream := stream << m_notValidAfter i in
  let stream := stream << m_keyUsage i in
  let stream := stream << m_certificateData i in
  stream.

(** [PDFCertificateInfo::deserialize], on the object [i]. *)
Definition deserialize_info (i : PDFCertificateInfo) (stream : Stream)
  : option (PDFCertificateInfo * Stream) :=
  let persist_version := 0 in
  '(persist_version, stream) <- read persist_version stream ;;
  '(version, stream) <- read (m_version i) stream ;;
  '(keySize, stream) <- read (m_keySize i) stream ;;
  '(publicKey, stream) <- read (m_publicKey i) stream ;;
  '(nameEntries, stream) <- read_array (m_nameEntries i) stream ;;
  '(notValidBefore, stream) <- read (m_notValidBefore i) stream ;;
  '(notValidAfter, stream) <- read (m_notValidAfter i) stream ;;
  '(keyUsage, stream) <- read (m_keyUsage i) stream ;;
  '(certificateData, stream) <- read (m_certificateData i) stream ;;
  Some (mkInfo version keySize publicKey nameEntries notValidBefore notValidAfter
               keyUsage certificateData, stream).

(** The stream operators of a class with serialize and deserialize. *)
#[export] Instance Streamable_info : Streamable PDFCertificateInfo :=
  {| defaultValue := defaultInfo;
     write := fun i => serialize_info i [];
     read := deserialize_info |}.

(** [PDFCertificateStore::CertificateEntry::serialize]. *)
Definition serialize_entry (e : CertificateEntry) (stream : Stream) : Stream :=
  let stream := stream << persist_version in
  let stream := stream << type e in
  let stream := stream << info e in
  stream.

(** [PDFCertificateStore::CertificateEntry::deserialize]. *)
Definition deserialize_entry (e : CertificateEntry) (stream : Stream)
  : option (CertificateEntry * Stream) :=
  let persist_version := 0 in
  '(persist_version, stream) <- read persist_version stream ;;
  '(t, stream) <- read (type e) stream ;;
  '(i, stream) <- read (info e) stream ;;
  Some (mkEntry t i, stream).

#[export] Instance Streamable_entry : Streamable CertificateEntry :=
  {| defaultValue := mkEntry System defaultInfo;
     write := fun e => serialize_entry e [];
     read := deserialize_entry |}.

(** [PDFCertificateStore::serialize]. *)
Definition serialize_store (st : PDFCertificateStore) (stream : Stream) : Stream :=
  let stream := stream << persist_version in
  let stream := stream ++ write_vector (CertificateStore.m_certificates st) in
  stream.

(** [PDFCertificateStore::deserialize]. *)
Definition deserialize_store (st : PDFCertificateStore) (stream : Stream)
  : option (PDFCertificateStore * Stream) :=
  let persist_version := 0 in
  '(persist_version, stream) <- read persist_version stream ;;
  '(certificates, stream) <- read_vector (CertificateStore.m_certificates st) stream ;;
  Some (mkStore certificates, stream).

(** The values the wire format represents. *)
Definition valid_QString (str : QString) : Prop :=
  Forall (fun u => 0 <= u < 65536) str /\ 2 * Z.of_nat (List.length str) < nullMarker.

Definition valid_QByteArray (a : QByteArray) : Prop := QByteArray_size a <= INT_MAX.

Definition valid_QDateTime (t : QDateTime) : Prop :=
  is_int64 (dt_julianDay t) /\ is_int32 (dt_msecs t)
  /\ (dt_timeSpec t = Qt_LocalTime \/ dt_timeSpec t = Qt_UTC).

Definition valid_info (i : PDFCertificateInfo) : Prop :=
  is_int32 (m_version i) /\ is_int32 (m_keySize i)
  /\ List.length (m_nameEntries i) = NameEnd
  /\ Forall valid_QString (m_nameEntries i)
  /\ valid_QDateTime (m_notValidBefore i) /\ valid_QDateTime (m_notValidAfter i)
  /\ is_int32 (m_keyUsage i) /\ valid_QByteArray (m_certificateData i).

Definition valid_store (st : PDFCertificateStore) : Prop :=
  Forall (fun e => valid_info (info e)) (CertificateStore.m_certificates st)
  /\ Z.of_nat (List.length (CertificateStore.m_certificates st)) < 2 ^ 64.

End DataStream.
Export DataStream.

(* ================================================================== *)
(** * A small implementation of the OpenSSL interface *)
(* ================================================================== *)

(** An implementation of [OpenSSL] on which the model runs, used in the
    examples.  A certificate or a PKCS#7 container is its bytes and parses
    when it starts with the DER sequence tag 0x30; a container holds one
    signer whose certificate is the container itself; a chain is valid
    when the signer is in the X509_STORE, otherwise the signer counts as
    self-signed; every signature verifies. *)
Module SmallOpenSSL.

Definition parse (b : QByteArray) : option QByteArray :=
  match b with
  | x30 :: _ => Some b
  | _ => None
  end.

Definition verifyContext (context : list QByteArray * option QByteArray) : Z :=
  match context with
  | (x509store, Some signer) => if existsb (QByteArray_eqb signer) x509store then 1 else 0
  | (_, None) => -1
  end.

#[export] Instance smallOpenSSL : OpenSSL := {|
  X509 := QByteArray;
  X509_NAME := unit;
  X509_NAME_ENTRY := unit;
  ASN1_STRING := unit;
  ASN1_TIME := Z;
  ASN1_OCTET_STRING := QByteArray;
  EVP_PKEY := unit;
  EVP_MD := unit;
  RSA := unit;
  X509_SIG := unit;
  PKCS7 := QByteArray;
  PKCS7_SIGNER_INFO := unit;
  X509_STORE_CTX := (list QByteArray * option QByteArray)%type;
  BIO := QByteArray;
  d2i_X509 := parse;
  d2i_PKCS7 := parse;
  d2i_ASN1_OCTET_STRING := fun b => Some b;
  d2i_X509_SIG := fun _ _ => Some tt;
  i2d_X509 := fun c => (QByteArray_size c, c);
  X509_free := fun _ => [];
  NID_countryName := 14;
  NID_organizationName := 17;
  NID_organizationalUnitName := 18;
  NID_distinguishedName := 887;
  NID_stateOrProvinceName := 16;
  NID_commonName := 13;
  NID_serialNumber := 105;
  NID_localityName := 15;
  NID_title := 106;
  NID_surname := 100;
  NID_givenName := 99;
  NID_initials := 101;
  NID_pseudonym := 510;
  NID_generationQualifier := 509;
  NID_pkcs9_emailAddress := 48;
  X509_get_subject_name := fun _ => Some tt;
  X509_NAME_get_index_by_NID := fun _ _ _ => -1;
  X509_NAME_get_entry := fun _ _ => None;
  X509_NAME_ENTRY_get_data := fun _ => None;
  ASN1_STRING_to_UTF8 := fun _ => (0, []);
  QString_fromUtf8 := fun b n => fromLatin1 (firstn (Z.to_nat n) b);
  X509_get_version := fun _ => 2;
  X509_get0_notBefore := fun _ => Some 0;
  X509_get0_notAfter := fun _ => Some 4102444800;
  ASN1_TIME_to_time_t := fun t => Some t;
  X509_public_key_type := fun _ => 6;
  X509_public_key_bits := fun _ => 2048;
  EVP_PKEY_RSA := 6;
  EVP_PKEY_DSA := 116;
  EVP_PKEY_DH := 28;
  EVP_PKEY_EC := 408;
  X509_get_key_usage := fun _ => 2 ^ 32 - 1;
  X509_get0_pubkey := fun _ => Some tt;
  EVP_PKEY_get0_RSA := fun _ => Some tt;
  PKCS7_type_is_signed := fun _ => true;
  PKCS7_type_is_signedAndEnveloped := fun _ => false;
  PKCS7_sign_cert := fun p => Some [p];
  PKCS7_signed_and_enveloped_cert := fun _ => None;
  PKCS7_get_signer_info := fun _ => Some [tt];
  X509_find_by_issuer_and_serial := fun certificates _ => hd_error certificates;
  PKCS7_dataInit := fun _ data => Some data;
  BIO_read_until_end := fun bio => bio;
  PKCS7_signatureVerify := fun _ _ _ _ => (1, 0);
  PKCS7_R_DIGEST_FAILURE := 101;
  X509_STORE_CTX_new := ([], None);
  X509_STORE_CTX_init := fun _ x509store signer _ => (true, (x509store, Some signer));
  X509_STORE_CTX_set_purpose := fun context _ => (true, context);
  X509_STORE_CTX_set_flags := fun context _ => context;
  X509_verify_cert := fun context => (verifyContext context, context);
  X509_STORE_CTX_get_error := fun _ => 18;
  X509_STORE_CTX_get0_chain :=
    fun context => match snd context with Some signer => [signer] | None => [] end;
  X509_STORE_CTX_cleanup := fun _ => ([], None);
  X509_PURPOSE_SMIME_SIGN := 4;
  X509_V_FLAG_TRUSTED_FIRST := 32768;
  X509_V_FLAG_NO_CHECK_TIME := 2097152;
  X509_V_OK := 0;
  X509_V_ERR_CERT_HAS_EXPIRED := 10;
  X509_V_ERR_DEPTH_ZERO_SELF_SIGNED_CERT := 18;
  X509_V_ERR_SELF_SIGNED_CERT_IN_CHAIN := 19;
  X509_V_ERR_UNABLE_TO_GET_ISSUER_CERT := 2;
  X509_V_ERR_UNABLE_TO_GET_ISSUER_CERT_LOCALLY := 20;
  X509_V_ERR_CERT_REVOKED := 23;
  systemRootCertificates := [];
  RSA_size := fun _ => 256;
  RSA_public_decrypt := fun s _ => (QByteArray_size s, s);
  X509_SIG_algorithm_nid := fun _ => 672;
  EVP_get_digestbynid := fun _ => Some tt;
  EVP_Digest := fun _ message => message;
  RSA_verify := fun _ _ _ _ => (1, 0);
  RSA_R_DIGEST_DOES_NOT_MATCH := 104;
  SHA1 := fun message => firstn 20 message
|}.

(** A file of 21 bytes whose bytes 8 to 15 are the hexadecimal contents
    30313233 between the delimiters at 7 and 16; the ranges (0, 7) and
    (17, 4) are the bytes around them. *)
Definition exampleFile : QByteArray := lit "/Sig   <30313233> end".

Definition exampleRanges : list ByteRange := [mkByteRange 0 7; mkByteRange 17 4].

Definition exampleContents : QByteArray := lit "0123".

Definition exampleSignature (subfilter : string) (byteRanges : list ByteRange) : PDFSignature :=
  mkSignature Sig (lit "Adobe.PPKLite") (lit subfilter) exampleContents None byteRanges.

Definition exampleField (subfilter : string) (byteRanges : list ByteRange) : PDFFormField :=
  mkField Signature (12, 0) (tr "Signature1") (exampleSignature subfilter byteRanges).

Definition textField : PDFFormField :=
  mkField Text (13, 0) (tr "Name") (exampleSignature "" []).

Definition trustingParameters : Parameters :=
  mkParameters
    (Some (mkStore [mkEntry User (setCertificateData defaultInfo exampleContents)]))
    true false false.

Definition plainParameters : Parameters := mkParameters None true false false.

End SmallOpenSSL.

(* ================================================================== *)
(** * Properties of the verification flags *)
(* ================================================================== *)

Module FlagFacts.

Lemma flagBit_nonneg (f : VerificationFlag) : 0 <= flagBit f.
Proof. destruct f; cbn; lia. Qed.

Lemma flagBit_inj (f g : VerificationFlag) : flagBit f = flagBit g -> f = g.
Proof. destruct f, g; cbn; intros H; try reflexivity; discriminate H. Qed.

Lemma flagValue_pow2 (f : VerificationFlag) : flagValue f = 2 ^ flagBit f.
Proof. unfold flagValue. apply Z.shiftl_1_l. Qed.

Lemma land_pow2 (i k : Z) :
  0 <= k -> Z.land i (2 ^ k) = if Z.testbit i k then 2 ^ k else 0.
Proof.
  intros Hk. apply Z.bits_inj'. intros n Hn.
  rewrite Z.land_spec, Z.pow2_bits_eqb by assumption.
  destruct (Z.eqb_spec k n) as [->|Hne].
  - destruct (Z.testbit i n) eqn:E.
    + now rewrite Z.pow2_bits_eqb, Z.eqb_refl by assumption.
    + now rewrite Z.bits_0.
  - rewrite andb_false_r. destruct (Z.testbit i k).
    + rewrite Z.pow2_bits_eqb by assumption. symmetry. now apply Z.eqb_neq.
    + now rewrite Z.bits_0.
Qed.

Lemma pow2_nonzero (k : Z) : 0 <= k -> 2 ^ k <> 0.
Proof. intros H. pose proof (Z.pow_pos_nonneg 2 k). lia. Qed.

Lemma testFlag_testbit (i : Z) (f : VerificationFlag) :
  QFlags_testFlag i (flagValue f) = Z.testbit i (flagBit f).
Proof.
  unfold QFlags_testFlag. rewrite flagValue_pow2.
  pose proof (flagBit_nonneg f) as Hk. pose proof (pow2_nonzero Hk) as Hnz.
  rewrite land_pow2 by assumption.
  destruct (Z.testbit i (flagBit f)).
  - rewrite Z.eqb_refl. apply Z.eqb_neq in Hnz. now rewrite Hnz.
  - replace (0 =? 2 ^ flagBit f) with false; [reflexivity|].
    symmetry. apply Z.eqb_neq. lia.
Qed.

Lemma testbit_lor_flag (i : Z) (f g : VerificationFlag) :
  Z.testbit (Z.lor i (flagValue f)) (flagBit g)
  = Z.testbit i (flagBit g) || (flagBit g =? flagBit f).
Proof.
  rewrite Z.lor_spec, flagValue_pow2, Z.pow2_bits_eqb by apply flagBit_nonneg.
  now rewrite Z.eqb_sym.
Qed.

Lemma land_mask_zero (i : Z) (l : list VerificationFlag) :
  (Z.land i (maskOf l) =? 0) = negb (existsb (fun f => Z.testbit i (flagBit f)) l).
Proof.
  induction l as [|f l IH]; cbn [maskOf fold_right existsb].
  - now rewrite Z.land_0_r.
  - fold (maskOf l). rewrite Z.land_lor_distr_r, negb_orb, <- IH.
    rewrite flagValue_pow2, land_pow2 by apply flagBit_nonneg.
    pose proof (pow2_nonzero (flagBit_nonneg f)) as Hnz.
    destruct (Z.testbit i (flagBit f)); cbn [negb andb].
    + apply Z.eqb_neq. intros H. apply Z.lor_eq_0_iff in H. tauto.
    + now rewrite Z.lor_0_l.
Qed.

Lemma existsb_pointwise {A : Type} (p q : A -> bool) (l : list A) :
  (forall x, p x = q x) -> existsb p l = existsb q l.
Proof.
  intros H. induction l as [|x l IH]; cbn; [reflexivity|]. now rewrite H, IH.
Qed.

Section ResultFlags.

Implicit Types r : PDFSignatureVerificationResult.

Lemma hasFlag_bit r f : hasFlag r f = Z.testbit (m_flags r) (flagBit f).
Proof. apply testFlag_testbit. Qed.

Lemma hasCertificateError_existsb r :
  hasCertificateError r = existsb (hasFlag r) certificateErrors.
Proof.
  unfold hasCertificateError, Error_Certificates_Mask.
  rewrite land_mask_zero, negb_involutive.
  apply existsb_pointwise. intros f. symmetry. apply hasFlag_bit.
Qed.

Lemma hasSignatureError_existsb r :
  hasSignatureError r = existsb (hasFlag r) signatureErrors.
Proof.
  unfold hasSignatureError, Error_Signatures_Mask.
  rewrite land_mask_zero, negb_involutive.
  apply existsb_pointwise. intros f. symmetry. apply hasFlag_bit.
Qed.

Lemma hasFlag_addError r f message g :
  hasFlag (addError r f message) g = hasFlag r g || (flagBit g =? flagBit f).
Proof.
  rewrite !hasFlag_bit.
  unfold addError, setFlag, withFlags, addSignatureNotCoveredBytesWarning, QFlags_setFlag.
  cbn [m_flags]. apply testbit_lor_flag.
Qed.

Lemma hasFlag_setFlag_true r f g :
  hasFlag (setFlag r f true) g = hasFlag r g || (flagBit g =? flagBit f).
Proof.
  rewrite !hasFlag_bit.
  unfold addError, setFlag, withFlags, addSignatureNotCoveredBytesWarning, QFlags_setFlag.
  cbn [m_flags]. apply testbit_lor_flag.
Qed.

Lemma hasFlag_warning r count g :
  hasFlag (addSignatureNotCoveredBytesWarning r count) g
  = hasFlag r g || (flagBit g =? flagBit Warning_Signature_NotCoveredBytes).
Proof.
  rewrite !hasFlag_bit.
  unfold addError, setFlag, withFlags, addSignatureNotCoveredBytesWarning, QFlags_setFlag.
  cbn [m_flags]. apply testbit_lor_flag.
Qed.

Lemma hasFlag_addCertificateInfo r i g :
  hasFlag (addCertificateInfo r i) g = hasFlag r g.
Proof. reflexivity. Qed.

Lemma hasFlag_emptyResult g : hasFlag emptyResult g = false.
Proof. rewrite hasFlag_bit. apply Z.bits_0. Qed.

Lemma hasFlag_validate r g :
  hasFlag (validate r) g
  = hasFlag r g || ((flagBit g =? flagBit OK) && hasFlag r Certificate_OK && hasFlag r Signature_OK).
Proof.
  unfold validate, isCertificateValid, isSignatureValid.
  destruct (hasFlag r Certificate_OK), (hasFlag r Signature_OK); cbn [andb];
    rewrite ?andb_false_r, ?andb_true_r, ?orb_false_r; try reflexivity.
  rewrite !hasFlag_bit.
  unfold withFlags, QFlags_setFlag. cbn [m_flags]. apply testbit_lor_flag.
Qed.

(** [frame l r r']: from [r] to [r'] only flags of [l] may have changed. *)
Definition frame (l : list VerificationFlag) r r' : Prop :=
  forall g, ~ In g l -> hasFlag r' g = hasFlag r g.

Lemma frame_refl l r : frame l r r.
Proof. intros g _. reflexivity. Qed.

Lemma frame_trans l r1 r2 r3 : frame l r1 r2 -> frame l r2 r3 -> frame l r1 r3.
Proof. intros H12 H23 g Hg. rewrite H23, H12 by assumption. reflexivity. Qed.

Lemma frame_addError l r f message : In f l -> frame l r (addError r f message).
Proof.
  intros Hin g Hg. rewrite hasFlag_addError.
  destruct (Z.eqb_spec (flagBit g) (flagBit f)) as [E|E].
  - apply flagBit_inj in E. subst g. contradiction.
  - apply orb_false_r.
Qed.

Lemma frame_warning l r count :
  In Warning_Signature_NotCoveredBytes l ->
  frame l r (addSignatureNotCoveredBytesWarning r count).
Proof.
  intros Hin g Hg. rewrite hasFlag_warning.
  destruct (Z.eqb_spec (flagBit g) (flagBit Warning_Signature_NotCoveredBytes)) as [E|E].
  - apply flagBit_inj in E. subst g. contradiction.
  - apply orb_false_r.
Qed.

Lemma frame_setFlag l r f : In f l -> frame l r (setFlag r f true).
Proof.
  intros Hin g Hg. rewrite hasFlag_setFlag_true.
  destruct (Z.eqb_spec (flagBit g) (flagBit f)) as [E|E].
  - apply flagBit_inj in E. subst g. contradiction.
  - apply orb_false_r.
Qed.

Lemma frame_addCertificateInfo l r i : frame l r (addCertificateInfo r i).
Proof. intros g _. reflexivity. Qed.

Lemma frame_existsb l l' r r' :
  frame l r r' -> (forall f, In f l' -> ~ In f l) ->
  existsb (hasFlag r') l' = existsb (hasFlag r) l'.
Proof.
  intros Hf Hd. induction l' as [|f l' IH]; [reflexivity|].
  cbn [existsb]. rewrite Hf by (apply Hd; now left).
  rewrite IH; [reflexivity|]. intros f' Hin. apply Hd. now right.
Qed.

End ResultFlags.

End FlagFacts.

(* ================================================================== *)
(** * Properties of the verification engines *)
(* ================================================================== *)

Module EngineFacts.
Import FlagFacts.

Create HintDb frames discriminated.

Lemma frame_weaken (l l' : list VerificationFlag) r r' :
  (forall f, In f l -> In f l') -> frame l r r' -> frame l' r r'.
Proof. intros Hsub Hf g Hg. apply Hf. intros Hin. apply Hg, Hsub, Hin. Qed.

#[local] Hint Resolve frame_refl frame_addCertificateInfo : frames.
#[local] Hint Extern 1 (frame _ _ (addError _ _ _)) =>
  (apply frame_addError; cbn; tauto) : frames.
#[local] Hint Extern 1 (frame _ _ (addSignatureNotCoveredBytesWarning _ _)) =>
  (apply frame_warning; cbn; tauto) : frames.
#[local] Hint Extern 1 (frame _ _ (setFlag _ _ true)) =>
  (apply frame_setFlag; cbn; tauto) : frames.

Ltac break_match :=
  match goal with
  | |- context [match ?x with _ => _ end] => destruct x eqn:?
  end.

Ltac unfold_adders :=
  unfold addNoHandlerError, addInvalidCertificateError, addNoSignaturesError,
    addCertificateMissingError, addCertificateGenericError, addCertificateExpiredError,
    addCertificateSelfSignedError, addCertificateSelfSignedInChainError,
    addCertificateTrustedNotFoundError, addCertificateRevokedError,
    addCertificateOtherError, addInvalidSignatureError,
    addSignatureNoSignaturesFoundError, addSignatureCertificateMissingError,
    addSignatureDigestFailureError, addSignatureDataOtherError,
    addSignatureDataCoveredBySignatureMissingError.

Ltac frames := unfold_adders; repeat break_match; auto with frames.

(** The flags the certificate phase may set before Certificate_OK, and
    the flags the signature phase may set before Signature_OK. *)
Definition certificatePhaseFlags : list VerificationFlag := certificateErrors.
Definition signaturePhaseFlags : list VerificationFlag :=
  Warning_Signature_NotCoveredBytes :: signatureErrors.

Lemma certificate_disjoint f :
  In f (Certificate_OK :: certificateErrors) ->
  ~ In f (Signature_OK :: signaturePhaseFlags) /\ f <> OK.
Proof. cbn. intuition (subst; discriminate). Qed.

Lemma signature_disjoint f :
  In f (Signature_OK :: signaturePhaseFlags) ->
  ~ In f (Certificate_OK :: certificateErrors) /\ f <> OK.
Proof. cbn. intuition (subst; discriminate). Qed.

Lemma hasCertificateError_addError r f message :
  In f certificateErrors -> hasCertificateError (addError r f message) = true.
Proof.
  intros Hin. rewrite hasCertificateError_existsb. apply existsb_exists.
  exists f. split; [assumption|]. rewrite hasFlag_addError, Z.eqb_refl. apply orb_true_r.
Qed.

Lemma hasSignatureError_addError r f message :
  In f signatureErrors -> hasSignatureError (addError r f message) = true.
Proof.
  intros Hin. rewrite hasSignatureError_existsb. apply existsb_exists.
  exists f. split; [assumption|]. rewrite hasFlag_addError, Z.eqb_refl. apply orb_true_r.
Qed.

Lemma setCertificateOK_frame r :
  frame (Certificate_OK :: certificateErrors) r (setCertificateOK r).
Proof. unfold setCertificateOK. frames. Qed.

Lemma setCertificateOK_flag r :
  hasFlag r Certificate_OK = false ->
  hasFlag (setCertificateOK r) Certificate_OK = negb (hasCertificateError (setCertificateOK r)).
Proof.
  intros H0. unfold setCertificateOK. destruct (hasCertificateError r) eqn:E; cbn [negb].
  - now rewrite E, H0.
  - rewrite hasFlag_setFlag_true, Z.eqb_refl, orb_true_r.
    rewrite hasCertificateError_existsb.
    rewrite (@frame_existsb [Certificate_OK] certificateErrors r).
    + now rewrite <- hasCertificateError_existsb, E.
    + auto with frames.
    + cbn. intuition (subst; discriminate).
Qed.

Lemma setSignatureOK_frame r :
  frame (Signature_OK :: signaturePhaseFlags) r (setSignatureOK r).
Proof. unfold setSignatureOK. frames. Qed.

Lemma setSignatureOK_flag r :
  hasFlag r Signature_OK = false ->
  hasFlag (setSignatureOK r) Signature_OK = negb (hasSignatureError (setSignatureOK r)).
Proof.
  intros H0. unfold setSignatureOK. destruct (hasSignatureError r) eqn:E; cbn [negb].
  - now rewrite E, H0.
  - rewrite hasFlag_setFlag_true, Z.eqb_refl, orb_true_r.
    rewrite hasSignatureError_existsb.
    rewrite (@frame_existsb [Signature_OK] signatureErrors r).
    + now rewrite <- hasSignatureError_existsb, E.
    + auto with frames.
    + cbn. intuition (subst; discriminate).
Qed.

Lemma signatureError_flag r f message :
  In f signatureErrors -> hasFlag r Signature_OK = false ->
  hasFlag (addError r f message) Signature_OK
  = negb (hasSignatureError (addError r f message)).
Proof.
  intros Hin H0. rewrite hasSignatureError_addError by assumption.
  rewrite hasFlag_addError, H0. cbn [negb orb]. apply Z.eqb_neq.
  intros E. apply flagBit_inj in E. subst f. cbn in Hin. intuition discriminate.
Qed.

(** The byte-range assembler only touches its error and its warning. *)
Lemma getSignedDataBuffer_frame signature sourceData r outputBuffer :
  frame signaturePhaseFlags r
        (fst (fst (getSignedDataBuffer signature sourceData r outputBuffer))).
Proof.
  unfold getSignedDataBuffer, signaturePhaseFlags.
  repeat break_match; cbn [fst]; frames.
Qed.

Lemma getSignedDataBuffer_none signature sourceData r outputBuffer r' out' :
  getSignedDataBuffer signature sourceData r outputBuffer = (r', out', None) ->
  r' = addSignatureDataCoveredBySignatureMissingError r.
Proof.
  unfold getSignedDataBuffer. repeat break_match; intros H; inversion H; reflexivity.
Qed.

Section WithOpenSSL.
Context {ssl : OpenSSL}.

Lemma addVerificationError_frame r error :
  frame certificatePhaseFlags r (addVerificationError r error).
Proof. unfold addVerificationError, certificatePhaseFlags. frames. Qed.

Lemma addCertificateInfos_frame l r certificates :
  frame l r (addCertificateInfos r certificates).
Proof.
  unfold addCertificateInfos. revert r.
  induction certificates as [|c cs IH]; intros r; cbn [fold_left]; [apply frame_refl|].
  eapply frame_trans; [|apply IH]. apply frame_addCertificateInfo.
Qed.

Lemma verifyChain_frame h context certificates r :
  frame certificatePhaseFlags r (snd (verifyChain h context certificates r)).
Proof.
  unfold verifyChain. repeat break_match; cbn [snd].
  - eapply frame_trans; [apply addVerificationError_frame|apply addCertificateInfos_frame].
  - apply addCertificateInfos_frame.
Qed.

Lemma verifyCertificateSigners_frame h x509store certificates signerInfo :
  forall context r,
    frame certificatePhaseFlags r
          (verifyCertificateSigners h x509store certificates signerInfo context r).
Proof.
  induction signerInfo as [|s rest IH]; intros context r; cbn [verifyCertificateSigners].
  - apply frame_refl.
  - unfold certificatePhaseFlags in *.
    destruct (X509_find_by_issuer_and_serial certificates s); [|frames].
    destruct (X509_STORE_CTX_init context x509store x certificates) as [initialized context1].
    destruct initialized; cbn [negb]; [|frames].
    destruct (X509_STORE_CTX_set_purpose context1 X509_PURPOSE_SMIME_SIGN) as [purposeSet context2].
    destruct purposeSet; cbn [negb]; [|frames].
    pose proof (verifyChain_frame h context2 certificates r) as Hc.
    destruct (verifyChain h context2 certificates r) as [context3 r1]. cbn [snd] in Hc.
    eapply frame_trans; [exact Hc|apply IH].
Qed.

Lemma verifyCertificate_frame h r :
  frame (Certificate_OK :: certificateErrors) r (verifyCertificate h r).
Proof.
  unfold verifyCertificate.
  eapply frame_trans; [|apply setCertificateOK_frame].
  apply (@frame_weaken certificateErrors); [cbn; tauto|].
  repeat break_match; try apply verifyCertificateSigners_frame; frames.
Qed.

Lemma verifyCertificate_flag h r :
  hasFlag r Certificate_OK = false ->
  hasFlag (verifyCertificate h r) Certificate_OK
  = negb (hasCertificateError (verifyCertificate h r)).
Proof.
  intros H0. unfold verifyCertificate. apply setCertificateOK_flag.
  rewrite <- H0.
  assert (Hf : forall r', frame certificateErrors r r' ->
                          hasFlag r' Certificate_OK = hasFlag r Certificate_OK).
  { intros r' Hf. apply Hf. cbn. intuition discriminate. }
  apply Hf.
  repeat break_match; try apply verifyCertificateSigners_frame; frames.
Qed.

Lemma verifyRSACertificate_frame h r :
  frame (Certificate_OK :: certificateErrors) r (verifyRSACertificate h r).
Proof.
  unfold verifyRSACertificate.
  eapply frame_trans; [|apply setCertificateOK_frame].
  apply (@frame_weaken certificateErrors); [cbn; tauto|].
  destruct (createCertificate h 0); [|frames].
  destruct (X509_STORE_CTX_init _ _ _ _) as [initialized context1].
  destruct (X509_STORE_CTX_set_purpose _ _) as [purposeSet context2].
  set (r1 := if negb initialized then addCertificateGenericError r else r).
  set (r2 := if negb purposeSet then addCertificateGenericError r1 else r1).
  assert (H1 : frame certificateErrors r r1) by (subst r1; frames).
  assert (H2 : frame certificateErrors r1 r2) by (subst r2; frames).
  destruct (negb (hasCertificateError r2)).
  - eapply frame_trans; [exact H1|]. eapply frame_trans; [exact H2|].
    apply verifyChain_frame.
  - eapply frame_trans; eassumption.
Qed.

Lemma verifyRSACertificate_flag h r :
  hasFlag r Certificate_OK = false ->
  hasFlag (verifyRSACertificate h r) Certificate_OK
  = negb (hasCertificateError (verifyRSACertificate h r)).
Proof.
  intros H0.
  pose proof (verifyRSACertificate_frame h r) as Hframe.
  unfold verifyRSACertificate in *.
  apply setCertificateOK_flag. rewrite <- H0.
  match goal with |- hasFlag ?b _ = _ => set (body := b) in * end.
  assert (Hb : frame certificateErrors r body).
  { subst body.
    destruct (createCertificate h 0); [|frames].
    destruct (X509_STORE_CTX_init _ _ _ _) as [initialized context1].
    destruct (X509_STORE_CTX_set_purpose _ _) as [purposeSet context2].
    set (r1 := if negb initialized then addCertificateGenericError r else r).
    set (r2 := if negb purposeSet then addCertificateGenericError r1 else r1).
    assert (H1 : frame certificateErrors r r1) by (subst r1; frames).
    assert (H2 : frame certificateErrors r1 r2) by (subst r2; frames).
    destruct (negb (hasCertificateError r2)).
    - eapply frame_trans; [exact H1|]. eapply frame_trans; [exact H2|].
      apply verifyChain_frame.
    - eapply frame_trans; eassumption. }
  apply Hb. cbn. intuition discriminate.
Qed.

Lemma getSignedDataBufferOf_frame h r outputBuffer :
  frame signaturePhaseFlags r (fst (fst (getSignedDataBufferOf h r outputBuffer))).
Proof.
  unfold getSignedDataBufferOf, getSignedDataBuffer_sha1.
  destruct (handlerClass h); try apply getSignedDataBuffer_frame.
  pose proof (getSignedDataBuffer_frame (getSignature (m_signatureField h))
                (m_sourceData h) r []) as Hf.
  destruct (getSignedDataBuffer _ _ r []) as [[r1 temporaryBuffer] [bio|]]; exact Hf.
Qed.

Lemma getSignedDataBufferOf_none h r outputBuffer r' out' :
  getSignedDataBufferOf h r outputBuffer = (r', out', None) ->
  r' = addSignatureDataCoveredBySignatureMissingError r.
Proof.
  unfold getSignedDataBufferOf, getSignedDataBuffer_sha1.
  destruct (handlerClass h); try apply getSignedDataBuffer_none.
  destruct (getSignedDataBuffer _ _ r []) as [[r1 temporaryBuffer] [bio|]] eqn:E;
    intros H; inversion H; subst.
  eapply getSignedDataBuffer_none; eassumption.
Qed.

Lemma verifySignatureSigners_frame pkcs7 dataBio certificates signerInfo :
  forall r,
    frame signaturePhaseFlags r
          (verifySignatureSigners pkcs7 dataBio certificates signerInfo r).
Proof.
  induction signerInfo as [|s rest IH]; intros r; cbn [verifySignatureSigners].
  - apply frame_refl.
  - unfold signaturePhaseFlags in *.
    destruct (X509_find_by_issuer_and_serial certificates s); [|frames].
    destruct (PKCS7_signatureVerify dataBio pkcs7 s x) as [verification reason].
    eapply frame_trans; [|apply IH]. frames.
Qed.

(** What a signature phase guarantees about the flags. *)
Definition signaturePhasePost (r r' : PDFSignatureVerificationResult) : Prop :=
  frame (Signature_OK :: signaturePhaseFlags) r r'
  /\ (hasFlag r Signature_OK = false ->
      hasFlag r' Signature_OK = negb (hasSignatureError r')).

Lemma signaturePhase_setOK r body :
  frame signaturePhaseFlags r body -> signaturePhasePost r (setSignatureOK body).
Proof.
  intros Hb. split.
  - eapply frame_trans; [|apply setSignatureOK_frame].
    apply (@frame_weaken signaturePhaseFlags); [cbn; tauto|exact Hb].
  - intros H0. apply setSignatureOK_flag. rewrite <- H0. apply Hb.
    cbn. intuition discriminate.
Qed.

Lemma signaturePhase_error r body f message :
  frame signaturePhaseFlags r body -> In f signatureErrors ->
  signaturePhasePost r (addError body f message).
Proof.
  intros Hb Hin. split.
  - apply (@frame_weaken signaturePhaseFlags); [cbn; tauto|].
    eapply frame_trans; [exact Hb|]. apply frame_addError. cbn. cbn in Hin. tauto.
  - intros H0. apply signatureError_flag; [assumption|]. rewrite <- H0. apply Hb.
    cbn. intuition discriminate.
Qed.

Lemma verifySignature_post h r : signaturePhasePost r (verifySignature h r).
Proof.
  unfold verifySignature. apply signaturePhase_setOK.
  destruct (d2i_PKCS7 _) as [pkcs7|]; [|unfold signaturePhaseFlags; frames].
  pose proof (getSignedDataBufferOf_frame h r []) as Hf.
  destruct (getSignedDataBufferOf h r []) as [[r1 buffer] [inputBuffer|]]; cbn [fst] in Hf;
    [|exact Hf].
  eapply frame_trans; [exact Hf|].
  unfold signaturePhaseFlags.
  repeat break_match; try apply verifySignatureSigners_frame; frames.
Qed.

Lemma verifyRSASignature_post h r : signaturePhasePost r (verifyRSASignature h r).
Proof.
  unfold verifyRSASignature.
  destruct (createCertificate h 0) as [certificate|];
    [|apply signaturePhase_error; [apply frame_refl|cbn; tauto]].
  destruct (X509_get0_pubkey certificate) as [evpKey|];
    [|apply signaturePhase_error; [apply frame_refl|cbn; tauto]].
  destruct (EVP_PKEY_get0_RSA evpKey) as [rsa|];
    [|apply signaturePhase_error; [apply frame_refl|cbn; tauto]].
  pose proof (getSignedDataBufferOf_frame h r []) as Hf.
  destruct (getSignedDataBufferOf h r []) as [[r1 outputBuffer] [bio|]]; cbn [fst] in Hf;
    [|apply signaturePhase_setOK; exact Hf].
  destruct (d2i_ASN1_OCTET_STRING _) as [encryptedString|].
  - destruct (getMessageDigest outputBuffer encryptedString rsa []) as [[found nid] digest].
    destruct found.
    + destruct (RSA_verify nid digest encryptedString rsa) as [verifyValue errorCode].
      apply signaturePhase_setOK. eapply frame_trans; [exact Hf|].
      unfold signaturePhaseFlags. frames.
    + apply signaturePhase_error; [exact Hf|cbn; tauto].
  - apply signaturePhase_setOK. eapply frame_trans; [exact Hf|].
    unfold signaturePhaseFlags. frames.
Qed.

(** The two phases and validate, on the flags of a fresh result. *)
Lemma phases_validate (r0 r1 r2 : PDFSignatureVerificationResult) :
  (forall g, hasFlag r0 g = false) ->
  frame (Certificate_OK :: certificateErrors) r0 r1 ->
  hasFlag r1 Certificate_OK = negb (hasCertificateError r1) ->
  signaturePhasePost r1 r2 ->
  let r := validate r2 in
  isValid r = true <->
  (isCertificateValid r = true /\ isSignatureValid r = true
   /\ forall f, In f (certificateErrors ++ signatureErrors) -> hasFlag r f = false).
Proof.
  intros H0 Hc Hcflag [Hs Hsflag] r.
  assert (Hsig1 : hasFlag r1 Signature_OK = false).
  { rewrite Hc by (cbn; intuition discriminate). apply H0. }
  assert (Hok2 : hasFlag r2 OK = false).
  { rewrite Hs, Hc by (cbn; intuition discriminate). apply H0. }
  specialize (Hsflag Hsig1).
  assert (Hcflag2 : hasFlag r2 Certificate_OK = negb (hasCertificateError r2)).
  { rewrite Hs by (cbn; intuition discriminate). rewrite Hcflag. f_equal.
    rewrite !hasCertificateError_existsb. symmetry.
    eapply frame_existsb; [exact Hs|].
    intros f Hin. apply certificate_disjoint. now right. }
  assert (Hv : forall g, g <> OK -> hasFlag r g = hasFlag r2 g).
  { intros g Hg. subst r. rewrite hasFlag_validate.
    destruct (Z.eqb_spec (flagBit g) (flagBit OK)) as [E|E].
    - apply flagBit_inj in E. contradiction.
    - cbn [andb]. apply orb_false_r. }
  assert (Hvok : hasFlag r OK = hasFlag r2 Certificate_OK && hasFlag r2 Signature_OK).
  { subst r. rewrite hasFlag_validate, Hok2, Z.eqb_refl. reflexivity. }
  unfold isValid, isCertificateValid, isSignatureValid.
  rewrite Hvok, !Hv by discriminate.
  split.
  - intros H. apply andb_prop in H. destruct H as [Hcert Hsign].
    split; [assumption|]. split; [assumption|].
    intros f Hin. rewrite Hv by (intros ->; cbn in Hin; intuition discriminate).
    rewrite Hcflag2 in Hcert. rewrite Hsflag in Hsign.
    apply negb_true_iff in Hcert, Hsign.
    rewrite hasCertificateError_existsb in Hcert.
    rewrite hasSignatureError_existsb in Hsign.
    apply in_app_or in Hin. destruct Hin as [Hin|Hin].
    + destruct (hasFlag r2 f) eqn:E; [|reflexivity].
      assert (existsb (hasFlag r2) certificateErrors = true)
        by (apply existsb_exists; eauto).
      congruence.
    + destruct (hasFlag r2 f) eqn:E; [|reflexivity].
      assert (existsb (hasFlag r2) signatureErrors = true)
        by (apply existsb_exists; eauto).
      congruence.
  - intros (Hcert & Hsign & _). now rewrite Hcert, Hsign.
Qed.

Lemma initializeResult_flags h g : hasFlag (initializeResult h emptyResult) g = false.
Proof. apply hasFlag_emptyResult. Qed.

(** C1. For every result [r] that a verification engine produces (the
    virtual [verify] of any of the three handler classes, whatever OpenSSL
    answers), the flag OK is set if and only if Certificate_OK and
    Signature_OK are both set and no error flag of the certificate group
    or of the signature group is set.  A warning appended to any result
    changes neither its OK flag nor the OK flag that validate gives it. *)
Theorem C1_ok_flag_invariant :
  (forall (h : PDFSignatureHandler),
     let r := verify h in
     isValid r = true <->
     (isCertificateValid r = true /\ isSignatureValid r = true
      /\ forall f, In f (certificateErrors ++ signatureErrors) -> hasFlag r f = false))
  /\ (forall (r : PDFSignatureVerificationResult) (count : Z),
        isValid (addSignatureNotCoveredBytesWarning r count) = isValid r
        /\ isValid (validate (addSignatureNotCoveredBytesWarning r count))
           = isValid (validate r)).
Proof.
  split.
  - intros h. unfold verify.
    destruct (handlerClass h).
    + apply (@phases_validate (initializeResult h emptyResult)
               (verifyCertificate h (initializeResult h emptyResult))).
      * apply initializeResult_flags.
      * apply verifyCertificate_frame.
      * apply verifyCertificate_flag, initializeResult_flags.
      * apply verifySignature_post.
    + apply (@phases_validate (initializeResult h emptyResult)
               (verifyCertificate h (initializeResult h emptyResult))).
      * apply initializeResult_flags.
      * apply verifyCertificate_frame.
      * apply verifyCertificate_flag, initializeResult_flags.
      * apply verifySignature_post.
    + apply (@phases_validate (initializeResult h emptyResult)
               (verifyRSACertificate h (initializeResult h emptyResult))).
      * apply initializeResult_flags.
      * apply verifyRSACertificate_frame.
      * apply verifyRSACertificate_flag, initializeResult_flags.
      * apply verifyRSASignature_post.
  - intros r count. unfold isValid.
    assert (Hw : forall g, g <> Warning_Signature_NotCoveredBytes ->
                 hasFlag (addSignatureNotCoveredBytesWarning r count) g = hasFlag r g).
    { intros g Hg. rewrite hasFlag_warning.
      destruct (Z.eqb_spec (flagBit g) (flagBit Warning_Signature_NotCoveredBytes)) as [E|E].
      - apply flagBit_inj in E. contradiction.
      - apply orb_false_r. }
    split.
    + apply Hw. discriminate.
    + rewrite !hasFlag_validate, !Hw by discriminate. reflexivity.
Qed.

End WithOpenSSL.

End EngineFacts.

(* ================================================================== *)
(** * Properties of the trusted certificate store *)
(* ================================================================== *)

Module StoreFacts.
Import CertificateStore.

Lemma list_eqb_eq {A : Type} (eqb : A -> A -> bool) :
  (forall x y, eqb x y = true <-> x = y) ->
  forall l1 l2, list_eqb eqb l1 l2 = true <-> l1 = l2.
Proof.
  intros Heqb. induction l1 as [|x l1 IH]; intros [|y l2]; cbn; split; intros H;
    try reflexivity; try discriminate.
  - apply andb_prop in H. destruct H as [Hx Hl].
    apply Heqb in Hx. apply IH in Hl. now subst.
  - inversion H; subst. apply andb_true_intro. split; [now apply Heqb|now apply IH].
Qed.

Lemma byte_eqb_eq (a b : byte) : byte_eqb a b = true <-> a = b.
Proof. unfold byte_eqb. split; [apply Byte.byte_dec_bl|apply Byte.byte_dec_lb]. Qed.

Lemma QDateTime_eqb_eq (a b : QDateTime) : QDateTime_eqb a b = true <-> a = b.
Proof.
  unfold QDateTime_eqb. destruct a as [j1 m1 s1], b as [j2 m2 s2]. cbn.
  rewrite !andb_true_iff, !Z.eqb_eq. split.
  - intros [[-> ->] ->]. reflexivity.
  - intros H. inversion H. auto.
Qed.

(** [operator==] compares the name entries, the validity window and the
    certificate bytes. *)
Lemma info_eqb_spec (a b : PDFCertificateInfo) :
  info_eqb a b = true <->
  (m_nameEntries a = m_nameEntries b /\ m_notValidBefore a = m_notValidBefore b
   /\ m_notValidAfter a = m_notValidAfter b /\ m_certificateData a = m_certificateData b).
Proof.
  unfold info_eqb. rewrite !andb_true_iff, !QDateTime_eqb_eq.
  unfold QByteArray_eqb, QString_eqb.
  rewrite (list_eqb_eq byte_eqb byte_eqb_eq).
  rewrite (list_eqb_eq (list_eqb Z.eqb) (list_eqb_eq Z.eqb Z.eqb_eq)).
  tauto.
Qed.

Lemma info_eqb_refl (a : PDFCertificateInfo) : info_eqb a a = true.
Proof. apply info_eqb_spec. auto. Qed.

Lemma info_eqb_sym (a b : PDFCertificateInfo) : info_eqb a b = info_eqb b a.
Proof.
  destruct (info_eqb a b) eqn:E1, (info_eqb b a) eqn:E2; try reflexivity.
  - apply info_eqb_spec in E1. assert (info_eqb b a = true) by (apply info_eqb_spec; intuition).
    congruence.
  - apply info_eqb_spec in E2. assert (info_eqb a b = true) by (apply info_eqb_spec; intuition).
    congruence.
Qed.

Lemma info_eqb_trans (a b c : PDFCertificateInfo) :
  info_eqb a b = true -> info_eqb b c = true -> info_eqb a c = true.
Proof.
  rewrite !info_eqb_spec. intros (-> & -> & -> & ->) (-> & -> & -> & ->). auto.
Qed.

Lemma find_none_iff (s : PDFCertificateStore) (i : PDFCertificateInfo) :
  find (sameInfo i) (m_certificates s) = None <->
  (forall e, In e (m_certificates s) -> info_eqb (info e) i = false).
Proof.
  split.
  - intros H e Hin. exact (find_none _ _ H e Hin).
  - intros H. destruct (find (sameInfo i) (m_certificates s)) as [e|] eqn:E; [|reflexivity].
    apply find_some in E. destruct E as [Hin He]. unfold sameInfo in He.
    rewrite (H e Hin) in He. discriminate.
Qed.

Lemma countInfo_app (l : list CertificateEntry) (e : CertificateEntry) (i : PDFCertificateInfo) :
  countInfo (mkStore (l ++ [e])) i
  = (countInfo (mkStore l) i + if sameInfo i e then 1 else 0)%nat.
Proof.
  unfold countInfo. cbn [m_certificates]. rewrite filter_app, length_app. cbn [filter].
  destruct (sameInfo i e); reflexivity.
Qed.

Lemma countInfo_zero (s : PDFCertificateStore) (i : PDFCertificateInfo) :
  find (sameInfo i) (m_certificates s) = None -> countInfo s i = 0%nat.
Proof.
  unfold countInfo. intros H. induction (m_certificates s) as [|e l IH]; [reflexivity|].
  cbn [find filter] in *. destruct (sameInfo i e); [discriminate|]. apply IH, H.
Qed.

Lemma countInfo_pos (s : PDFCertificateStore) (i : PDFCertificateInfo) (e : CertificateEntry) :
  find (sameInfo i) (m_certificates s) = Some e -> (1 <= countInfo s i)%nat.
Proof.
  unfold countInfo. induction (m_certificates s) as [|e' l IH]; [discriminate|].
  cbn [find filter]. destruct (sameInfo i e'); cbn [List.length]; [lia|]. exact IH.
Qed.

(** The store's invariant: no two entries have equal descriptions. *)
Definition deduplicated (s : PDFCertificateStore) : Prop :=
  forall j, (countInfo s j <= 1)%nat.

Lemma deduplicated_empty : deduplicated emptyStore.
Proof. intros j. cbn. lia. Qed.

Lemma add_cases (s : PDFCertificateStore) (t : EntryType) (i : PDFCertificateInfo) :
  (find (sameInfo i) (m_certificates s) = None
   /\ add s t i = (true, mkStore (m_certificates s ++ [mkEntry t i])))
  \/ (exists e, find (sameInfo i) (m_certificates s) = Some e /\ add s t i = (true, s)).
Proof.
  unfold add. destruct (find (sameInfo i) (m_certificates s)) as [e|]; [right|left]; eauto.
Qed.

(** [add] keeps the store deduplicated, so every store built from the
    empty store by insertions is. *)
Lemma add_deduplicated (s : PDFCertificateStore) (t : EntryType) (i : PDFCertificateInfo) :
  deduplicated s -> deduplicated (snd (add s t i)).
Proof.
  intros Hd j. destruct (add_cases s t i) as [[Hnone ->]|[e [_ ->]]]; cbn [snd]; [|apply Hd].
  rewrite countInfo_app. unfold sameInfo. cbn [info].
  assert (Hs : mkStore (m_certificates s) = s) by (destruct s; reflexivity).
  rewrite Hs.
  destruct (info_eqb i j) eqn:Eij; [|specialize (Hd j); lia].
  assert (Hz : countInfo s j = 0%nat).
  { apply countInfo_zero. apply find_none_iff. intros e Hin.
    destruct (info_eqb (info e) j) eqn:E; [|reflexivity].
    assert (info_eqb (info e) i = true).
    { eapply info_eqb_trans; [exact E|]. now rewrite info_eqb_sym. }
    pose proof (proj1 (find_none_iff s i) Hnone e Hin). congruence. }
  lia.
Qed.

(** The stores that insertions build from the empty store. *)
Inductive builtByAdd : PDFCertificateStore -> Prop :=
| built_empty : builtByAdd emptyStore
| built_add (s : PDFCertificateStore) (t : EntryType) (i : PDFCertificateInfo) :
    builtByAdd s -> builtByAdd (snd (add s t i)).

Lemma builtByAdd_deduplicated (s : PDFCertificateStore) : builtByAdd s -> deduplicated s.
Proof.
  induction 1 as [|s t i Hs IH]; [apply deduplicated_empty|now apply add_deduplicated].
Qed.

(** The claim on the return value fails: inserting a description that the
    store already holds returns true although nothing is appended. *)
Lemma C2_return_value_counterexample :
  let s := mkStore [mkEntry User defaultInfo] in
  ~ (fst (add s User defaultInfo) = true <->
     m_certificates (snd (add s User defaultInfo))
     = m_certificates s ++ [mkEntry User defaultInfo]).
Proof.
  cbn. intros [H _]. specialize (H eq_refl). discriminate H.
Qed.

(** C2 (amended). [add] on a certificate description appends the new
    entry at the end exactly when no existing entry has an equal
    description and otherwise leaves the store as it is; it returns true in
    both cases. *)
Theorem C2_add_appends_iff_absent :
  forall (s : PDFCertificateStore) (t : EntryType) (i : PDFCertificateInfo),
    (m_certificates (snd (add s t i)) = m_certificates s ++ [mkEntry t i]
     <-> (forall e, In e (m_certificates s) -> info_eqb (info e) i = false))
    /\ ((exists e, In e (m_certificates s) /\ info_eqb (info e) i = true)
        -> snd (add s t i) = s)
    /\ fst (add s t i) = true.
Proof.
  intros s t i. destruct (add_cases s t i) as [[Hnone ->]|[e [Hsome ->]]]; cbn [fst snd].
  - split; [|split; [|reflexivity]].
    + split; [intros _; now apply find_none_iff|reflexivity].
    + intros (e & Hin & He). pose proof (proj1 (find_none_iff s i) Hnone e Hin). congruence.
  - split; [|split; [reflexivity|reflexivity]].
    split.
    + intros H. exfalso. apply (f_equal (@List.length _)) in H.
      rewrite length_app in H. cbn in H. lia.
    + intros H. apply find_some in Hsome. destruct Hsome as [Hin He].
      unfold sameInfo in He. rewrite (H e Hin) in He. discriminate.
Qed.

(** C8. Insertion is idempotent: on a deduplicated store (every store
    built from the empty one by insertions), inserting the same
    description twice in succession gives the store that one insertion
    gives, and that store has exactly one entry whose description equals
    the inserted one. *)
Theorem C8_add_twice_one_entry :
  forall (s : PDFCertificateStore) (t : EntryType) (i : PDFCertificateInfo),
    deduplicated s ->
    let s1 := snd (add s t i) in
    let s2 := snd (add s1 t i) in
    s2 = s1 /\ countInfo s2 i = 1%nat.
Proof.
  intros s t i Hd s1 s2.
  assert (Hfound : exists e, find (sameInfo i) (m_certificates s1) = Some e).
  { subst s1. destruct (add_cases s t i) as [[Hnone ->]|[e [Hsome ->]]]; cbn [snd]; eauto.
    destruct (find (sameInfo i) (m_certificates (mkStore (m_certificates s ++ [mkEntry t i]))))
      as [e|] eqn:E; eauto.
    exfalso. pose proof (proj1 (find_none_iff _ i) E (mkEntry t i)) as H.
    cbn [m_certificates info] in H. rewrite info_eqb_refl in H.
    assert (false = true); [|discriminate]. symmetry. apply H. apply in_or_app. right. now left. }
  destruct Hfound as [e He].
  assert (H21 : s2 = s1).
  { subst s2. unfold add. now rewrite He. }
  split; [exact H21|]. rewrite H21.
  pose proof (countInfo_pos s1 i He) as Hpos.
  pose proof (add_deduplicated t i Hd i) as Hle. fold s1 in Hle. lia.
Qed.

Lemma C8_add_twice_one_entry_witness :
  let s1 := snd (add emptyStore User defaultInfo) in
  let s2 := snd (add s1 User defaultInfo) in
  s2 = s1 /\ countInfo s2 defaultInfo = 1%nat.
Proof. exact (@C8_add_twice_one_entry emptyStore User defaultInfo deduplicated_empty). Defined.

Section WithOpenSSL.
Context {ssl : OpenSSL}.

(** C10. When the bytes do not parse as a DER-encoded X.509 certificate
    (d2i_X509 returns a null pointer), [add] on certificate bytes returns
    false and the store is unchanged. *)
Theorem C10_add_unparsable_certificate :
  forall (s : PDFCertificateStore) (t : EntryType) (certificate : QByteArray),
    d2i_X509 certificate = None ->
    addCertificate s t certificate = (false, s).
Proof.
  intros s t certificate H. unfold addCertificate, getCertificateInfoFromData.
  now rewrite H.
Qed.

End WithOpenSSL.

End StoreFacts.

(* ================================================================== *)
(** * Properties of closed interval sets *)
(* ================================================================== *)

Module IntervalFacts.

(** A merged set within [lo, hi]: increasing non-empty intervals with a
    gap of at least one integer between neighbours. *)
Fixpoint normIn (lo hi : Z) (s : PDFClosedIntervalSet) : Prop :=
  match s with
  | [] => True
  | i :: rest => lo <= fst i /\ fst i <= snd i /\ snd i <= hi /\ normIn (snd i + 2) hi rest
  end.

Definition sumLengths (s : PDFClosedIntervalSet) : Z :=
  fold_right (fun i total => (snd i - fst i + 1) + total) 0 s.

Lemma normIn_weaken (lo lo' hi : Z) (s : PDFClosedIntervalSet) :
  lo' <= lo -> normIn lo hi s -> normIn lo' hi s.
Proof. destruct s as [|[a b] rest]; cbn; intuition lia. Qed.

Lemma member_nil (x : Z) : ~ member x [].
Proof. intros [i [[] _]]. Qed.

Lemma member_cons (x : Z) (i : ClosedInterval) (s : PDFClosedIntervalSet) :
  member x (i :: s) <-> (fst i <= x <= snd i \/ member x s).
Proof.
  unfold member. split.
  - intros [j [[->|Hin] Hx]]; [now left|right; eauto].
  - intros [Hx|[j [Hin Hx]]]; [exists i|exists j]; cbn; auto.
Qed.

Lemma normIn_member (s : PDFClosedIntervalSet) :
  forall lo hi x, normIn lo hi s -> member x s -> lo <= x <= hi.
Proof.
  induction s as [|[a b] rest IH]; intros lo hi x Hn Hm.
  - now apply member_nil in Hm.
  - cbn in Hn. destruct Hn as (H1 & H2 & H3 & Hrest).
    apply member_cons in Hm. cbn in Hm. destruct Hm as [Hx|Hm]; [lia|].
    specialize (IH _ _ _ Hrest Hm). lia.
Qed.

Lemma mergeInterval_normIn (s : PDFClosedIntervalSet) :
  forall lo hi low high,
    normIn lo hi s -> lo <= low -> low <= high -> high <= hi ->
    normIn lo hi (mergeInterval low high s).
Proof.
  induction s as [|[a b] rest IH]; intros lo hi low high Hn H1 H2 H3; cbn [mergeInterval].
  - cbn. lia.
  - cbn in Hn. destruct Hn as (Ha & Hab & Hb & Hrest).
    destruct (Z.ltb_spec (high + 1) a).
    + cbn. intuition lia.
    + destruct (Z.ltb_spec (b + 1) low).
      * cbn. repeat split; try lia. apply IH; try lia. exact Hrest.
      * apply IH; try lia. apply (@normIn_weaken (b + 2)); [lia|exact Hrest].
Qed.

Lemma member_mergeInterval (x : Z) (s : PDFClosedIntervalSet) :
  forall lo hi low high,
    normIn lo hi s -> low <= high ->
    (member x (mergeInterval low high s) <-> (low <= x <= high \/ member x s)).
Proof.
  induction s as [|[a b] rest IH]; intros lo hi low high Hn Hlh; cbn [mergeInterval].
  - rewrite member_cons. cbn [fst snd]. tauto.
  - cbn in Hn. destruct Hn as (Ha & Hab & Hb & Hrest).
    destruct (Z.ltb_spec (high + 1) a).
    + rewrite !member_cons. cbn [fst snd]. tauto.
    + destruct (Z.ltb_spec (b + 1) low).
      * rewrite !member_cons, (IH _ _ _ _ Hrest Hlh). cbn [fst snd]. tauto.
      * rewrite (IH _ _ (Z.min low a) (Z.max high b) Hrest) by lia.
        rewrite !member_cons. cbn [fst snd]. intuition lia.
Qed.

Lemma addInterval_normIn (s : PDFClosedIntervalSet) (lo hi low high : Z) :
  normIn lo hi s -> lo <= low -> high <= hi -> normIn lo hi (addInterval s low high).
Proof.
  intros Hn H1 H2. unfold addInterval. destruct (Z.ltb_spec high low); [exact Hn|].
  now apply mergeInterval_normIn.
Qed.

Lemma member_addInterval (x : Z) (s : PDFClosedIntervalSet) (lo hi low high : Z) :
  normIn lo hi s ->
  (member x (addInterval s low high) <-> (low <= x <= high \/ member x s)).
Proof.
  intros Hn. unfold addInterval. destruct (Z.ltb_spec high low).
  - intuition lia.
  - now apply (@member_mergeInterval x s lo hi).
Qed.

(** [isCovered] decides whether every integer of [low, high] is in the
    set. *)
Lemma isCovered_iff (s : PDFClosedIntervalSet) :
  forall lo hi low high,
    normIn lo hi s ->
    (isCovered s low high = true <-> (forall x, low <= x <= high -> member x s)).
Proof.
  unfold isCovered.
  induction s as [|[a b] rest IH]; intros lo hi low high Hn.
  - cbn [existsb]. rewrite orb_false_r. split.
    + intros H x Hx. apply Z.ltb_lt in H. lia.
    + intros H. apply Z.ltb_lt. destruct (Z.lt_ge_cases high low) as [|Hle]; [assumption|].
      exfalso. apply (@member_nil low). apply H. lia.
  - cbn in Hn. destruct Hn as (Ha & Hab & Hb & Hrest).
    specialize (IH _ _ low high Hrest). cbn [existsb fst snd].
    split.
    + intros H x Hx. apply member_cons. cbn [fst snd].
      destruct (Z.ltb_spec high low); [lia|].
      cbn [orb] in H. apply orb_prop in H. destruct H as [H|H].
      * apply andb_prop in H. destruct H as [H1 H2].
        apply Z.leb_le in H1, H2. left. lia.
      * right. apply IH; [|exact Hx]. now rewrite H, orb_true_r.
    + intros H. destruct (Z.ltb_spec high low) as [|Hle]; [reflexivity|]. cbn [orb].
      assert (Hl : member low ((a, b) :: rest)) by (apply H; lia).
      apply member_cons in Hl. cbn [fst snd] in Hl. destruct Hl as [Hl|Hl].
      * destruct (Z.le_gt_cases high b) as [Hhb|Hhb].
        { apply orb_true_intro. left. apply andb_true_intro.
          split; apply Z.leb_le; lia. }
        exfalso. assert (Hm : member (b + 1) ((a, b) :: rest)) by (apply H; lia).
        apply member_cons in Hm. cbn [fst snd] in Hm. destruct Hm as [Hm|Hm]; [lia|].
        pose proof (@normIn_member _ _ _ _ Hrest Hm). lia.
      * pose proof (@normIn_member _ _ _ _ Hrest Hl) as Hlow.
        apply orb_true_intro. right. cbn [orb] in IH.
        apply IH. intros x Hx. assert (Hm : member x ((a, b) :: rest)) by (apply H; lia).
        apply member_cons in Hm. cbn [fst snd] in Hm. destruct Hm as [Hm|Hm]; [lia|exact Hm].
Qed.

Lemma fold_left_lengths (s : PDFClosedIntervalSet) :
  forall acc, fold_left (fun count i => count + (snd i - fst i + 1)) s acc = acc + sumLengths s.
Proof.
  induction s as [|i rest IH]; intros acc; cbn [fold_left sumLengths fold_right]; [lia|].
  rewrite IH. fold (sumLengths rest). lia.
Qed.

Lemma getTotalLength_sum (s : PDFClosedIntervalSet) : getTotalLength s = sumLengths s.
Proof. unfold getTotalLength. now rewrite fold_left_lengths. Qed.

(** A merged set within [lo, hi] covers at most hi - lo + 1 integers. *)
Lemma sumLengths_bound (s : PDFClosedIntervalSet) :
  forall lo hi, normIn lo hi s -> 0 <= sumLengths s <= Z.max 0 (hi - lo + 1).
Proof.
  induction s as [|[a b] rest IH]; intros lo hi Hn; cbn [sumLengths fold_right].
  - lia.
  - cbn in Hn. destruct Hn as (Ha & Hab & Hb & Hrest). fold (sumLengths rest).
    specialize (IH _ _ Hrest). cbn [fst snd]. lia.
Qed.

End IntervalFacts.

(* ================================================================== *)
(** * Properties of the byte-range assembler *)
(* ================================================================== *)

Module AssemblerFacts.
Import IntervalFacts.

Ltac wrap_lia :=
  unfold wrap32, wrap64, wrap, is_int32, is_int64, INT_MAX in *;
  change (2 ^ (32 - 1)) with 2147483648 in *;
  change (2 ^ 31) with 2147483648 in *;
  change (2 ^ 32) with 4294967296 in *;
  change (2 ^ (64 - 1)) with 9223372036854775808 in *;
  change (2 ^ 63) with 9223372036854775808 in *;
  change (2 ^ 64) with 18446744073709551616 in *;
  Z.div_mod_to_equations; lia.

Lemma size_nonneg (a : QByteArray) : 0 <= QByteArray_size a.
Proof. unfold QByteArray_size. lia. Qed.

Lemma outOfBounds_false_iff (sourceData : QByteArray) (s e : Z) :
  outOfBounds sourceData s e = false <->
  (s <= e /\ 0 <= s /\ 0 <= e /\ s < QByteArray_size sourceData /\ e <= QByteArray_size sourceData).
Proof.
  unfold outOfBounds. rewrite !orb_false_iff, !Z.gtb_ltb, Z.geb_leb, !Z.ltb_ge, Z.leb_gt.
  lia.
Qed.

(** The check of one range, on machine integers. *)
Lemma range_skipped (r : ByteRange) :
  wfByteRange r -> SignatureDictionary.size r = 0 ->
  (offset r =? wrap64 (offset r + SignatureDictionary.size r)) = true.
Proof. intros [Ho Hs] Hz. apply Z.eqb_eq. rewrite Hz. wrap_lia. Qed.

Lemma range_accepted (sourceData : QByteArray) (r : ByteRange) :
  QByteArray_size sourceData <= INT_MAX ->
  passesRangeCheck sourceData r -> SignatureDictionary.size r <> 0 ->
  wrap64 (offset r + SignatureDictionary.size r) = offset r + SignatureDictionary.size r
  /\ (offset r =? offset r + SignatureDictionary.size r) = false
  /\ outOfBounds sourceData (offset r) (offset r + SignatureDictionary.size r) = false
  /\ wrap32 (wrap64 (offset r + SignatureDictionary.size r - offset r)) = SignatureDictionary.size r
  /\ wrap64 (offset r + SignatureDictionary.size r - 1) = offset r + SignatureDictionary.size r - 1.
Proof.
  intros HF [Hz|(H1 & H2 & H3)] Hnz; [contradiction|].
  repeat split.
  - wrap_lia.
  - apply Z.eqb_neq. lia.
  - apply outOfBounds_false_iff. lia.
  - replace (offset r + SignatureDictionary.size r - offset r) with (SignatureDictionary.size r) by lia.
    wrap_lia.
  - wrap_lia.
Qed.

Lemma range_rejected (sourceData : QByteArray) (r : ByteRange) :
  wfByteRange r -> ~ passesRangeCheck sourceData r ->
  (offset r =? wrap64 (offset r + SignatureDictionary.size r)) = false
  /\ outOfBounds sourceData (offset r) (wrap64 (offset r + SignatureDictionary.size r)) = true.
Proof.
  intros [Ho Hs] Hn. pose proof (size_nonneg sourceData) as HF.
  unfold passesRangeCheck in Hn.
  split.
  - apply Z.eqb_neq. wrap_lia.
  - destruct (outOfBounds sourceData (offset r) (wrap64 (offset r + SignatureDictionary.size r))) eqn:E;
      [reflexivity|].
    exfalso. apply outOfBounds_false_iff in E. wrap_lia.
Qed.

Lemma bytesAt_length (a : QByteArray) (start length : Z) :
  0 <= start -> 0 <= length -> start + length <= QByteArray_size a ->
  Z.of_nat (List.length (bytesAt a start length)) = length.
Proof.
  unfold bytesAt, QByteArray_size. intros H1 H2 H3.
  rewrite length_firstn, length_skipn. lia.
Qed.

Lemma rangeSlices_cons (sourceData : QByteArray) (r : ByteRange) (rs : list ByteRange) :
  rangeSlices sourceData (r :: rs)
  = (if SignatureDictionary.size r =? 0 then []
     else bytesAt sourceData (offset r) (SignatureDictionary.size r))
    ++ rangeSlices sourceData rs.
Proof.
  unfold rangeSlices. cbn [filter]. destruct (SignatureDictionary.size r =? 0); reflexivity.
Qed.

(** When every range passes its check the second loop appends the slices
    in array order and covers the intervals of the ranges. *)
Lemma appendRanges_accepts (sourceData : QByteArray) (byteRanges : list ByteRange) :
  QByteArray_size sourceData <= INT_MAX ->
  Forall wfByteRange byteRanges ->
  Forall (passesRangeCheck sourceData) byteRanges ->
  forall outputBuffer covered,
    appendRanges sourceData byteRanges outputBuffer covered
    = (outputBuffer ++ rangeSlices sourceData byteRanges, Some (coverRanges byteRanges covered)).
Proof.
  intros HF Hwf Hp. induction byteRanges as [|r rs IH]; intros outputBuffer covered.
  - cbn. now rewrite app_nil_r.
  - inversion Hwf as [|? ? Hwr Hwrs]; subst. inversion Hp as [|? ? Hpr Hprs]; subst.
    cbn [appendRanges coverRanges fold_left]. rewrite rangeSlices_cons.
    destruct (Z.eqb_spec (SignatureDictionary.size r) 0) as [Hz|Hnz].
    + rewrite (range_skipped Hwr Hz). cbn [app]. apply IH; assumption.
    + destruct (range_accepted HF Hpr Hnz) as (He & Hne & Hob & Hlen & Hlast).
      rewrite He, Hne, Hob, Hlen, Hlast.
      fold (coverRanges rs (addInterval covered (offset r) (offset r + SignatureDictionary.size r - 1))).
      rewrite IH by assumption. now rewrite <- app_assoc.
Qed.

(** A range that fails its check makes the second loop give up, wherever
    it stands in the array. *)
Lemma appendRanges_rejects (sourceData : QByteArray) (byteRanges : list ByteRange) :
  Forall wfByteRange byteRanges ->
  (exists r, In r byteRanges /\ ~ passesRangeCheck sourceData r) ->
  forall outputBuffer covered,
    snd (appendRanges sourceData byteRanges outputBuffer covered) = None.
Proof.
  intros Hwf. induction byteRanges as [|r rs IH]; intros [bad [Hin Hbad]] outputBuffer covered.
  - destruct Hin.
  - inversion Hwf as [|? ? Hwr Hwrs]; subst. cbn [appendRanges].
    destruct Hin as [->|Hin].
    + destruct (range_rejected Hwr Hbad) as [Hne Hob]. now rewrite Hne, Hob.
    + destruct (offset r =? wrap64 (offset r + SignatureDictionary.size r)).
      * apply IH; eauto.
      * destruct (outOfBounds sourceData (offset r) (wrap64 (offset r + SignatureDictionary.size r)));
          [reflexivity|]. apply IH; eauto.
Qed.

Lemma rangeSlices_length (sourceData : QByteArray) (byteRanges : list ByteRange) :
  Forall (passesRangeCheck sourceData) byteRanges ->
  Z.of_nat (List.length (rangeSlices sourceData byteRanges)) = sumNonzeroSizes byteRanges.
Proof.
  induction 1 as [|r rs Hr Hrs IH]; [reflexivity|].
  rewrite rangeSlices_cons, length_app, Nat2Z.inj_add, IH.
  unfold sumNonzeroSizes. cbn [filter].
  destruct (Z.eqb_spec (SignatureDictionary.size r) 0) as [Hz|Hnz]; cbn [negb map fold_right].
  - reflexivity.
  - destruct Hr as [Hz|(H1 & H2 & H3)]; [contradiction|].
    rewrite bytesAt_length by lia. reflexivity.
Qed.

Lemma coverRanges_normIn (sourceData : QByteArray) (byteRanges : list ByteRange) :
  Forall (passesRangeCheck sourceData) byteRanges ->
  forall covered,
    normIn 0 (QByteArray_size sourceData - 1) covered ->
    normIn 0 (QByteArray_size sourceData - 1) (coverRanges byteRanges covered).
Proof.
  induction 1 as [|r rs Hr Hrs IH]; intros covered Hn; [exact Hn|].
  cbn [coverRanges fold_left].
  destruct (Z.eqb_spec (SignatureDictionary.size r) 0) as [Hz|Hnz]; [apply IH, Hn|].
  destruct Hr as [Hz|(H1 & H2 & H3)]; [contradiction|].
  apply IH. apply addInterval_normIn; [exact Hn|lia|lia].
Qed.

(** The covered set of the ranges: the bytes of the ranges of nonzero
    length, and what was covered before. *)
Lemma member_coverRanges (sourceData : QByteArray) (x : Z) (byteRanges : list ByteRange) :
  Forall (passesRangeCheck sourceData) byteRanges ->
  forall covered,
    normIn 0 (QByteArray_size sourceData - 1) covered ->
    (member x (coverRanges byteRanges covered) <->
     (member x covered
      \/ exists r, In r byteRanges
                   /\ offset r <= x < offset r + SignatureDictionary.size r)).
Proof.
  induction 1 as [|r rs Hr Hrs IH]; intros covered Hn.
  - cbn. split; [tauto|]. intros [H|[r [[] _]]]. exact H.
  - cbn [coverRanges fold_left].
    fold (coverRanges rs (if SignatureDictionary.size r =? 0 then covered
                          else addInterval covered (offset r)
                                 (offset r + SignatureDictionary.size r - 1))).
    destruct (Z.eqb_spec (SignatureDictionary.size r) 0) as [Hz|Hnz].
    + rewrite (IH _ Hn). split.
      * intros [H|[r' [Hin Hx]]]; [now left|right]. exists r'. split; [now right|exact Hx].
      * intros [H|[r' [[->|Hin] Hx]]]; [now left|lia|right; eauto].
    + destruct Hr as [Hz|(H1 & H2 & H3)]; [contradiction|].
      rewrite IH by (apply addInterval_normIn; [exact Hn|lia|lia]).
      rewrite (@member_addInterval x covered 0 (QByteArray_size sourceData - 1) (offset r)
                 (offset r + SignatureDictionary.size r - 1) Hn).
      split.
      * intros [[Hx|Hm]|[r' [Hin Hx]]].
        -- right. exists r. split; [now left|lia].
        -- now left.
        -- right. exists r'. split; [now right|exact Hx].
      * intros [Hm|[r' [[->|Hin] Hx]]].
        -- left. now right.
        -- left. left. lia.
        -- right. eauto.
Qed.

Lemma startsWith_length (needle a : QByteArray) :
  startsWith a needle = true -> (List.length needle <= List.length a)%nat.
Proof.
  revert a. induction needle as [|x needle IH]; intros a H; cbn; [lia|].
  destruct a as [|y a]; cbn in H; [discriminate|].
  apply andb_prop in H. destruct H as [_ H]. apply IH in H. cbn. lia.
Qed.

(** An index that [indexOf] returns is -1 or the start of an occurrence
    that lies within the array. *)
Lemma indexOfFrom_bound (needle a : QByteArray) :
  forall from,
    indexOfFrom a needle from = -1
    \/ (from <= indexOfFrom a needle from
        /\ indexOfFrom a needle from - from + QByteArray_size needle <= QByteArray_size a).
Proof.
  unfold QByteArray_size.
  induction a as [|c a IH]; intros from; cbn [indexOfFrom].
  - destruct needle; [right; cbn; lia|now left].
  - destruct (startsWith (c :: a) needle) eqn:E.
    + right. apply startsWith_length in E. lia.
    + destruct (IH (from + 1)) as [H|[H1 H2]]; [now left|right].
      cbn [List.length]. lia.
Qed.

Lemma indexOf_bound (a needle : QByteArray) :
  indexOf a needle = -1
  \/ (0 <= indexOf a needle
      /\ indexOf a needle + QByteArray_size needle <= QByteArray_size a).
Proof.
  unfold indexOf. destruct (indexOfFrom_bound needle a 0) as [H|[H1 H2]]; [now left|right; lia].
Qed.

Lemma toUpper_size (a : QByteArray) : QByteArray_size (toUpper a) = QByteArray_size a.
Proof. unfold QByteArray_size, toUpper. now rewrite length_map. Qed.

(** The interval of the contents lies within the file. *)
Lemma coverContents_normIn (sourceData contents : QByteArray) (covered : PDFClosedIntervalSet) :
  QByteArray_size sourceData <= INT_MAX ->
  normIn 0 (QByteArray_size sourceData - 1) covered ->
  normIn 0 (QByteArray_size sourceData - 1) (coverContents sourceData contents covered).
Proof.
  intros HF Hn. unfold coverContents.
  set (hexContents := toHex contents).
  set (index := if indexOf sourceData hexContents =? -1
                then indexOf sourceData (toUpper hexContents)
                else indexOf sourceData hexContents).
  assert (Hindex : index = -1
                   \/ (0 <= index /\ index + QByteArray_size hexContents <= QByteArray_size sourceData)).
  { subst index. destruct (indexOf sourceData hexContents =? -1).
    - rewrite <- (toUpper_size hexContents). apply indexOf_bound.
    - apply indexOf_bound. }
  pose proof (size_nonneg hexContents) as Hhex.
  destruct (Z.eqb_spec index (-1)) as [E|E]; cbn [negb]; [exact Hn|].
  destruct Hindex as [Hi|[Hi1 Hi2]]; [contradiction|].
  assert (Hlast : wrap32 (wrap32 (index + QByteArray_size hexContents) - 1)
                  = index + QByteArray_size hexContents - 1) by wrap_lia.
  rewrite Hlast.
  apply addInterval_normIn; [exact Hn| |].
  - destruct ((index >? 0) && _) eqn:E1; [|lia].
    apply andb_prop in E1. destruct E1 as [E1 _].
    rewrite Z.gtb_ltb in E1. apply Z.ltb_lt in E1. wrap_lia.
  - destruct ((wrap32 (index + QByteArray_size hexContents - 1 + 1) <? QByteArray_size sourceData) && _)
      eqn:E2; [|lia].
    apply andb_prop in E2. destruct E2 as [E2 _]. apply Z.ltb_lt in E2. lia.
Qed.

(** The assembler when the byte ranges pass the checks. *)
Lemma getSignedDataBuffer_accepts (signature : PDFSignature) (sourceData : QByteArray)
    (r : PDFSignatureVerificationResult) (outputBuffer : QByteArray) :
  QByteArray_size sourceData <= INT_MAX ->
  Forall wfByteRange (m_byteRanges signature) ->
  passesBoundsChecks sourceData (m_byteRanges signature) ->
  let s := coverContents sourceData (m_contents signature)
             (coverRanges (m_byteRanges signature) emptySet) in
  let signedBytes := outputBuffer ++ rangeSlices sourceData (m_byteRanges signature) in
  normIn 0 (QByteArray_size sourceData - 1) s
  /\ mergedCoverage signature sourceData = Some s
  /\ getSignedDataBuffer signature sourceData r outputBuffer
     = (if isCovered s 0 (QByteArray_size sourceData - 1) then r
        else addSignatureNotCoveredBytesWarning r (QByteArray_size sourceData - getTotalLength s),
        signedBytes, Some signedBytes).
Proof.
  intros HF Hwf [Hsum Hranges] s signedBytes.
  assert (Hn : normIn 0 (QByteArray_size sourceData - 1) s).
  { subst s. apply coverContents_normIn; [exact HF|].
    apply (@coverRanges_normIn sourceData); [exact Hranges|exact I]. }
  split; [exact Hn|]. split.
  - unfold mergedCoverage. now rewrite (appendRanges_accepts HF Hwf Hranges).
  - unfold getSignedDataBuffer.
    destruct (Z.gtb_spec (sumSizes (m_byteRanges signature)) (QByteArray_size sourceData)); [lia|].
    rewrite (appendRanges_accepts HF Hwf Hranges). fold s. fold signedBytes.
    pose proof (size_nonneg sourceData) as H0.
    pose proof (@sumLengths_bound _ _ _ Hn) as Hb. rewrite <- getTotalLength_sum in Hb.
    replace (wrap32 (QByteArray_size sourceData - 1)) with (QByteArray_size sourceData - 1)
      by wrap_lia.
    replace (wrap32 (QByteArray_size sourceData - wrap32 (getTotalLength s)))
      with (QByteArray_size sourceData - getTotalLength s) by wrap_lia.
    destruct (isCovered s 0 (QByteArray_size sourceData - 1)); reflexivity.
Qed.

Lemma warning_changes_result (r : PDFSignatureVerificationResult) (count : Z) :
  addSignatureNotCoveredBytesWarning r count <> r.
Proof.
  intros H. apply (f_equal (fun x => List.length (m_warnings x))) in H.
  cbn in H. rewrite length_app in H. cbn in H. lia.
Qed.

Lemma wrap64_add_l (a b : Z) : wrap64 (wrap64 a + b) = wrap64 (a + b).
Proof. wrap_lia. Qed.

Lemma sumSizes_wrap (byteRanges : list ByteRange) :
  forall a,
    fold_left (fun size byteRange => wrap64 (size + SignatureDictionary.size byteRange))
              byteRanges (wrap64 a)
    = wrap64 (a + fold_right Z.add 0 (map SignatureDictionary.size byteRanges)).
Proof.
  induction byteRanges as [|r rs IH]; intros a; cbn [fold_left map fold_right].
  - f_equal. lia.
  - rewrite wrap64_add_l, IH. f_equal. lia.
Qed.

(** Byte ranges as the data model wants them: sorted by offset, not
    overlapping, of non-negative length and within the file. *)
Fixpoint wellFormedFrom (low : Z) (sourceData : QByteArray) (byteRanges : list ByteRange) : Prop :=
  match byteRanges with
  | [] => True
  | r :: rest =>
      low <= offset r /\ 0 <= SignatureDictionary.size r
      /\ offset r + SignatureDictionary.size r <= QByteArray_size sourceData
      /\ wellFormedFrom (offset r + SignatureDictionary.size r) sourceData rest
  end.

Lemma wellFormed_sum (sourceData : QByteArray) (byteRanges : list ByteRange) :
  forall low,
    0 <= low <= QByteArray_size sourceData ->
    wellFormedFrom low sourceData byteRanges ->
    0 <= fold_right Z.add 0 (map SignatureDictionary.size byteRanges)
      <= QByteArray_size sourceData - low.
Proof.
  induction byteRanges as [|r rs IH]; intros low Hlow Hwf; cbn [map fold_right].
  - lia.
  - cbn in Hwf. destruct Hwf as (H1 & H2 & H3 & Hrest).
    assert (Hr : 0 <= offset r + SignatureDictionary.size r <= QByteArray_size sourceData)
      by lia.
    pose proof (IH _ Hr Hrest). lia.
Qed.

Lemma wellFormed_ranges (sourceData : QByteArray) (byteRanges : list ByteRange) :
  QByteArray_size sourceData <= INT_MAX ->
  forall low,
    0 <= low -> wellFormedFrom low sourceData byteRanges ->
    Forall wfByteRange byteRanges /\ Forall (passesRangeCheck sourceData) byteRanges.
Proof.
  intros HF. induction byteRanges as [|r rs IH]; intros low Hlow Hwf; [split; constructor|].
  cbn in Hwf. destruct Hwf as (H1 & H2 & H3 & Hrest).
  destruct (IH (offset r + SignatureDictionary.size r)) as [Hw Hp]; [lia|exact Hrest|].
  split; constructor; try assumption.
  - split; wrap_lia.
  - unfold passesRangeCheck. lia.
Qed.

(** Sorted, non-overlapping ranges within the file pass every check of
    the assembler, the sanity check on the sum of the sizes included. *)
Lemma wellFormed_passes (sourceData : QByteArray) (byteRanges : list ByteRange) :
  QByteArray_size sourceData <= INT_MAX ->
  wellFormedFrom 0 sourceData byteRanges ->
  Forall wfByteRange byteRanges /\ passesBoundsChecks sourceData byteRanges.
Proof.
  intros HF Hwf. pose proof (size_nonneg sourceData) as H0.
  destruct (@wellFormed_ranges sourceData byteRanges HF 0) as [Hw Hp]; [lia|exact Hwf|].
  split; [exact Hw|]. split; [|exact Hp].
  pose proof (@wellFormed_sum sourceData byteRanges 0) as Hs.
  unfold sumSizes. change 0 with (wrap64 0) at 1. rewrite sumSizes_wrap.
  assert (Hsum : 0 <= fold_right Z.add 0 (map SignatureDictionary.size byteRanges)
                   <= QByteArray_size sourceData - 0) by (apply Hs; [lia|exact Hwf]).
  cbn [Z.add]. wrap_lia.
Qed.

(** C3. When the byte ranges of a signature pass the bounds checks of the
    assembler (the sanity check on the sum of the sizes and the check of
    every range), the assembled buffer is the concatenation of the slices
    F[offset .. offset+length] of the ranges of nonzero length, in array
    order, and its length is the sum of the lengths of these ranges. *)
Theorem C3_signed_bytes_concatenation :
  forall (signature : PDFSignature) (sourceData : QByteArray)
         (r : PDFSignatureVerificationResult),
    QByteArray_size sourceData <= INT_MAX ->
    Forall wfByteRange (m_byteRanges signature) ->
    passesBoundsChecks sourceData (m_byteRanges signature) ->
    let signedBytes := rangeSlices sourceData (m_byteRanges signature) in
    (exists r', getSignedDataBuffer signature sourceData r []
                = (r', signedBytes, Some signedBytes))
    /\ QByteArray_size signedBytes = sumNonzeroSizes (m_byteRanges signature).
Proof.
  intros signature sourceData r HF Hwf Hp signedBytes. split.
  - destruct (getSignedDataBuffer_accepts signature r [] HF Hwf Hp) as (_ & _ & H).
    cbn [app] in H. rewrite H. eauto.
  - apply rangeSlices_length. exact (proj2 Hp).
Qed.

(** C5. When some byte range of nonzero length has a negative offset or
    ends beyond the end of the file, the assembler records the error
    Signature_DataCoveredBySignatureMissing (the flag and its message) and
    returns no buffer. *)
Theorem C5_range_outside_file :
  forall (signature : PDFSignature) (sourceData : QByteArray)
         (r : PDFSignatureVerificationResult) (outputBuffer : QByteArray),
    Forall wfByteRange (m_byteRanges signature) ->
    (exists range, In range (m_byteRanges signature)
                   /\ SignatureDictionary.size range <> 0
                   /\ (offset range < 0
                       \/ offset range + SignatureDictionary.size range > QByteArray_size sourceData)) ->
    exists r' out',
      getSignedDataBuffer signature sourceData r outputBuffer = (r', out', None)
      /\ r' = addSignatureDataCoveredBySignatureMissingError r
      /\ hasFlag r' Error_Signature_DataCoveredBySignatureMissing = true.
Proof.
  intros signature sourceData r outputBuffer Hwf (range & Hin & Hnz & Hout).
  assert (Hflag : hasFlag (addSignatureDataCoveredBySignatureMissingError r)
                          Error_Signature_DataCoveredBySignatureMissing = true).
  { unfold addSignatureDataCoveredBySignatureMissingError.
    rewrite FlagFacts.hasFlag_addError, Z.eqb_refl. apply orb_true_r. }
  unfold getSignedDataBuffer.
  destruct (sumSizes (m_byteRanges signature) >? QByteArray_size sourceData).
  - eauto.
  - assert (Hrej : snd (appendRanges sourceData (m_byteRanges signature) outputBuffer emptySet) = None).
    { apply appendRanges_rejects; [exact Hwf|]. exists range. split; [exact Hin|].
      unfold passesRangeCheck. lia. }
    destruct (appendRanges sourceData (m_byteRanges signature) outputBuffer emptySet) as [out' [s|]];
      cbn [snd] in Hrej; [discriminate|]. eauto.
Qed.

End AssemblerFacts.

(* ================================================================== *)
(** * Properties of verifySignatures *)
(* ================================================================== *)

Module VerifySignaturesFacts.
Import EngineFacts.

(** The field a result identifies. *)
Definition fieldOf (r : PDFSignatureVerificationResult) : PDFObjectReference * QString :=
  (m_signatureFieldReference r, m_signatureFieldQualifiedName r).

Definition isSignatureField (field : PDFFormField) : bool :=
  FieldType_eqb (getFieldType field) Signature.

Lemma fold_left_snoc {A B : Type} (g : A -> B) (l : list A) :
  forall init, fold_left (fun acc x => acc ++ [g x]) l init = init ++ map g l.
Proof.
  induction l as [|x l IH]; intros init; cbn [fold_left map].
  - now rewrite app_nil_r.
  - rewrite IH, <- app_assoc. reflexivity.
Qed.

Lemma apply_getSignatureFields (form : PDFForm) :
  forall signatureFields,
    apply form getSignatureFields signatureFields
    = signatureFields ++ filter isSignatureField (formFields form).
Proof.
  unfold apply. induction (formFields form) as [|f l IH]; intros acc; cbn [fold_left filter].
  - now rewrite app_nil_r.
  - rewrite IH. unfold getSignatureFields, isSignatureField.
    destruct (FieldType_eqb (getFieldType f) Signature); [|reflexivity].
    now rewrite <- app_assoc.
Qed.

Lemma fieldOf_validate r : fieldOf (validate r) = fieldOf r.
Proof. unfold validate. now destruct (isCertificateValid r && isSignatureValid r). Qed.

Lemma fieldOf_getSignedDataBuffer signature sourceData r outputBuffer :
  fieldOf (fst (fst (getSignedDataBuffer signature sourceData r outputBuffer))) = fieldOf r.
Proof. unfold getSignedDataBuffer. repeat break_match; reflexivity. Qed.

Section WithOpenSSL.
Context {ssl : OpenSSL}.

Lemma fieldOf_addVerificationError r error : fieldOf (addVerificationError r error) = fieldOf r.
Proof. unfold addVerificationError. repeat break_match; reflexivity. Qed.

Lemma fieldOf_addCertificateInfos certificates :
  forall r, fieldOf (addCertificateInfos r certificates) = fieldOf r.
Proof.
  unfold addCertificateInfos.
  induction certificates as [|c cs IH]; intros r; cbn [fold_left]; [reflexivity|].
  now rewrite IH.
Qed.

Lemma fieldOf_verifyChain h context certificates r :
  fieldOf (snd (verifyChain h context certificates r)) = fieldOf r.
Proof.
  unfold verifyChain. repeat break_match; cbn [snd];
    rewrite fieldOf_addCertificateInfos, ?fieldOf_addVerificationError; reflexivity.
Qed.

Lemma fieldOf_verifyCertificateSigners h x509store certificates signerInfo :
  forall context r,
    fieldOf (verifyCertificateSigners h x509store certificates signerInfo context r) = fieldOf r.
Proof.
  induction signerInfo as [|s rest IH]; intros context r; cbn [verifyCertificateSigners];
    [reflexivity|].
  destruct (X509_find_by_issuer_and_serial certificates s); [|reflexivity].
  destruct (X509_STORE_CTX_init context x509store x certificates) as [[|] context1];
    cbn [negb]; [|reflexivity].
  destruct (X509_STORE_CTX_set_purpose context1 X509_PURPOSE_SMIME_SIGN) as [[|] context2];
    cbn [negb]; [|reflexivity].
  pose proof (fieldOf_verifyChain h context2 certificates r) as Hc.
  destruct (verifyChain h context2 certificates r) as [context3 r1]. cbn [snd] in Hc.
  now rewrite IH.
Qed.

Lemma fieldOf_setCertificateOK r : fieldOf (setCertificateOK r) = fieldOf r.
Proof. unfold setCertificateOK. now destruct (negb (hasCertificateError r)). Qed.

Lemma fieldOf_setSignatureOK r : fieldOf (setSignatureOK r) = fieldOf r.
Proof. unfold setSignatureOK. now destruct (negb (hasSignatureError r)). Qed.

Lemma fieldOf_verifyCertificate h r : fieldOf (verifyCertificate h r) = fieldOf r.
Proof.
  unfold verifyCertificate. rewrite fieldOf_setCertificateOK.
  repeat break_match; rewrite ?fieldOf_verifyCertificateSigners; reflexivity.
Qed.

Lemma fieldOf_getSignedDataBufferOf h r outputBuffer :
  fieldOf (fst (fst (getSignedDataBufferOf h r outputBuffer))) = fieldOf r.
Proof.
  unfold getSignedDataBufferOf, getSignedDataBuffer_sha1.
  destruct (handlerClass h); try apply fieldOf_getSignedDataBuffer.
  pose proof (fieldOf_getSignedDataBuffer (getSignature (m_signatureField h))
                (m_sourceData h) r []) as Hf.
  destruct (getSignedDataBuffer _ _ r []) as [[r1 temporaryBuffer] [bio|]]; exact Hf.
Qed.

Lemma fieldOf_verifySignatureSigners pkcs7 dataBio certificates signerInfo :
  forall r, fieldOf (verifySignatureSigners pkcs7 dataBio certificates signerInfo r) = fieldOf r.
Proof.
  induction signerInfo as [|s rest IH]; intros r; cbn [verifySignatureSigners]; [reflexivity|].
  destruct (X509_find_by_issuer_and_serial certificates s); [|reflexivity].
  destruct (PKCS7_signatureVerify dataBio pkcs7 s x) as [verification reason].
  rewrite IH. repeat break_match; reflexivity.
Qed.

Lemma fieldOf_verifySignature h r : fieldOf (verifySignature h r) = fieldOf r.
Proof.
  unfold verifySignature. rewrite fieldOf_setSignatureOK.
  destruct (d2i_PKCS7 _) as [pkcs7|]; [|reflexivity].
  pose proof (fieldOf_getSignedDataBufferOf h r []) as Hf.
  destruct (getSignedDataBufferOf h r []) as [[r1 buffer] [inputBuffer|]]; cbn [fst] in Hf;
    [|exact Hf].
  rewrite <- Hf.
  repeat break_match; rewrite ?fieldOf_verifySignatureSigners; reflexivity.
Qed.

Lemma fieldOf_verifyRSACertificate h r : fieldOf (verifyRSACertificate h r) = fieldOf r.
Proof.
  unfold verifyRSACertificate. rewrite fieldOf_setCertificateOK.
  destruct (createCertificate h 0); [|reflexivity].
  destruct (X509_STORE_CTX_init _ _ _ _) as [initialized context1].
  destruct (X509_STORE_CTX_set_purpose _ _) as [purposeSet context2].
  set (r1 := if negb initialized then addCertificateGenericError r else r).
  set (r2 := if negb purposeSet then addCertificateGenericError r1 else r1).
  assert (H2 : fieldOf r2 = fieldOf r)
    by (subst r2 r1; destruct initialized, purposeSet; reflexivity).
  destruct (negb (hasCertificateError r2)); [|exact H2].
  now rewrite fieldOf_verifyChain.
Qed.

Lemma fieldOf_verifyRSASignature h r : fieldOf (verifyRSASignature h r) = fieldOf r.
Proof.
  unfold verifyRSASignature.
  destruct (createCertificate h 0) as [certificate|]; [|reflexivity].
  destruct (X509_get0_pubkey certificate) as [evpKey|]; [|reflexivity].
  destruct (EVP_PKEY_get0_RSA evpKey) as [rsa|]; [|reflexivity].
  pose proof (fieldOf_getSignedDataBufferOf h r []) as Hf.
  destruct (getSignedDataBufferOf h r []) as [[r1 outputBuffer] [bio|]]; cbn [fst] in Hf;
    [|now rewrite fieldOf_setSignatureOK].
  rewrite <- Hf.
  repeat break_match; rewrite ?fieldOf_setSignatureOK; reflexivity.
Qed.

(** The result of an engine identifies the field of its handler. *)
Lemma fieldOf_verify h :
  fieldOf (verify h)
  = (getSelfReference (m_signatureField h), getFullyQualifiedName (m_signatureField h)).
Proof.
  unfold verify. destruct (handlerClass h); rewrite fieldOf_validate.
  - now rewrite fieldOf_verifySignature, fieldOf_verifyCertificate.
  - now rewrite fieldOf_verifySignature, fieldOf_verifyCertificate.
  - now rewrite fieldOf_verifyRSASignature, fieldOf_verifyRSACertificate.
Qed.

Lemma createHandler_field signatureField sourceData parameters h :
  createHandler signatureField sourceData parameters = Some h ->
  m_signatureField h = signatureField.
Proof.
  unfold createHandler. repeat break_match; intros H; inversion H; reflexivity.
Qed.

Lemma fieldOf_verifyField sourceData parameters signatureField :
  fieldOf (verifyField sourceData parameters signatureField)
  = (getSelfReference signatureField, getFullyQualifiedName signatureField).
Proof.
  unfold verifyField.
  destruct (createHandler signatureField sourceData parameters) as [h|] eqn:E; [|reflexivity].
  rewrite fieldOf_verify. now rewrite (createHandler_field _ _ _ E).
Qed.

Lemma verifySignatures_enabled form sourceData parameters :
  enableVerification parameters = true ->
  isAcroForm form || isXFAForm form = true ->
  verifySignatures form sourceData parameters
  = map (verifyField sourceData parameters) (filter isSignatureField (formFields form)).
Proof.
  intros He Hf. unfold verifySignatures. rewrite He, Hf. cbn [andb].
  rewrite apply_getSignatureFields, fold_left_snoc. reflexivity.
Qed.

(** C6. With verification enabled on an AcroForm or XFA form,
    [verifySignatures] returns the list of the results of the signature
    fields that the form enumerates, one result per field and in the
    order of the enumeration: the results are as many as the signature
    fields and the i-th result carries the reference and the name of the
    i-th signature field. *)
Theorem C6_one_result_per_signature_field :
  forall (form : PDFForm) (sourceData : QByteArray) (parameters : Parameters),
    enableVerification parameters = true ->
    isAcroForm form || isXFAForm form = true ->
    let signatureFields := filter isSignatureField (formFields form) in
    let results := verifySignatures form sourceData parameters in
    results = map (verifyField sourceData parameters) signatureFields
    /\ List.length results = List.length signatureFields
    /\ map m_signatureFieldReference results = map getSelfReference signatureFields
    /\ map m_signatureFieldQualifiedName results = map getFullyQualifiedName signatureFields.
Proof.
  intros form sourceData parameters He Hf signatureFields results.
  assert (Hr : results = map (verifyField sourceData parameters) signatureFields)
    by (apply verifySignatures_enabled; assumption).
  split; [exact Hr|]. rewrite Hr. split; [apply length_map|].
  rewrite !map_map. split; apply map_ext; intros field;
    pose proof (fieldOf_verifyField sourceData parameters field) as H;
    unfold fieldOf in H; now inversion H.
Qed.

(** C7. [verifySignatures] returns the empty list when verification is
    disabled and when the form is neither an AcroForm nor an XFA form. *)
Theorem C7_disabled_or_no_form :
  forall (form : PDFForm) (sourceData : QByteArray) (parameters : Parameters),
    enableVerification parameters = false
    \/ (isAcroForm form = false /\ isXFAForm form = false) ->
    verifySignatures form sourceData parameters = [].
Proof.
  intros form sourceData parameters [He|[Ha Hx]]; unfold verifySignatures.
  - now rewrite He.
  - rewrite Ha, Hx. now rewrite andb_false_r.
Qed.

End WithOpenSSL.

End VerifySignaturesFacts.

(* ================================================================== *)
(** * Properties of the persistence *)
(* ================================================================== *)

Module DataStreamFacts.
Import CertificateStore.
Import AssemblerFacts.

Lemma ZofByte_range (b : byte) : 0 <= ZofByte b < 256.
Proof. unfold ZofByte. pose proof (Byte.to_N_bounded b). lia. Qed.

Lemma ZofByte_byteOfZ (z : Z) : 0 <= z < 256 -> ZofByte (byteOfZ z) = z.
Proof.
  intros Hz. unfold ZofByte, byteOfZ.
  destruct (Byte.of_N (Z.to_N z)) as [b|] eqn:E.
  - apply Byte.to_of_N in E. rewrite E. lia.
  - apply Byte.of_N_None_iff in E. lia.
Qed.

Lemma fromBE_snoc (l : list byte) (b : byte) : fromBE (l ++ [b]) = fromBE l * 256 + ZofByte b.
Proof. unfold fromBE. now rewrite fold_left_app. Qed.

Lemma bytesBE_length (n : nat) : forall z, List.length (bytesBE n z) = n.
Proof.
  induction n as [|n IH]; intros z; cbn [bytesBE]; [reflexivity|].
  rewrite length_app, IH. cbn. lia.
Qed.

Lemma fromBE_bytesBE (n : nat) : forall z, fromBE (bytesBE n z) = z mod 256 ^ Z.of_nat n.
Proof.
  induction n as [|n IH]; intros z; cbn [bytesBE].
  - cbn. now rewrite Z.mod_1_r.
  - rewrite fromBE_snoc, IH, ZofByte_byteOfZ by (apply Z.mod_pos_bound; lia).
    rewrite Nat2Z.inj_succ, Z.pow_succ_r by lia.
    rewrite (Z.rem_mul_r z 256 (256 ^ Z.of_nat n)) by (try apply Z.pow_pos_nonneg; lia).
    lia.
Qed.

Lemma firstn_exact {A : Type} (l rest : list A) : firstn (List.length l) (l ++ rest) = l.
Proof. induction l as [|x l IH]; cbn; [now destruct rest|now rewrite IH]. Qed.

Lemma skipn_exact {A : Type} (l rest : list A) : skipn (List.length l) (l ++ rest) = rest.
Proof. induction l as [|x l IH]; cbn; [reflexivity|exact IH]. Qed.

Lemma readBytes_app (l rest : Stream) (n : nat) :
  n = List.length l -> readBytes n (l ++ rest) = Some (l, rest).
Proof.
  intros ->. unfold readBytes.
  replace (List.length l <=? List.length (l ++ rest))%nat with true
    by (symmetry; apply Nat.leb_le; rewrite length_app; lia).
  now rewrite firstn_exact, skipn_exact.
Qed.

Lemma readBE_app (l rest : Stream) (n : nat) :
  n = List.length l -> readBE n (l ++ rest) = Some (fromBE l, rest).
Proof.
  intros ->. unfold readBE.
  replace (List.length l <=? List.length (l ++ rest))%nat with true
    by (symmetry; apply Nat.leb_le; rewrite length_app; lia).
  now rewrite firstn_exact, skipn_exact.
Qed.

Lemma readBE_bytesBE (n : nat) (z : Z) (rest : Stream) :
  readBE n (bytesBE n z ++ rest) = Some (z mod 256 ^ Z.of_nat n, rest).
Proof.
  rewrite readBE_app by (now rewrite bytesBE_length). now rewrite fromBE_bytesBE.
Qed.

Ltac stream_lia :=
  change (256 ^ Z.of_nat 1) with 256 in *;
  change (256 ^ Z.of_nat 2) with 65536 in *;
  change (256 ^ Z.of_nat 4) with 4294967296 in *;
  change (256 ^ Z.of_nat 8) with 18446744073709551616 in *;
  unfold nullMarker, valid_QByteArray in *;
  wrap_lia.

Lemma read_write_int32 (z : Z) (rest : Stream) :
  is_int32 z -> read_int32 (write_int32 z ++ rest) = Some (z, rest).
Proof.
  intros Hz. unfold read_int32, write_int32. rewrite readBE_bytesBE.
  f_equal. f_equal. stream_lia.
Qed.

Lemma read_any_int32 (v : Z) (rest : Stream) :
  exists v', read_int32 (write_int32 v ++ rest) = Some (v', rest).
Proof. unfold read_int32, write_int32. rewrite readBE_bytesBE. eauto. Qed.

Lemma read_write_uint32 (z : Z) (rest : Stream) :
  0 <= z < 2 ^ 32 -> read_uint32 (write_uint32 z ++ rest) = Some (z, rest).
Proof.
  intros Hz. unfold read_uint32, write_uint32. rewrite readBE_bytesBE.
  f_equal. f_equal. stream_lia.
Qed.

Lemma read_write_size_t (n : nat) (rest : Stream) :
  Z.of_nat n < 2 ^ 64 -> read_size_t (write_size_t n ++ rest) = Some (n, rest).
Proof.
  intros Hn. unfold read_size_t, write_size_t. rewrite readBE_bytesBE.
  f_equal. f_equal. stream_lia.
Qed.

Lemma read_write_QByteArray (a : QByteArray) (rest : Stream) :
  valid_QByteArray a -> read_QByteArray (write_QByteArray a ++ rest) = Some (a, rest).
Proof.
  intros Ha. unfold read_QByteArray, write_QByteArray.
  destruct a as [|b a].
  - rewrite read_write_uint32 by stream_lia. now rewrite Z.eqb_refl.
  - pose proof (size_nonneg (b :: a)) as H0.
    rewrite <- app_assoc, read_write_uint32 by stream_lia.
    replace (QByteArray_size (b :: a) =? nullMarker) with false
      by (symmetry; apply Z.eqb_neq; stream_lia).
    apply readBytes_app. unfold QByteArray_size. lia.
Qed.

Lemma unitsOf_units (str : QString) :
  Forall (fun u => 0 <= u < 65536) str -> unitsOf (flat_map (bytesBE 2) str) = str.
Proof.
  induction 1 as [|u str Hu Hstr IH]; [reflexivity|].
  change (flat_map (bytesBE 2) (u :: str))
    with ([byteOfZ ((u / 256) mod 256); byteOfZ (u mod 256)] ++ flat_map (bytesBE 2) str).
  cbn [app unitsOf]. rewrite IH.
  rewrite !ZofByte_byteOfZ by (apply Z.mod_pos_bound; lia).
  f_equal. Z.div_mod_to_equations. lia.
Qed.

Lemma units_length (str : QString) :
  List.length (flat_map (bytesBE 2) str) = (2 * List.length str)%nat.
Proof. induction str as [|u str IH]; cbn in *; [reflexivity|]. rewrite IH. lia. Qed.

Lemma read_write_QString (str : QString) (rest : Stream) :
  valid_QString str -> read_QString (write_QString str ++ rest) = Some (str, rest).
Proof.
  intros [Hu Hl]. unfold read_QString, write_QString.
  destruct str as [|u str].
  - rewrite read_write_uint32 by stream_lia. now rewrite Z.eqb_refl.
  - set (s := u :: str) in *.
    rewrite <- app_assoc, read_write_uint32 by stream_lia.
    replace (2 * Z.of_nat (List.length s) =? nullMarker) with false
      by (symmetry; apply Z.eqb_neq; lia).
    replace (Z.odd (2 * Z.of_nat (List.length s))) with false
      by (symmetry; rewrite Z.odd_mul; reflexivity).
    rewrite readBytes_app by (rewrite units_length; lia).
    now rewrite unitsOf_units.
Qed.

Lemma read_write_QDateTime (t : QDateTime) (rest : Stream) :
  valid_QDateTime t -> read_QDateTime (write_QDateTime t ++ rest) = Some (t, rest).
Proof.
  intros (Hj & Hm & Hs). unfold read_QDateTime, write_QDateTime.
  rewrite <- !app_assoc, !readBE_bytesBE.
  assert (Hspec : dt_timeSpec t mod 256 ^ Z.of_nat 1 = dt_timeSpec t)
    by (unfold Qt_LocalTime, Qt_UTC in Hs; stream_lia).
  rewrite Hspec.
  replace ((dt_timeSpec t =? Qt_LocalTime) || (dt_timeSpec t =? Qt_UTC)) with true
    by (symmetry; apply orb_true_iff; rewrite !Z.eqb_eq; exact Hs).
  destruct t as [jd ms spec]. cbn [dt_julianDay dt_msecs dt_timeSpec] in *.
  f_equal. f_equal. f_equal; stream_lia.
Qed.

Lemma PublicKey_round_trip (k : PublicKey) :
  PublicKey_ofInt (PublicKey_toInt k) = Some k /\ is_int32 (PublicKey_toInt k).
Proof. destruct k; split; try reflexivity; cbn; wrap_lia. Qed.

Lemma EntryType_round_trip (t : EntryType) :
  EntryType_ofInt (EntryType_toInt t) = Some t /\ is_int32 (EntryType_toInt t).
Proof. destruct t; split; try reflexivity; cbn; wrap_lia. Qed.

(** Containers of elements that round-trip. *)
Section Containers.
Context {A : Type} {SA : Streamable A}.
Variable validA : A -> Prop.
Variable target : A -> Prop.
Hypothesis target_default : target defaultValue.
Hypothesis read_write_A :
  forall x old rest, validA x -> target old -> read old (write x ++ rest) = Some (x, rest).

Lemma readItems_writeItems (items : list A) :
  Forall validA items ->
  forall olds rest,
    Forall target olds -> List.length olds = List.length items ->
    readItems olds (writeItems items ++ rest) = Some (items, rest).
Proof.
  induction 1 as [|x items Hx Hitems IH]; intros olds rest Holds Hlen.
  - destruct olds; [reflexivity|discriminate].
  - destruct olds as [|old olds]; [discriminate|].
    inversion Holds; subst. cbn [writeItems flat_map readItems].
    rewrite <- app_assoc, read_write_A by assumption.
    fold (writeItems items). rewrite IH by (cbn in Hlen; auto; lia). reflexivity.
Qed.

Lemma resize_length (n : nat) (v : list A) : List.length (resize n v) = n.
Proof. unfold resize. rewrite length_app, length_firstn, repeat_length. lia. Qed.

Lemma resize_target (n : nat) (v : list A) : Forall target v -> Forall target (resize n v).
Proof.
  intros Hv. unfold resize. apply Forall_app. split.
  - revert n. induction Hv as [|x v Hx Hv IH]; intros [|n]; cbn [firstn]; constructor; auto.
  - apply Forall_forall. intros x Hin. apply repeat_spec in Hin. now subst.
Qed.

Lemma read_write_vector (v old : list A) (rest : Stream) :
  Forall validA v -> Forall target old -> Z.of_nat (List.length v) < 2 ^ 64 ->
  read_vector old (write_vector v ++ rest) = Some (v, rest).
Proof.
  intros Hv Hold Hlen. unfold read_vector, write_vector.
  rewrite <- app_assoc, read_write_size_t by assumption.
  apply readItems_writeItems; [assumption|now apply resize_target|apply resize_length].
Qed.

Lemma readArrayItems_writeItems (items : list A) :
  Forall validA items ->
  forall olds rest,
    Forall target olds -> List.length olds = List.length items ->
    readArrayItems (List.length items) olds (writeItems items ++ rest) = Some (items, rest).
Proof.
  induction 1 as [|x items Hx Hitems IH]; intros olds rest Holds Hlen.
  - destruct olds; [reflexivity|discriminate].
  - destruct olds as [|old olds]; [discriminate|].
    inversion Holds; subst. cbn [List.length writeItems flat_map readArrayItems].
    rewrite <- app_assoc, read_write_A by assumption.
    fold (writeItems items). rewrite IH by (cbn in Hlen; auto; lia). reflexivity.
Qed.

Lemma read_write_array (a old : list A) (rest : Stream) :
  Forall validA a -> Forall target old -> List.length old = List.length a ->
  Z.of_nat (List.length a) < 2 ^ 64 ->
  read_array old (write_array a ++ rest) = Some (a, rest).
Proof.
  intros Ha Hold Hlen Hsize. unfold read_array, write_array.
  rewrite <- app_assoc, read_write_size_t by assumption.
  now apply readArrayItems_writeItems.
Qed.

End Containers.

(** The object read into is a certificate description: its name entries
    are an array of [NameEnd] strings. *)
Definition targetInfo (i : PDFCertificateInfo) : Prop :=
  List.length (m_nameEntries i) = NameEnd.

(** The bytes [serialize] writes after the version. *)
Definition infoFields (i : PDFCertificateInfo) : Stream :=
  write_int32 (m_version i) ++ write_int32 (m_keySize i)
  ++ write_int32 (PublicKey_toInt (m_publicKey i))
  ++ write_array (m_nameEntries i)
  ++ write_QDateTime (m_notValidBefore i) ++ write_QDateTime (m_notValidAfter i)
  ++ write_int32 (m_keyUsage i) ++ write_QByteArray (m_certificateData i).

Definition storeFields (st : PDFCertificateStore) : Stream :=
  write_vector (m_certificates st).

Lemma serialize_info_fields (i : PDFCertificateInfo) :
  serialize_info i [] = write_int32 persist_version ++ infoFields i.
Proof.
  unfold serialize_info, infoFields. cbn [app write Streamable_int Streamable_PublicKey
    Streamable_QDateTime Streamable_QByteArray]. now rewrite <- !app_assoc.
Qed.

Lemma serialize_store_fields (st : PDFCertificateStore) :
  serialize_store st [] = write_int32 persist_version ++ storeFields st.
Proof. reflexivity. Qed.

Lemma defaultInfo_target : targetInfo defaultInfo.
Proof. reflexivity. Qed.

(** [deserialize] reads back the fields, whatever the version before them. *)
Lemma deserialize_info_fields (i target : PDFCertificateInfo) (v : Z) (rest : Stream) :
  valid_info i -> targetInfo target ->
  deserialize_info target (write_int32 v ++ infoFields i ++ rest) = Some (i, rest).
Proof.
  intros (Hv & Hk & Hlen & Hnames & Hb & Ha & Hu & Hd) Ht.
  unfold deserialize_info, infoFields.
  cbn [read Streamable_int Streamable_PublicKey Streamable_QDateTime Streamable_QByteArray].
  destruct (read_any_int32 v (infoFields i ++ rest)) as [v' Hv']. unfold infoFields in Hv'.
  rewrite Hv'. rewrite <- !app_assoc.
  rewrite read_write_int32 by assumption.
  rewrite read_write_int32 by assumption.
  rewrite read_write_int32 by apply PublicKey_round_trip.
  rewrite (proj1 (PublicKey_round_trip (m_publicKey i))).
  rewrite (@read_write_array QString _ valid_QString (fun _ => True)).
  - rewrite read_write_QDateTime by assumption.
    rewrite read_write_QDateTime by assumption.
    rewrite read_write_int32 by assumption.
    rewrite read_write_QByteArray by assumption.
    now destruct i.
  - intros x old rest' Hx _. cbn [read write Streamable_QString]. now apply read_write_QString.
  - exact Hnames.
  - apply Forall_forall. intros; exact I.
  - unfold targetInfo in Ht. now rewrite Ht, Hlen.
  - rewrite Hlen. cbn. lia.
Qed.

Lemma read_write_info (i target : PDFCertificateInfo) (rest : Stream) :
  valid_info i -> targetInfo target ->
  deserialize_info target (serialize_info i [] ++ rest) = Some (i, rest).
Proof.
  intros Hi Ht. rewrite serialize_info_fields, <- app_assoc.
  now apply deserialize_info_fields.
Qed.

Lemma read_write_entry (e target : CertificateEntry) (rest : Stream) :
  valid_info (info e) -> targetInfo (info target) ->
  deserialize_entry target (serialize_entry e [] ++ rest) = Some (e, rest).
Proof.
  intros He Ht. unfold deserialize_entry, serialize_entry.
  cbn [app read write Streamable_int Streamable_EntryType Streamable_info].
  rewrite <- !app_assoc.
  rewrite read_write_int32 by (unfold persist_version; wrap_lia).
  rewrite read_write_int32 by apply EntryType_round_trip.
  rewrite (proj1 (EntryType_round_trip (type e))).
  rewrite read_write_info by assumption.
  now destruct e.
Qed.

Lemma deserialize_store_fields (st target : PDFCertificateStore) (v : Z) (rest : Stream) :
  valid_store st ->
  Forall (fun e => targetInfo (info e)) (m_certificates target) ->
  deserialize_store target (write_int32 v ++ storeFields st ++ rest) = Some (st, rest).
Proof.
  intros [Hentries Hlen] Ht. unfold deserialize_store, storeFields.
  cbn [read Streamable_int].
  destruct (read_any_int32 v (write_vector (m_certificates st) ++ rest)) as [v' Hv'].
  rewrite Hv'.
  rewrite (@read_write_vector CertificateEntry _ (fun e => valid_info (info e))
             (fun e => targetInfo (info e))).
  - now destruct st.
  - exact defaultInfo_target.
  - intros x old rest' Hx Hold. cbn [read write Streamable_entry].
    now apply read_write_entry.
  - exact Hentries.
  - exact Ht.
  - exact Hlen.
Qed.

Lemma skipn_version (v : Z) (fields : Stream) : skipn 4 (write_int32 v ++ fields) = fields.
Proof.
  unfold write_int32. pose proof (bytesBE_length 4 v) as Hl.
  rewrite <- Hl at 1. apply skipn_exact.
Qed.

Lemma firstn_version (v : Z) (fields : Stream) : firstn 4 (write_int32 v ++ fields) = write_int32 v.
Proof.
  unfold write_int32. pose proof (bytesBE_length 4 v) as Hl.
  rewrite <- Hl at 1. apply firstn_exact.
Qed.

(** C9. Serialization round-trips.  A certificate description and a
    store whose members are representable in the stream format are read
    back unchanged from the bytes that serialize writes, into any target
    object, and the bytes that follow are left in the stream.  The bytes
    written start with the version integer, and the reader gives the same
    object whatever integer stands in its place. *)
Theorem C9_serialization_round_trip :
  forall (i target : PDFCertificateInfo) (st storeTarget : PDFCertificateStore)
         (rest : Stream) (v : Z),
    valid_info i -> targetInfo target ->
    valid_store st ->
    Forall (fun e => targetInfo (info e)) (m_certificates storeTarget) ->
    deserialize_info target (serialize_info i [] ++ rest) = Some (i, rest)
    /\ deserialize_store storeTarget (serialize_store st [] ++ rest) = Some (st, rest)
    /\ firstn 4 (serialize_info i []) = write_int32 persist_version
    /\ firstn 4 (serialize_store st []) = write_int32 persist_version
    /\ deserialize_info target (write_int32 v ++ skipn 4 (serialize_info i []) ++ rest)
       = Some (i, rest)
    /\ deserialize_store storeTarget (write_int32 v ++ skipn 4 (serialize_store st []) ++ rest)
       = Some (st, rest).
Proof.
  intros i target st storeTarget rest v Hi Ht Hst Hstt.
  rewrite serialize_info_fields, serialize_store_fields, !skipn_version, !firstn_version.
  rewrite <- !app_assoc.
  repeat split; try reflexivity.
  - now apply deserialize_info_fields.
  - now apply deserialize_store_fields.
  - now apply deserialize_info_fields.
  - now apply deserialize_store_fields.
Qed.

End DataStreamFacts.

(* ================================================================== *)
(** * The properties on concrete inputs *)
(* ================================================================== *)

Module Examples.
Import SmallOpenSSL.
Import CertificateStore.
Import AssemblerFacts.
Import DataStreamFacts.

Ltac each_range tac := repeat (apply Forall_cons; [tac|]); apply Forall_nil.
Ltac ranges_ok := each_range ltac:(split; unfold is_int64; cbn; lia).
Ltac ranges_pass := split; [cbn; lia|each_range ltac:(right; cbn; lia)].

Lemma exampleFile_fits : QByteArray_size exampleFile <= INT_MAX.
Proof. cbn. lia. Qed.

Lemma exampleRanges_pass : passesBoundsChecks exampleFile exampleRanges.
Proof. ranges_pass. Qed.

(** The two ranges around the contents give the 11 bytes around them. *)
Lemma C3_signed_bytes_concatenation_witness :
  let signature := exampleSignature "adbe.pkcs7.detached" exampleRanges in
  (QByteArray_size exampleFile <= INT_MAX
   /\ Forall wfByteRange (m_byteRanges signature)
   /\ passesBoundsChecks exampleFile (m_byteRanges signature))
  /\ ((exists r', getSignedDataBuffer signature exampleFile emptyResult []
                  = (r', lit "/Sig    end", Some (lit "/Sig    end")))
      /\ QByteArray_size (lit "/Sig    end") = 11).
Proof.
  cbv zeta.
  assert (H1 : QByteArray_size exampleFile <= INT_MAX) by (cbn; lia).
  assert (H2 : Forall wfByteRange exampleRanges) by ranges_ok.
  assert (H3 : passesBoundsChecks exampleFile exampleRanges)
    by ranges_pass.
  split; [auto|].
  exact (@C3_signed_bytes_concatenation
           (exampleSignature "adbe.pkcs7.detached" exampleRanges) exampleFile emptyResult
           H1 H2 H3).
Defined.

(** The second range (17, 5) ends at 22, beyond the 21 bytes of the file. *)
Lemma C5_range_outside_file_witness :
  let signature := exampleSignature "adbe.pkcs7.detached" [mkByteRange 0 7; mkByteRange 17 5] in
  (Forall wfByteRange (m_byteRanges signature)
   /\ exists range, In range (m_byteRanges signature)
                    /\ SignatureDictionary.size range <> 0
                    /\ (offset range < 0
                        \/ offset range + SignatureDictionary.size range > QByteArray_size exampleFile))
  /\ exists r' out',
      getSignedDataBuffer signature exampleFile emptyResult [] = (r', out', None)
      /\ r' = addSignatureDataCoveredBySignatureMissingError emptyResult
      /\ hasFlag r' Error_Signature_DataCoveredBySignatureMissing = true.
Proof.
  cbv zeta.
  assert (H1 : Forall wfByteRange [mkByteRange 0 7; mkByteRange 17 5]) by ranges_ok.
  assert (H2 : exists range, In range [mkByteRange 0 7; mkByteRange 17 5]
                    /\ SignatureDictionary.size range <> 0
                    /\ (offset range < 0
                        \/ offset range + SignatureDictionary.size range > QByteArray_size exampleFile)).
  { exists (mkByteRange 17 5). cbn. repeat split; [tauto|lia|lia]. }
  split; [auto|].
  exact (@C5_range_outside_file
           (exampleSignature "adbe.pkcs7.detached" [mkByteRange 0 7; mkByteRange 17 5])
           exampleFile emptyResult [] H1 H2).
Defined.

Definition exampleForm : PDFForm :=
  mkForm true false
    [ textField;
      exampleField "adbe.foo.unknown" exampleRanges;
      exampleField "adbe.pkcs7.detached" exampleRanges ].

Lemma C6_one_result_per_signature_field_witness :
  (enableVerification trustingParameters = true
   /\ isAcroForm exampleForm || isXFAForm exampleForm = true)
  /\ let signatureFields :=
       filter VerifySignaturesFacts.isSignatureField (formFields exampleForm) in
     let results := verifySignatures exampleForm exampleFile trustingParameters in
     results = map (verifyField exampleFile trustingParameters) signatureFields
     /\ List.length results = List.length signatureFields
     /\ map m_signatureFieldReference results = map getSelfReference signatureFields
     /\ map m_signatureFieldQualifiedName results = map getFullyQualifiedName signatureFields.
Proof.
  split; [split; reflexivity|].
  exact (@VerifySignaturesFacts.C6_one_result_per_signature_field smallOpenSSL
           exampleForm exampleFile trustingParameters eq_refl eq_refl).
Defined.

Lemma C7_disabled_or_no_form_witness :
  (enableVerification (mkParameters None false false false) = false
   \/ (isAcroForm exampleForm = false /\ isXFAForm exampleForm = false))
  /\ verifySignatures exampleForm exampleFile (mkParameters None false false false) = [].
Proof.
  split; [left; reflexivity|].
  exact (@VerifySignaturesFacts.C7_disabled_or_no_form smallOpenSSL
           exampleForm exampleFile (mkParameters None false false false) (or_introl eq_refl)).
Defined.

(** A description as the extractor gives it, and a store holding it. *)
Definition exampleInfo : PDFCertificateInfo :=
  setName (getCertificateInfo exampleContents) CommonName (tr "Example Signer").

Definition exampleStore : PDFCertificateStore :=
  snd (add (snd (add emptyStore System defaultInfo)) User exampleInfo).

Ltac valid_strings :=
  repeat (apply Forall_cons;
          [split; [repeat (apply Forall_cons; [lia|]); apply Forall_nil|vm_compute; reflexivity]|]);
  apply Forall_nil.

Ltac valid_info_tac :=
  unfold valid_info, valid_QDateTime, valid_QByteArray, is_int32, is_int64;
  vm_compute m_nameEntries; vm_compute m_version; vm_compute m_keySize;
  vm_compute m_keyUsage; vm_compute dt_julianDay; vm_compute dt_msecs;
  vm_compute dt_timeSpec; vm_compute QByteArray_size; vm_compute INT_MAX;
  vm_compute NameEnd; vm_compute Qt_LocalTime; vm_compute Qt_UTC;
  repeat match goal with |- _ /\ _ => split end;
  try lia; try reflexivity; try (left; reflexivity); try (right; reflexivity);
  try valid_strings; try (unfold INT_MAX; lia).

Lemma exampleInfo_valid : valid_info exampleInfo.
Proof. valid_info_tac. Qed.

Lemma defaultInfo_valid : valid_info defaultInfo.
Proof. valid_info_tac. Qed.

Lemma exampleStore_valid : valid_store exampleStore.
Proof.
  split; [|vm_compute; reflexivity].
  change (m_certificates exampleStore)
    with [mkEntry System defaultInfo; mkEntry User exampleInfo].
  apply Forall_cons; [exact defaultInfo_valid|].
  apply Forall_cons; [exact exampleInfo_valid|]. apply Forall_nil.
Qed.

Lemma C9_serialization_round_trip_witness :
  (valid_info exampleInfo /\ targetInfo defaultInfo /\ valid_store exampleStore
   /\ Forall (fun e => targetInfo (info e)) (m_certificates emptyStore))
  /\ (deserialize_info defaultInfo (serialize_info exampleInfo [] ++ [])
      = Some (exampleInfo, [])
      /\ deserialize_store emptyStore (serialize_store exampleStore [] ++ [])
         = Some (exampleStore, [])
      /\ firstn 4 (serialize_info exampleInfo []) = write_int32 persist_version
      /\ firstn 4 (serialize_store exampleStore []) = write_int32 persist_version
      /\ deserialize_info defaultInfo
           (write_int32 7 ++ skipn 4 (serialize_info exampleInfo []) ++ [])
         = Some (exampleInfo, [])
      /\ deserialize_store emptyStore
           (write_int32 7 ++ skipn 4 (serialize_store exampleStore []) ++ [])
         = Some (exampleStore, [])).
Proof.
  assert (H4 : Forall (fun e => targetInfo (info e)) (m_certificates emptyStore))
    by constructor.
  split; [exact (conj exampleInfo_valid (conj defaultInfo_target (conj exampleStore_valid H4)))|].
  exact (@C9_serialization_round_trip exampleInfo defaultInfo exampleStore emptyStore [] 7
           exampleInfo_valid defaultInfo_target exampleStore_valid H4).
Defined.

Lemma C10_add_unparsable_certificate_witness :
  d2i_X509 (lit "not a certificate") = None
  /\ addCertificate exampleStore User (lit "not a certificate") = (false, exampleStore).
Proof.
  split; [reflexivity|].
  exact (@StoreFacts.C10_add_unparsable_certificate smallOpenSSL exampleStore User
           (lit "not a certificate") eq_refl).
Defined.

Definition detachedHandler (parameters : Parameters) (byteRanges : list ByteRange) :=
  mkHandler PDFSignatureHandler_adbe_pkcs7_detached
            (exampleField "adbe.pkcs7.detached" byteRanges) exampleFile parameters.

(** A signer found in the trusted store and ranges covering the file:
    Certificate_OK, Signature_OK and OK, no error and no warning. *)
Example trusted_signature_is_ok :
  let r := verify (detachedHandler trustingParameters exampleRanges) in
  m_flags r = 7 /\ isValid r = true /\ m_errors r = [] /\ m_warnings r = [].
Proof. vm_compute. repeat split. Qed.

(** Without a trusted store the signer is self-signed: Signature_OK and
    Error_Certificate_SelfSigned, OK not set. *)
Example self_signed_is_not_ok :
  let r := verify (detachedHandler plainParameters exampleRanges) in
  isValid r = false /\ isSignatureValid r = true /\ isCertificateValid r = false
  /\ hasFlag r Error_Certificate_SelfSigned = true
  /\ m_errors r = [tr "Certificate is self-signed."] /\ m_warnings r = [].
Proof. vm_compute. repeat split. Qed.

(** Four bytes after the signed ranges: OK stays set and the warning
    reports them. *)
Example uncovered_bytes_warning :
  let r := verify (detachedHandler trustingParameters [mkByteRange 0 7]) in
  isValid r = true
  /\ hasFlag r Warning_Signature_NotCoveredBytes = true
  /\ m_warnings r = [tr "4 bytes are not covered by signature."].
Proof. vm_compute. repeat split. Qed.

(** An unknown subfilter gives one result carrying Error_NoHandler. *)
Example unknown_subfilter :
  map (fun r => (m_flags r, m_signatureFieldReference r, m_errors r))
      (verifySignatures (mkForm true false [exampleField "adbe.foo.unknown" exampleRanges])
                        exampleFile trustingParameters)
  = [(flagValue Error_NoHandler, (12, 0),
      [tr "No signature handler for signature format 'adbe.foo.unknown'."])].
Proof. vm_compute. reflexivity. Qed.

(** The second insertion of a description returns true and appends nothing. *)
Example add_again_returns_true :
  add (mkStore [mkEntry User exampleInfo]) System exampleInfo
  = (true, mkStore [mkEntry User exampleInfo]).
Proof. vm_compute. reflexivity. Qed.

Example exampleRanges_wellFormed : wellFormedFrom 0 exampleFile exampleRanges.
Proof. cbn. lia. Qed.

End Examples.

(* ================================================================== *)
(** * How a verification result evolves *)
(* ================================================================== *)

Module ResultEvolution.
Import FlagFacts.
Import EngineFacts.

(** The error flags: the one of verifySignatures and the two groups. *)
Definition errorFlags : list VerificationFlag :=
  Error_NoHandler :: certificateErrors ++ signatureErrors.

(** The operations that the handlers apply to a result. *)
Inductive step : PDFSignatureVerificationResult -> PDFSignatureVerificationResult -> Prop :=
| step_error r f message : In f errorFlags -> step r (addError r f message)
| step_warning r count : step r (addSignatureNotCoveredBytesWarning r count)
| step_info r i : step r (addCertificateInfo r i)
| step_flag r f : In f [OK; Certificate_OK; Signature_OK] -> step r (setFlag r f true)
| step_reference r reference : step r (setSignatureFieldReference r reference)
| step_name r name : step r (setSignatureFieldQualifiedName r name).

Inductive evolves : PDFSignatureVerificationResult -> PDFSignatureVerificationResult -> Prop :=
| evolves_refl r : evolves r r
| evolves_step r r' r'' : evolves r r' -> step r' r'' -> evolves r r''.

Lemma evolves_one r r' : step r r' -> evolves r r'.
Proof. intros H. eapply evolves_step; [apply evolves_refl|exact H]. Qed.

Lemma evolves_trans r1 r2 r3 : evolves r1 r2 -> evolves r2 r3 -> evolves r1 r3.
Proof.
  intros H12 H23. induction H23 as [|r2 r' r'' H IH Hs]; [exact H12|].
  eapply evolves_step; [apply IH, H12|exact Hs].
Qed.

Create HintDb evolution discriminated.

#[local] Hint Resolve evolves_refl : evolution.
#[local] Hint Extern 1 (evolves _ (addError _ _ _)) =>
  (apply evolves_one, step_error; cbn; tauto) : evolution.
#[local] Hint Extern 1 (evolves _ (addSignatureNotCoveredBytesWarning _ _)) =>
  (apply evolves_one, step_warning) : evolution.
#[local] Hint Extern 1 (evolves _ (addCertificateInfo _ _)) =>
  (apply evolves_one, step_info) : evolution.
#[local] Hint Extern 1 (evolves _ (setFlag _ _ true)) =>
  (apply evolves_one, step_flag; cbn; tauto) : evolution.

Ltac evolution := unfold_adders; repeat break_match; auto with evolution.

Lemma validate_evolves r : evolves r (validate r).
Proof.
  unfold validate. destruct (isCertificateValid r && isSignatureValid r); [|apply evolves_refl].
  change (withFlags r (QFlags_setFlag (m_flags r) (flagValue OK) true)) with (setFlag r OK true).
  auto with evolution.
Qed.

Lemma setCertificateOK_evolves r : evolves r (setCertificateOK r).
Proof. unfold setCertificateOK. evolution. Qed.

Lemma setSignatureOK_evolves r : evolves r (setSignatureOK r).
Proof. unfold setSignatureOK. evolution. Qed.

Lemma getSignedDataBuffer_evolves signature sourceData r outputBuffer :
  evolves r (fst (fst (getSignedDataBuffer signature sourceData r outputBuffer))).
Proof. unfold getSignedDataBuffer. repeat break_match; cbn [fst]; evolution. Qed.

Section WithOpenSSL.
Context {ssl : OpenSSL}.

Lemma initializeResult_evolves h r : evolves r (initializeResult h r).
Proof.
  unfold initializeResult. eapply evolves_step; [apply evolves_one, step_reference|].
  apply step_name.
Qed.

Lemma addVerificationError_evolves r error : evolves r (addVerificationError r error).
Proof. unfold addVerificationError. evolution. Qed.

Lemma addCertificateInfos_evolves certificates :
  forall r, evolves r (addCertificateInfos r certificates).
Proof.
  unfold addCertificateInfos.
  induction certificates as [|c cs IH]; intros r; cbn [fold_left]; [apply evolves_refl|].
  eapply evolves_trans; [|apply IH]. auto with evolution.
Qed.

Lemma verifyChain_evolves h context certificates r :
  evolves r (snd (verifyChain h context certificates r)).
Proof.
  unfold verifyChain. repeat break_match; cbn [snd].
  - eapply evolves_trans; [apply addVerificationError_evolves|apply addCertificateInfos_evolves].
  - apply addCertificateInfos_evolves.
Qed.

Lemma verifyCertificateSigners_evolves h x509store certificates signerInfo :
  forall context r,
    evolves r (verifyCertificateSigners h x509store certificates signerInfo context r).
Proof.
  induction signerInfo as [|s rest IH]; intros context r; cbn [verifyCertificateSigners].
  - apply evolves_refl.
  - destruct (X509_find_by_issuer_and_serial certificates s); [|evolution].
    destruct (X509_STORE_CTX_init context x509store x certificates) as [initialized context1].
    destruct initialized; cbn [negb]; [|evolution].
    destruct (X509_STORE_CTX_set_purpose context1 X509_PURPOSE_SMIME_SIGN) as [purposeSet context2].
    destruct purposeSet; cbn [negb]; [|evolution].
    pose proof (verifyChain_evolves h context2 certificates r) as Hc.
    destruct (verifyChain h context2 certificates r) as [context3 r1]. cbn [snd] in Hc.
    eapply evolves_trans; [exact Hc|apply IH].
Qed.

Lemma verifyCertificate_evolves h r : evolves r (verifyCertificate h r).
Proof.
  unfold verifyCertificate. eapply evolves_trans; [|apply setCertificateOK_evolves].
  repeat break_match; try apply verifyCertificateSigners_evolves; evolution.
Qed.

Lemma getSignedDataBufferOf_evolves h r outputBuffer :
  evolves r (fst (fst (getSignedDataBufferOf h r outputBuffer))).
Proof.
  unfold getSignedDataBufferOf, getSignedDataBuffer_sha1.
  destruct (handlerClass h); try apply getSignedDataBuffer_evolves.
  pose proof (getSignedDataBuffer_evolves (getSignature (m_signatureField h))
                (m_sourceData h) r []) as Hf.
  destruct (getSignedDataBuffer _ _ r []) as [[r1 temporaryBuffer] [bio|]]; exact Hf.
Qed.

Lemma verifySignatureSigners_evolves pkcs7 dataBio certificates signerInfo :
  forall r, evolves r (verifySignatureSigners pkcs7 dataBio certificates signerInfo r).
Proof.
  induction signerInfo as [|s rest IH]; intros r; cbn [verifySignatureSigners].
  - apply evolves_refl.
  - destruct (X509_find_by_issuer_and_serial certificates s); [|evolution].
    destruct (PKCS7_signatureVerify dataBio pkcs7 s x) as [verification reason].
    eapply evolves_trans; [|apply IH]. evolution.
Qed.

Lemma verifySignature_evolves h r : evolves r (verifySignature h r).
Proof.
  unfold verifySignature. eapply evolves_trans; [|apply setSignatureOK_evolves].
  destruct (d2i_PKCS7 _) as [pkcs7|]; [|evolution].
  pose proof (getSignedDataBufferOf_evolves h r []) as Hf.
  destruct (getSignedDataBufferOf h r []) as [[r1 buffer] [inputBuffer|]]; cbn [fst] in Hf;
    [|exact Hf].
  eapply evolves_trans; [exact Hf|].
  repeat break_match; try apply verifySignatureSigners_evolves; evolution.
Qed.

Lemma verifyRSACertificate_evolves h r : evolves r (verifyRSACertificate h r).
Proof.
  unfold verifyRSACertificate. eapply evolves_trans; [|apply setCertificateOK_evolves].
  destruct (createCertificate h 0); [|evolution].
  destruct (X509_STORE_CTX_init _ _ _ _) as [initialized context1].
  destruct (X509_STORE_CTX_set_purpose _ _) as [purposeSet context2].
  set (r1 := if negb initialized then addCertificateGenericError r else r).
  set (r2 := if negb purposeSet then addCertificateGenericError r1 else r1).
  assert (H1 : evolves r r1) by (subst r1; evolution).
  assert (H2 : evolves r1 r2) by (subst r2; evolution).
  destruct (negb (hasCertificateError r2)).
  - eapply evolves_trans; [exact H1|]. eapply evolves_trans; [exact H2|].
    apply verifyChain_evolves.
  - eapply evolves_trans; eassumption.
Qed.

Lemma verifyRSASignature_evolves h r : evolves r (verifyRSASignature h r).
Proof.
  unfold verifyRSASignature.
  destruct (createCertificate h 0) as [certificate|]; [|evolution].
  destruct (X509_get0_pubkey certificate) as [evpKey|]; [|evolution].
  destruct (EVP_PKEY_get0_RSA evpKey) as [rsa|]; [|evolution].
  pose proof (getSignedDataBufferOf_evolves h r []) as Hf.
  destruct (getSignedDataBufferOf h r []) as [[r1 outputBuffer] [bio|]]; cbn [fst] in Hf;
    [|eapply evolves_trans; [exact Hf|apply setSignatureOK_evolves]].
  eapply evolves_trans; [exact Hf|].
  destruct (d2i_ASN1_OCTET_STRING _) as [encryptedString|].
  - destruct (getMessageDigest outputBuffer encryptedString rsa []) as [[found nid] digest].
    destruct found; [|evolution].
    destruct (RSA_verify nid digest encryptedString rsa) as [verifyValue errorCode].
    eapply evolves_trans; [|apply setSignatureOK_evolves]. evolution.
  - eapply evolves_trans; [|apply setSignatureOK_evolves]. evolution.
Qed.

Lemma verify_evolves h : evolves emptyResult (verify h).
Proof.
  unfold verify. destruct (handlerClass h);
    (eapply evolves_trans; [|apply validate_evolves]);
    (eapply evolves_trans; [apply initializeResult_evolves|]).
  - eapply evolves_trans; [apply verifyCertificate_evolves|apply verifySignature_evolves].
  - eapply evolves_trans; [apply verifyCertificate_evolves|apply verifySignature_evolves].
  - eapply evolves_trans; [apply verifyRSACertificate_evolves|apply verifyRSASignature_evolves].
Qed.

Lemma verifyField_evolves sourceData parameters signatureField :
  evolves emptyResult (verifyField sourceData parameters signatureField).
Proof.
  unfold verifyField. destruct (createHandler _ _ _) as [h|]; [apply verify_evolves|].
  eapply evolves_trans with (r2 := newResult (getSelfReference signatureField)
                                             (getFullyQualifiedName signatureField)).
  - change (newResult (getSelfReference signatureField) (getFullyQualifiedName signatureField))
      with (setSignatureFieldQualifiedName
              (setSignatureFieldReference emptyResult (getSelfReference signatureField))
              (getFullyQualifiedName signatureField)).
    eapply evolves_step; [apply evolves_one, step_reference|apply step_name].
  - evolution.
Qed.

End WithOpenSSL.

End ResultEvolution.

(* ================================================================== *)
(** * Results never lose anything, and flags agree with messages *)
(* ================================================================== *)

Module ResultInvariants.
Import FlagFacts.
Import EngineFacts.
Import ResultEvolution.

(** [r'] has every flag of [r], and the lists of [r'] start with those of
    [r]: nothing was cleared or removed. *)
Definition extends (r r' : PDFSignatureVerificationResult) : Prop :=
  (forall f, hasFlag r f = true -> hasFlag r' f = true)
  /\ (exists errors, m_errors r' = m_errors r ++ errors)
  /\ (exists warnings, m_warnings r' = m_warnings r ++ warnings)
  /\ (exists infos, m_certificateInfos r' = m_certificateInfos r ++ infos).

(** The messages agree with the flags. *)
Definition consistent (r : PDFSignatureVerificationResult) : Prop :=
  (m_errors r = [] <-> forall f, In f errorFlags -> hasFlag r f = false)
  /\ (m_warnings r = [] <-> hasFlag r Warning_Signature_NotCoveredBytes = false).

Lemma extends_refl r : extends r r.
Proof.
  split; [auto|]. repeat split; exists []; now rewrite app_nil_r.
Qed.

Lemma extends_trans r1 r2 r3 : extends r1 r2 -> extends r2 r3 -> extends r1 r3.
Proof.
  intros (F1 & [e1 E1] & [w1 W1] & [i1 I1]) (F2 & [e2 E2] & [w2 W2] & [i2 I2]).
  split; [auto|]. repeat split.
  - exists (e1 ++ e2). now rewrite E2, E1, app_assoc.
  - exists (w1 ++ w2). now rewrite W2, W1, app_assoc.
  - exists (i1 ++ i2). now rewrite I2, I1, app_assoc.
Qed.

Lemma step_extends r r' : step r r' -> extends r r'.
Proof.
  intros H. destruct H; (split; [intros g Hg|]).
  - rewrite hasFlag_addError, Hg. reflexivity.
  - repeat split; cbn; [eexists; reflexivity|exists []|exists []]; now rewrite app_nil_r.
  - rewrite hasFlag_warning, Hg. reflexivity.
  - repeat split; cbn; [exists []; now rewrite app_nil_r|eexists; reflexivity|
                        exists []; now rewrite app_nil_r].
  - exact Hg.
  - repeat split; cbn; [exists []; now rewrite app_nil_r|exists []; now rewrite app_nil_r|
                        eexists; reflexivity].
  - rewrite hasFlag_setFlag_true, Hg. reflexivity.
  - repeat split; cbn; exists []; now rewrite app_nil_r.
  - exact Hg.
  - repeat split; cbn; exists []; now rewrite app_nil_r.
  - exact Hg.
  - repeat split; cbn; exists []; now rewrite app_nil_r.
Qed.

Lemma evolves_extends r r' : evolves r r' -> extends r r'.
Proof.
  induction 1 as [|r r' r'' H IH Hs]; [apply extends_refl|].
  eapply extends_trans; [exact IH|now apply step_extends].
Qed.

Lemma errorFlag_not_warning f :
  In f errorFlags -> (flagBit Warning_Signature_NotCoveredBytes =? flagBit f) = false.
Proof.
  intros Hin. apply Z.eqb_neq. intros E. apply flagBit_inj in E. subst f.
  cbn in Hin. intuition discriminate.
Qed.

Lemma step_consistent r r' : step r r' -> consistent r -> consistent r'.
Proof.
  intros H [He Hw]. destruct H as [r f message Hin|r count|r i|r f Hin|r reference|r name].
  - split.
    + split.
      * intros H. cbn in H. now destruct (m_errors r).
      * intros H. specialize (H f Hin). rewrite hasFlag_addError, Z.eqb_refl, orb_true_r in H.
        discriminate.
    + rewrite hasFlag_addError, (errorFlag_not_warning Hin), orb_false_r. exact Hw.
  - split.
    + cbn [m_errors addSignatureNotCoveredBytesWarning]. rewrite He.
      split; intros H f Hin; specialize (H f Hin).
      * rewrite hasFlag_warning, H. cbn [orb]. rewrite Z.eqb_sym.
        now apply errorFlag_not_warning.
      * rewrite hasFlag_warning in H. now apply orb_false_iff in H.
    + split.
      * intros H. cbn in H. now destruct (m_warnings r).
      * rewrite hasFlag_warning, Z.eqb_refl, orb_true_r. discriminate.
  - exact (conj He Hw).
  - assert (Hne : forall g, In g errorFlags \/ g = Warning_Signature_NotCoveredBytes ->
                            hasFlag (setFlag r f true) g = hasFlag r g).
    { intros g Hg. rewrite hasFlag_setFlag_true.
      replace (flagBit g =? flagBit f) with false; [apply orb_false_r|].
      symmetry. apply Z.eqb_neq. intros E. apply flagBit_inj in E. subst g.
      cbn in Hin, Hg. intuition (subst; discriminate). }
    split.
    + cbn [m_errors setFlag withFlags]. rewrite He.
      split; intros H g Hg; specialize (H g Hg).
      * now rewrite Hne by (now left).
      * now rewrite Hne in H by (now left).
    + cbn [m_warnings setFlag withFlags]. rewrite Hne by (now right). exact Hw.
  - exact (conj He Hw).
  - exact (conj He Hw).
Qed.

Lemma emptyResult_consistent : consistent emptyResult.
Proof.
  split; split; intros _; try reflexivity; try (intros f _); apply hasFlag_emptyResult.
Qed.

Lemma evolves_consistent r r' : evolves r r' -> consistent r -> consistent r'.
Proof.
  induction 1 as [|r r' r'' H IH Hs]; intros Hc; [exact Hc|].
  eapply step_consistent; [exact Hs|apply IH, Hc].
Qed.

Section WithOpenSSL.
Context {ssl : OpenSSL}.

(** X1. No phase of a handler and no call of validate clears a flag or
    removes an error, a warning or a certificate description: the result
    after the call has every flag that was set before, and its three lists
    start with the lists before the call. *)
Theorem X1_phases_only_add :
  forall (h : PDFSignatureHandler) (r : PDFSignatureVerificationResult),
    extends r (verifyCertificate h r)
    /\ extends r (verifySignature h r)
    /\ extends r (verifyRSACertificate h r)
    /\ extends r (verifyRSASignature h r)
    /\ extends r (validate r).
Proof.
  intros h r. split; [|split; [|split; [|split]]]; apply evolves_extends.
  - apply verifyCertificate_evolves.
  - apply verifySignature_evolves.
  - apply verifyRSACertificate_evolves.
  - apply verifyRSASignature_evolves.
  - apply validate_evolves.
Qed.

(** X2. In every result that verifySignatures returns, the list of
    errors is empty exactly when no error flag (Error_NoHandler, the
    certificate group, the signature group) is set, and the list of
    warnings is empty exactly when Warning_Signature_NotCoveredBytes is
    not set. *)
Theorem X2_messages_agree_with_flags :
  forall (form : PDFForm) (sourceData : QByteArray) (parameters : Parameters)
         (r : PDFSignatureVerificationResult),
    In r (verifySignatures form sourceData parameters) ->
    (m_errors r = [] <-> forall f, In f errorFlags -> hasFlag r f = false)
    /\ (m_warnings r = [] <-> hasFlag r Warning_Signature_NotCoveredBytes = false).
Proof.
  intros form sourceData parameters r Hin.
  unfold verifySignatures in Hin.
  destruct (enableVerification parameters && (isAcroForm form || isXFAForm form));
    [|destruct Hin].
  rewrite VerifySignaturesFacts.fold_left_snoc in Hin. cbn [app] in Hin.
  apply in_map_iff in Hin. destruct Hin as (field & <- & _).
  apply (evolves_consistent (verifyField_evolves sourceData parameters field)).
  exact emptyResult_consistent.
Qed.

End WithOpenSSL.

End ResultInvariants.

(* ================================================================== *)
(** * Edge cases of the handlers *)
(* ================================================================== *)

Module HandlerEdgeCases.
Import FlagFacts.
Import EngineFacts.
Import AssemblerFacts.

(** The first certificate of the Cert entry is absent or does not parse. *)
Definition noFirstCertificate {ssl : OpenSSL} (signature : PDFSignature) : Prop :=
  SignatureDictionary.m_certificates signature = None
  \/ SignatureDictionary.m_certificates signature = Some []
  \/ exists certificateData rest,
      SignatureDictionary.m_certificates signature = Some (certificateData :: rest)
      /\ d2i_X509 certificateData = None.

(** Some range of nonzero length starts before the file or ends after it. *)
Definition someRangeOutside (sourceData : QByteArray) (byteRanges : list ByteRange) : Prop :=
  exists range, In range byteRanges
                /\ SignatureDictionary.size range <> 0
                /\ (offset range < 0
                    \/ offset range + SignatureDictionary.size range > QByteArray_size sourceData).

Lemma getSignedDataBuffer_rejects (signature : PDFSignature) (sourceData : QByteArray)
    (r : PDFSignatureVerificationResult) (outputBuffer : QByteArray) :
  Forall wfByteRange (m_byteRanges signature) ->
  (exists range, In range (m_byteRanges signature) /\ ~ passesRangeCheck sourceData range) ->
  exists out',
    getSignedDataBuffer signature sourceData r outputBuffer
    = (addSignatureDataCoveredBySignatureMissingError r, out', None).
Proof.
  intros Hwf Hbad. unfold getSignedDataBuffer.
  destruct (sumSizes (m_byteRanges signature) >? QByteArray_size sourceData); [eauto|].
  pose proof (@appendRanges_rejects sourceData (m_byteRanges signature) Hwf Hbad
                outputBuffer emptySet) as Hrej.
  destruct (appendRanges sourceData (m_byteRanges signature) outputBuffer emptySet) as [out' [s|]];
    cbn [snd] in Hrej; [discriminate|]. eauto.
Qed.

Lemma someRangeOutside_fails (sourceData : QByteArray) (byteRanges : list ByteRange) :
  someRangeOutside sourceData byteRanges ->
  exists range, In range byteRanges /\ ~ passesRangeCheck sourceData range.
Proof.
  intros (range & Hin & Hnz & Hout). exists range. split; [exact Hin|].
  unfold passesRangeCheck. lia.
Qed.

Lemma flags_after_error (r : PDFSignatureVerificationResult) f message g :
  g <> f -> hasFlag (addError r f message) g = hasFlag r g.
Proof.
  intros Hne. rewrite hasFlag_addError.
  replace (flagBit g =? flagBit f) with false; [apply orb_false_r|].
  symmetry. apply Z.eqb_neq. intros E. now apply flagBit_inj in E.
Qed.

Section WithOpenSSL.
Context {ssl : OpenSSL}.

Lemma setCertificateOK_after_error r f message :
  In f certificateErrors -> setCertificateOK (addError r f message) = addError r f message.
Proof.
  intros Hin. unfold setCertificateOK. now rewrite hasCertificateError_addError.
Qed.

Lemma setSignatureOK_after_error r f message :
  In f signatureErrors -> setSignatureOK (addError r f message) = addError r f message.
Proof.
  intros Hin. unfold setSignatureOK. now rewrite hasSignatureError_addError.
Qed.

Lemma validate_without_signature_ok r :
  hasFlag r Signature_OK = false -> validate r = r.
Proof.
  intros H. unfold validate, isSignatureValid. now rewrite H, andb_false_r.
Qed.

(** X3. When the contents of the signature do not parse as PKCS#7, a
    PKCS#7 handler (adbe.pkcs7.detached or adbe.pkcs7.sha1) returns the
    initialized result with exactly the two errors
    Error_Certificate_Invalid and Error_Signature_Invalid, in this order;
    the byte ranges are never looked at, so no byte-range error and no
    warning can appear, and no OK flag is set. *)
Theorem X3_pkcs7_contents_do_not_parse :
  forall (h : PDFSignatureHandler),
    handlerClass h <> PDFSignatureHandler_adbe_pkcs7_rsa_sha1 ->
    d2i_PKCS7 (m_contents (getSignature (m_signatureField h))) = None ->
    verify h
    = addInvalidSignatureError (addInvalidCertificateError (initializeResult h emptyResult))
    /\ isValid (verify h) = false
    /\ isCertificateValid (verify h) = false
    /\ isSignatureValid (verify h) = false.
Proof.
  intros h Hclass Hparse.
  assert (Hv : verify h = addInvalidSignatureError
                            (addInvalidCertificateError (initializeResult h emptyResult))).
  { unfold verify. destruct (handlerClass h); try contradiction;
      unfold verifyCertificate, verifySignature; rewrite Hparse;
      unfold addInvalidCertificateError, addInvalidSignatureError;
      rewrite setCertificateOK_after_error by (cbn; tauto);
      rewrite setSignatureOK_after_error by (cbn; tauto);
      apply validate_without_signature_ok;
      rewrite !flags_after_error by discriminate; apply initializeResult_flags. }
  rewrite Hv. split; [reflexivity|].
  unfold isValid, isCertificateValid, isSignatureValid,
    addInvalidCertificateError, addInvalidSignatureError.
  rewrite !flags_after_error by discriminate. rewrite !initializeResult_flags. auto.
Qed.

Lemma noFirstCertificate_create h :
  noFirstCertificate (getSignature (m_signatureField h)) -> createCertificate h 0 = None.
Proof.
  unfold createCertificate.
  intros [H|[H|(c & rest & H & Hc)]]; rewrite H; cbn; auto.
Qed.

(** X4. When the Cert entry of the signature is absent, is empty, or its
    first certificate does not parse, the handler of adbe.x509.rsa_sha1
    returns the initialized result with exactly the two errors
    Error_Certificate_Invalid and Error_Signature_SourceCertificateMissing,
    in this order, and no OK flag; neither the byte ranges nor the
    contents are looked at. *)
Theorem X4_rsa_without_first_certificate :
  forall (h : PDFSignatureHandler),
    handlerClass h = PDFSignatureHandler_adbe_pkcs7_rsa_sha1 ->
    noFirstCertificate (getSignature (m_signatureField h)) ->
    verify h
    = addSignatureCertificateMissingError
        (addInvalidCertificateError (initializeResult h emptyResult))
    /\ isValid (verify h) = false
    /\ isCertificateValid (verify h) = false
    /\ isSignatureValid (verify h) = false.
Proof.
  intros h Hclass Hno. apply noFirstCertificate_create in Hno.
  assert (Hv : verify h = addSignatureCertificateMissingError
                            (addInvalidCertificateError (initializeResult h emptyResult))).
  { unfold verify. rewrite Hclass.
    unfold verifyRSACertificate, verifyRSASignature. rewrite Hno.
    unfold addInvalidCertificateError, addSignatureCertificateMissingError.
    rewrite setCertificateOK_after_error by (cbn; tauto).
    apply validate_without_signature_ok.
    rewrite !flags_after_error by discriminate. apply initializeResult_flags. }
  rewrite Hv. split; [reflexivity|].
  unfold isValid, isCertificateValid, isSignatureValid,
    addInvalidCertificateError, addSignatureCertificateMissingError.
  rewrite !flags_after_error by discriminate. rewrite !initializeResult_flags. auto.
Qed.

Lemma getSignedDataBufferOf_rejects h r outputBuffer :
  Forall wfByteRange (m_byteRanges (getSignature (m_signatureField h))) ->
  someRangeOutside (m_sourceData h) (m_byteRanges (getSignature (m_signatureField h))) ->
  exists out',
    getSignedDataBufferOf h r outputBuffer
    = (addSignatureDataCoveredBySignatureMissingError r, out', None).
Proof.
  intros Hwf Hout. apply someRangeOutside_fails in Hout.
  unfold getSignedDataBufferOf, getSignedDataBuffer_sha1.
  destruct (handlerClass h); try (now apply getSignedDataBuffer_rejects).
  destruct (@getSignedDataBuffer_rejects (getSignature (m_signatureField h)) (m_sourceData h)
              r [] Hwf Hout) as [out' ->]. eauto.
Qed.

(** X5. When the contents parse as PKCS#7 but some byte range of nonzero
    length lies outside the file, the signature phase of a PKCS#7 handler
    adds exactly the error Signature_DataCoveredBySignatureMissing to
    what the certificate phase produced: no signer is verified, no
    warning is added, and neither Signature_OK nor OK is set, whatever
    the certificate phase found. *)
Theorem X5_pkcs7_range_outside_file :
  forall (h : PDFSignatureHandler) (pkcs7 : PKCS7),
    handlerClass h <> PDFSignatureHandler_adbe_pkcs7_rsa_sha1 ->
    d2i_PKCS7 (m_contents (getSignature (m_signatureField h))) = Some pkcs7 ->
    Forall wfByteRange (m_byteRanges (getSignature (m_signatureField h))) ->
    someRangeOutside (m_sourceData h) (m_byteRanges (getSignature (m_signatureField h))) ->
    verify h
    = addSignatureDataCoveredBySignatureMissingError
        (verifyCertificate h (initializeResult h emptyResult))
    /\ isSignatureValid (verify h) = false
    /\ isValid (verify h) = false
    /\ m_warnings (verify h) = []
    /\ hasFlag (verify h) Error_Signature_DataCoveredBySignatureMissing = true.
Proof.
  intros h pkcs7 Hclass Hparse Hwf Hout.
  set (r1 := verifyCertificate h (initializeResult h emptyResult)).
  assert (Hframe : forall g, ~ In g (Certificate_OK :: certificateErrors) ->
                             hasFlag r1 g = false).
  { intros g Hg. subst r1.
    rewrite (@verifyCertificate_frame _ h (initializeResult h emptyResult) g Hg).
    apply initializeResult_flags. }
  assert (Hs : verifySignature h r1 = addSignatureDataCoveredBySignatureMissingError r1).
  { unfold verifySignature. rewrite Hparse.
    destruct (@getSignedDataBufferOf_rejects h r1 [] Hwf Hout) as [out' ->].
    unfold addSignatureDataCoveredBySignatureMissingError.
    apply setSignatureOK_after_error. cbn. tauto. }
  assert (Hv : verify h = addSignatureDataCoveredBySignatureMissingError r1).
  { unfold verify. destruct (handlerClass h); try contradiction; fold r1; rewrite Hs;
      apply validate_without_signature_ok;
      unfold addSignatureDataCoveredBySignatureMissingError;
      rewrite flags_after_error by discriminate;
      apply Hframe; cbn; intuition discriminate. }
  rewrite Hv. split; [reflexivity|].
  unfold isSignatureValid, isValid, addSignatureDataCoveredBySignatureMissingError.
  rewrite !flags_after_error by discriminate.
  rewrite !Hframe by (cbn; intuition discriminate).
  repeat split.
  - cbn [m_warnings addError].
    pose proof (ResultInvariants.evolves_consistent
                  (ResultEvolution.evolves_trans
                     (ResultEvolution.initializeResult_evolves h emptyResult)
                     (ResultEvolution.verifyCertificate_evolves h _))
                  ResultInvariants.emptyResult_consistent) as [_ Hw].
    fold r1 in Hw. apply Hw. apply Hframe. cbn. intuition discriminate.
  - rewrite hasFlag_addError, Z.eqb_refl. apply orb_true_r.
Qed.

(** Whether the verification of a signer fails (its certificate is found
    and PKCS7_signatureVerify does not return a positive value). *)
Definition signerFails (pkcs7 : PKCS7) (dataBio : BIO) (certificates : list X509)
    (signerInfoValue : PKCS7_SIGNER_INFO) : bool :=
  match X509_find_by_issuer_and_serial certificates signerInfoValue with
  | Some signer => fst (PKCS7_signatureVerify dataBio pkcs7 signerInfoValue signer) <=? 0
  | None => false
  end.

Definition signerFound (certificates : list X509) (signerInfoValue : PKCS7_SIGNER_INFO) : Prop :=
  X509_find_by_issuer_and_serial certificates signerInfoValue <> None.

(** X6. The loop over the signers in the signature phase goes on after a
    signer whose signature does not verify and stops at a signer whose
    certificate is not found.  When every certificate is found, the loop
    adds one error per failing signer; when the certificates of the
    signers [before] are found and the one of [missing] is not, the loop
    does what it does on [before] and then adds
    Error_Signature_SourceCertificateMissing, and the signers after
    [missing] are not verified. *)
Theorem X6_signature_signers_loop :
  forall (pkcs7 : PKCS7) (dataBio : BIO) (certificates : list X509)
         (before after : list PKCS7_SIGNER_INFO) (missing : PKCS7_SIGNER_INFO)
         (r : PDFSignatureVerificationResult),
    Forall (signerFound certificates) before ->
    X509_find_by_issuer_and_serial certificates missing = None ->
    List.length (m_errors (verifySignatureSigners pkcs7 dataBio certificates before r))
    = (List.length (m_errors r)
       + List.length (filter (signerFails pkcs7 dataBio certificates) before))%nat
    /\ verifySignatureSigners pkcs7 dataBio certificates (before ++ missing :: after) r
       = addSignatureCertificateMissingError
           (verifySignatureSigners pkcs7 dataBio certificates before r).
Proof.
  intros pkcs7 dataBio certificates before after missing r Hfound Hmissing.
  revert r. induction Hfound as [|s before Hs Hbefore IH]; intros r.
  - cbn [verifySignatureSigners filter app List.length]. rewrite Hmissing. split; [lia|reflexivity].
  - cbn [verifySignatureSigners filter app]. unfold signerFails at 1. unfold signerFound in Hs.
    destruct (X509_find_by_issuer_and_serial certificates s) as [signer|]; [|contradiction].
    destruct (PKCS7_signatureVerify dataBio pkcs7 s signer) as [verification reason].
    cbn [fst].
    match goal with
    | |- context [verifySignatureSigners _ _ _ before ?x] => set (r1 := x)
    end.
    destruct (IH r1) as [Hlen Heq]. rewrite Hlen, Heq. split; [|reflexivity].
    subst r1. destruct (verification <=? 0); [|reflexivity].
    destruct (reason =? PKCS7_R_DIGEST_FAILURE); cbn; rewrite length_app; cbn; lia.
Qed.

(** X7. The loop over the signers in the certificate phase stops at a
    signer whose certificate is not found: the signers after it have no
    effect on the result. *)
Theorem X7_certificate_signers_stop_at_missing :
  forall (h : PDFSignatureHandler) (x509store certificates : list X509)
         (before after : list PKCS7_SIGNER_INFO) (missing : PKCS7_SIGNER_INFO)
         (context : X509_STORE_CTX) (r : PDFSignatureVerificationResult),
    X509_find_by_issuer_and_serial certificates missing = None ->
    verifyCertificateSigners h x509store certificates (before ++ missing :: after) context r
    = verifyCertificateSigners h x509store certificates (before ++ [missing]) context r
    /\ hasCertificateError
         (verifyCertificateSigners h x509store certificates (before ++ missing :: after) context r)
       = true.
Proof.
  intros h x509store certificates before after missing context r Hmissing.
  revert context r. induction before as [|s before IH]; intros context r;
    cbn [app verifyCertificateSigners].
  - rewrite Hmissing. split; [reflexivity|].
    apply hasCertificateError_addError. cbn. tauto.
  - destruct (X509_find_by_issuer_and_serial certificates s) as [signer|];
      [|split; [reflexivity|apply hasCertificateError_addError; cbn; tauto]].
    destruct (X509_STORE_CTX_init context x509store signer certificates) as [[|] context1];
      cbn [negb]; [|split; [reflexivity|apply hasCertificateError_addError; cbn; tauto]].
    destruct (X509_STORE_CTX_set_purpose context1 X509_PURPOSE_SMIME_SIGN) as [[|] context2];
      cbn [negb]; [|split; [reflexivity|apply hasCertificateError_addError; cbn; tauto]].
    destruct (verifyChain h context2 certificates r) as [context3 r1]. apply IH.
Qed.

End WithOpenSSL.

End HandlerEdgeCases.

(* ================================================================== *)
(** * More on the byte-range assembler *)
(* ================================================================== *)

Module AssemblerCoverage.
Import IntervalFacts.
Import AssemblerFacts.

(** The interval that [getSignedDataBuffer] adds for the contents: where
    their hexadecimal encoding is found in the file, widened by the
    delimiters around it; [None] when it is not found. *)
Definition contentsInterval (sourceData contents : QByteArray) : option (Z * Z) :=
  let hexContents := toHex contents in
  let index := indexOf sourceData hexContents in
  let index := if index =? -1 then indexOf sourceData (toUpper hexContents) else index in
  if negb (index =? -1) then
    let firstByteIndex := index in
    let lastByteIndex := wrap32 (wrap32 (index + QByteArray_size hexContents) - 1) in
    let firstByteIndex :=
      if (firstByteIndex >? 0) && byte_eqb (at_ sourceData (wrap32 (firstByteIndex - 1))) "<"%byte
      then wrap32 (firstByteIndex - 1) else firstByteIndex in
    let lastByteIndex :=
      if (wrap32 (lastByteIndex + 1) <? QByteArray_size sourceData)
         && byte_eqb (at_ sourceData (wrap32 (lastByteIndex + 1))) ">"%byte
      then wrap32 (lastByteIndex + 1) else lastByteIndex in
    Some (firstByteIndex, lastByteIndex)
  else None.

(** A position of the file that a byte range or the interval of the
    contents holds. *)
Definition positionCovered (signature : PDFSignature) (sourceData : QByteArray) (x : Z) : Prop :=
  (exists range, In range (m_byteRanges signature)
                 /\ offset range <= x < offset range + SignatureDictionary.size range)
  \/ (exists first last, contentsInterval sourceData (m_contents signature) = Some (first, last)
                         /\ first <= x <= last).

Definition positionCoveredb (signature : PDFSignature) (sourceData : QByteArray) (x : Z) : bool :=
  existsb (fun range => (offset range <=? x) && (x <? offset range + SignatureDictionary.size range))
          (m_byteRanges signature)
  || match contentsInterval sourceData (m_contents signature) with
     | Some (first, last) => (first <=? x) && (x <=? last)
     | None => false
     end.

(** The positions 0, 1, ..., n - 1. *)
Definition positions (n : nat) : list Z := map Z.of_nat (seq 0 n).

(** The number of positions of the file that are not covered. *)
Definition uncoveredCount (signature : PDFSignature) (sourceData : QByteArray) : Z :=
  Z.of_nat (List.length
              (filter (fun x => negb (positionCoveredb signature sourceData x))
                      (positions (List.length sourceData)))).

(** The signature without its ranges of length zero. *)
Definition withoutEmptyRanges (signature : PDFSignature) : PDFSignature :=
  mkSignature (m_type signature) (m_filter signature) (m_subfilter signature)
              (m_contents signature) (SignatureDictionary.m_certificates signature)
              (filter (fun r => negb (SignatureDictionary.size r =? 0)) (m_byteRanges signature)).

Lemma coverContents_interval (sourceData contents : QByteArray) (s : PDFClosedIntervalSet) :
  coverContents sourceData contents s
  = match contentsInterval sourceData contents with
    | Some (first, last) => addInterval s first last
    | None => s
    end.
Proof.
  unfold coverContents, contentsInterval.
  destruct (negb (_ =? -1)); reflexivity.
Qed.

Lemma passesRangeCheck_dec (sourceData : QByteArray) (r : ByteRange) :
  {passesRangeCheck sourceData r} + {~ passesRangeCheck sourceData r}.
Proof.
  unfold passesRangeCheck.
  destruct (Z.eq_dec (SignatureDictionary.size r) 0) as [Hz|Hnz]; [left; now left|].
  destruct (Z_le_dec 0 (offset r)) as [H1|H1]; [|right; lia].
  destruct (Z_lt_dec 0 (SignatureDictionary.size r)) as [H2|H2]; [|right; lia].
  destruct (Z_le_dec (offset r + SignatureDictionary.size r) (QByteArray_size sourceData))
    as [H3|H3]; [left; right; auto|right; lia].
Qed.

Lemma appendRanges_some (sourceData : QByteArray) (byteRanges : list ByteRange) :
  Forall wfByteRange byteRanges ->
  forall outputBuffer covered,
    snd (appendRanges sourceData byteRanges outputBuffer covered) <> None ->
    Forall (passesRangeCheck sourceData) byteRanges.
Proof.
  intros Hwf outputBuffer covered Hsome.
  apply Forall_forall. intros range Hin.
  destruct (passesRangeCheck_dec sourceData range) as [Hp|Hn]; [exact Hp|].
  exfalso. apply Hsome. apply appendRanges_rejects; [exact Hwf|eauto].
Qed.

(** X8. For ranges with PDFInteger fields and a file whose size is an
    int, the assembler returns a buffer exactly when the sum of the range
    sizes (as the code computes it) is at most the size of the file and
    every range is empty or has a positive length and lies within the
    file.  So ranges that each lie within the file are still rejected
    when their sizes add up to more than the file, and a range of
    negative length is rejected. *)
Theorem X8_buffer_iff_checks_pass :
  forall (signature : PDFSignature) (sourceData : QByteArray)
         (r : PDFSignatureVerificationResult) (outputBuffer : QByteArray),
    QByteArray_size sourceData <= INT_MAX ->
    Forall wfByteRange (m_byteRanges signature) ->
    (snd (getSignedDataBuffer signature sourceData r outputBuffer) <> None
     <-> passesBoundsChecks sourceData (m_byteRanges signature)).
Proof.
  intros signature sourceData r outputBuffer HF Hwf. split.
  - unfold getSignedDataBuffer, passesBoundsChecks.
    destruct (Z.gtb_spec (sumSizes (m_byteRanges signature)) (QByteArray_size sourceData));
      cbn [snd]; [congruence|].
    intros Hsome. split; [lia|].
    apply (@appendRanges_some sourceData _ Hwf outputBuffer emptySet).
    destruct (appendRanges sourceData (m_byteRanges signature) outputBuffer emptySet)
      as [out' [s|]]; cbn [snd] in *; congruence.
  - intros Hp.
    destruct (@getSignedDataBuffer_accepts signature sourceData r outputBuffer HF Hwf Hp)
      as (_ & _ & ->).
    cbn [snd]. discriminate.
Qed.

Lemma sumSizes_int64 (byteRanges : list ByteRange) :
  forall a, is_int64 a ->
    is_int64 (fold_left (fun size byteRange => wrap64 (size + SignatureDictionary.size byteRange))
                        byteRanges a).
Proof.
  induction byteRanges as [|r rs IH]; intros a Ha; cbn [fold_left]; [exact Ha|].
  apply IH. wrap_lia.
Qed.

Lemma sumSizes_filter (byteRanges : list ByteRange) :
  forall a, is_int64 a ->
    fold_left (fun size byteRange => wrap64 (size + SignatureDictionary.size byteRange))
              (filter (fun r => negb (SignatureDictionary.size r =? 0)) byteRanges) a
    = fold_left (fun size byteRange => wrap64 (size + SignatureDictionary.size byteRange))
                byteRanges a.
Proof.
  induction byteRanges as [|r rs IH]; intros a Ha; cbn [fold_left filter]; [reflexivity|].
  destruct (Z.eqb_spec (SignatureDictionary.size r) 0) as [Hz|Hnz]; cbn [negb fold_left].
  - rewrite Hz. replace (wrap64 (a + 0)) with a by wrap_lia. now apply IH.
  - apply IH. wrap_lia.
Qed.

Lemma appendRanges_filter (sourceData : QByteArray) (byteRanges : list ByteRange) :
  Forall wfByteRange byteRanges ->
  forall outputBuffer covered,
    appendRanges sourceData (filter (fun r => negb (SignatureDictionary.size r =? 0)) byteRanges)
                 outputBuffer covered
    = appendRanges sourceData byteRanges outputBuffer covered.
Proof.
  induction 1 as [|r rs Hr Hrs IH]; intros outputBuffer covered; cbn [filter]; [reflexivity|].
  destruct (Z.eqb_spec (SignatureDictionary.size r) 0) as [Hz|Hnz]; cbn [negb appendRanges].
  - rewrite (range_skipped Hr Hz). apply IH.
  - destruct (offset r =? wrap64 (offset r + SignatureDictionary.size r)); [apply IH|].
    destruct (outOfBounds sourceData (offset r) (wrap64 (offset r + SignatureDictionary.size r)));
      [reflexivity|apply IH].
Qed.

(** X9. Ranges of length zero are ignored, whatever their offset: the
    assembler gives the same result, the same buffer and the same BIO
    for a signature and for the signature without its empty ranges.  An
    empty range with an offset before or after the file is no error. *)
Theorem X9_empty_ranges_are_ignored :
  forall (signature : PDFSignature) (sourceData : QByteArray)
         (r : PDFSignatureVerificationResult) (outputBuffer : QByteArray),
    Forall wfByteRange (m_byteRanges signature) ->
    getSignedDataBuffer (withoutEmptyRanges signature) sourceData r outputBuffer
    = getSignedDataBuffer signature sourceData r outputBuffer.
Proof.
  intros signature sourceData r outputBuffer Hwf.
  unfold getSignedDataBuffer, withoutEmptyRanges, sumSizes.
  cbn [m_byteRanges m_contents].
  rewrite sumSizes_filter by wrap_lia.
  now rewrite appendRanges_filter.
Qed.

Lemma member_empty (x : Z) : ~ member x emptySet.
Proof. apply member_nil. Qed.

(** The merged coverage holds the positions of the ranges and of the
    interval of the contents, and no other. *)
Lemma member_mergedCoverage (signature : PDFSignature) (sourceData : QByteArray) (x : Z) :
  QByteArray_size sourceData <= INT_MAX ->
  Forall (passesRangeCheck sourceData) (m_byteRanges signature) ->
  (member x (coverContents sourceData (m_contents signature)
               (coverRanges (m_byteRanges signature) emptySet))
   <-> positionCovered signature sourceData x).
Proof.
  intros HF Hp. unfold positionCovered.
  assert (Hn : normIn 0 (QByteArray_size sourceData - 1)
                 (coverRanges (m_byteRanges signature) emptySet))
    by (apply (@coverRanges_normIn sourceData); [exact Hp|exact I]).
  pose proof (@member_coverRanges sourceData x _ Hp emptySet I) as Hr.
  rewrite coverContents_interval.
  destruct (contentsInterval sourceData (m_contents signature)) as [[first last]|].
  - rewrite (@member_addInterval x _ 0 (QByteArray_size sourceData - 1) first last Hn), Hr.
    split.
    + intros [Hx|[Hm|Hx]]; [right; eauto|now apply member_empty in Hm|now left].
    + intros [Hx|(a & b & E & Hx)]; [right; now right|inversion E; subst; now left].
  - rewrite Hr. split.
    + intros [Hm|Hx]; [now apply member_empty in Hm|now left].
    + intros [Hx|(a & b & E & _)]; [now right|discriminate].
Qed.

(** The positions start, start + 1, ..., start + n - 1. *)
Definition positionsFrom (start : Z) (n : nat) : list Z :=
  map (fun k => start + Z.of_nat k) (seq 0 n).

Definition memberb (s : PDFClosedIntervalSet) (x : Z) : bool :=
  existsb (fun i => (fst i <=? x) && (x <=? snd i)) s.

Definition countIn (p : Z -> bool) (start : Z) (n : nat) : Z :=
  Z.of_nat (List.length (filter p (positionsFrom start n))).

Lemma positions_from_zero (n : nat) : positions n = positionsFrom 0 n.
Proof. reflexivity. Qed.

Lemma in_positionsFrom (start : Z) (n : nat) (x : Z) :
  In x (positionsFrom start n) <-> start <= x < start + Z.of_nat n.
Proof.
  unfold positionsFrom. rewrite in_map_iff. split.
  - intros (k & <- & Hk). apply in_seq in Hk. lia.
  - intros Hx. exists (Z.to_nat (x - start)). split; [lia|]. apply in_seq. lia.
Qed.

Lemma map_seq_shift (c : Z) (a : nat) :
  forall (m b : nat),
    map (fun k => c + Z.of_nat k) (seq (a + b) m)
    = map (fun k => c + Z.of_nat a + Z.of_nat k) (seq b m).
Proof.
  induction m as [|m IH]; intros b; [reflexivity|].
  cbn [seq map]. f_equal; [lia|].
  rewrite <- (IH (S b)). now rewrite Nat.add_succ_r.
Qed.

Lemma positionsFrom_app (start : Z) (n m : nat) :
  positionsFrom start (n + m) = positionsFrom start n ++ positionsFrom (start + Z.of_nat n) m.
Proof.
  unfold positionsFrom. rewrite seq_app, map_app. f_equal.
  rewrite <- (map_seq_shift start n m 0). now rewrite Nat.add_0_r.
Qed.

Lemma countIn_app (p : Z -> bool) (start : Z) (n m : nat) :
  countIn p start (n + m) = countIn p start n + countIn p (start + Z.of_nat n) m.
Proof.
  unfold countIn. rewrite positionsFrom_app, filter_app, length_app. lia.
Qed.

Lemma countIn_none (p : Z -> bool) (start : Z) (n : nat) :
  (forall x, start <= x < start + Z.of_nat n -> p x = false) -> countIn p start n = 0.
Proof.
  intros H. unfold countIn.
  rewrite (filter_ext_in p (fun _ => false)) by (intros x Hx; apply H, in_positionsFrom, Hx).
  clear. induction (positionsFrom start n); cbn; auto.
Qed.

Lemma countIn_all (p : Z -> bool) (start : Z) (n : nat) :
  (forall x, start <= x < start + Z.of_nat n -> p x = true) -> countIn p start n = Z.of_nat n.
Proof.
  intros H. unfold countIn.
  rewrite (filter_ext_in p (fun _ => true)) by (intros x Hx; apply H, in_positionsFrom, Hx).
  assert (Hl : List.length (positionsFrom start n) = n)
    by (unfold positionsFrom; now rewrite length_map, length_seq).
  rewrite <- Hl at 2. f_equal.
  clear. induction (positionsFrom start n); cbn; auto.
Qed.

Lemma countIn_ext (p q : Z -> bool) (start : Z) (n : nat) :
  (forall x, start <= x < start + Z.of_nat n -> p x = q x) ->
  countIn p start n = countIn q start n.
Proof.
  intros H. unfold countIn.
  now rewrite (filter_ext_in p q) by (intros x Hx; apply H, in_positionsFrom, Hx).
Qed.

Lemma memberb_member (s : PDFClosedIntervalSet) (x : Z) : memberb s x = true <-> member x s.
Proof.
  unfold memberb, member. rewrite existsb_exists.
  split; intros (i & Hin & Hx); exists i; (split; [exact Hin|]).
  - apply andb_prop in Hx. destruct Hx as [H1 H2]. apply Z.leb_le in H1, H2. lia.
  - apply andb_true_intro. split; apply Z.leb_le; lia.
Qed.

Lemma memberb_false (s : PDFClosedIntervalSet) (x : Z) : ~ member x s -> memberb s x = false.
Proof.
  intros H. destruct (memberb s x) eqn:E; [|reflexivity]. now apply memberb_member in E.
Qed.

(** The total length of a merged set is the number of its positions. *)
Lemma countIn_sumLengths (s : PDFClosedIntervalSet) :
  forall lo hi start (n : nat),
    normIn lo hi s -> start <= lo -> start + Z.of_nat n = hi + 1 ->
    countIn (memberb s) start n = sumLengths s.
Proof.
  induction s as [|[a b] rest IH]; intros lo hi start n Hn Hstart Hlen.
  - cbn. apply countIn_none. reflexivity.
  - cbn in Hn. destruct Hn as (Ha & Hab & Hb & Hrest).
    assert (Hrestmem : forall x, member x rest -> b + 2 <= x <= hi)
      by (intros x Hx; exact (@normIn_member _ _ _ _ Hrest Hx)).
    replace n with (Z.to_nat (a - start) + (Z.to_nat (b - a + 1) + Z.to_nat (hi - b)))%nat by lia.
    rewrite !countIn_app.
    rewrite (@countIn_none (memberb ((a, b) :: rest)) start).
    2:{ intros x Hx. apply memberb_false. intros Hm. apply member_cons in Hm.
        cbn [fst snd] in Hm. destruct Hm as [Hm|Hm]; [lia|]. apply Hrestmem in Hm. lia. }
    rewrite (@countIn_all (memberb ((a, b) :: rest))).
    2:{ intros x Hx. apply memberb_member, member_cons. left. cbn [fst snd]. lia. }
    rewrite (@countIn_ext (memberb ((a, b) :: rest)) (memberb rest)).
    2:{ intros x Hx. unfold memberb. cbn [existsb fst snd].
        replace (x <=? b) with false by (symmetry; apply Z.leb_gt; lia).
        now rewrite andb_false_r. }
    rewrite (IH (b + 2) hi) by (try exact Hrest; lia).
    cbn [sumLengths fold_right fst snd]. fold (sumLengths rest). lia.
Qed.

Lemma countIn_negb (p : Z -> bool) (start : Z) (n : nat) :
  countIn (fun x => negb (p x)) start n = Z.of_nat n - countIn p start n.
Proof.
  unfold countIn.
  assert (H : forall l : list Z,
             (List.length (filter (fun x => negb (p x)) l) + List.length (filter p l)
              = List.length l)%nat).
  { induction l as [|x l IHl]; cbn; [reflexivity|]. destruct (p x); cbn; lia. }
  specialize (H (positionsFrom start n)).
  assert (Hl : List.length (positionsFrom start n) = n)
    by (unfold positionsFrom; now rewrite length_map, length_seq).
  lia.
Qed.

Lemma positionCoveredb_iff (signature : PDFSignature) (sourceData : QByteArray) (x : Z) :
  positionCoveredb signature sourceData x = true <-> positionCovered signature sourceData x.
Proof.
  unfold positionCoveredb, positionCovered. rewrite orb_true_iff, existsb_exists.
  split.
  - intros [(range & Hin & Hx)|Hx].
    + left. exists range. split; [exact Hin|].
      apply andb_prop in Hx. destruct Hx as [H1 H2].
      apply Z.leb_le in H1. apply Z.ltb_lt in H2. lia.
    + right. destruct (contentsInterval _ _) as [[first last]|]; [|discriminate].
      exists first, last. split; [reflexivity|].
      apply andb_prop in Hx. destruct Hx as [H1 H2]. apply Z.leb_le in H1, H2. lia.
  - intros [(range & Hin & Hx)|(first & last & E & Hx)].
    + left. exists range. split; [exact Hin|].
      apply andb_true_intro. split; [apply Z.leb_le|apply Z.ltb_lt]; lia.
    + right. rewrite E. apply andb_true_intro. split; apply Z.leb_le; lia.
Qed.

(** X11. When the byte ranges pass the checks, the number that the
    warning reports is the number of positions of the file that lie in no
    byte range and not in the interval of the contents, and the warning
    is added exactly when this number is not zero. *)
Theorem X11_warning_counts_uncovered_positions :
  forall (signature : PDFSignature) (sourceData : QByteArray)
         (r : PDFSignatureVerificationResult) (outputBuffer : QByteArray),
    QByteArray_size sourceData <= INT_MAX ->
    Forall wfByteRange (m_byteRanges signature) ->
    passesBoundsChecks sourceData (m_byteRanges signature) ->
    fst (fst (getSignedDataBuffer signature sourceData r outputBuffer))
    = if uncoveredCount signature sourceData =? 0 then r
      else addSignatureNotCoveredBytesWarning r (uncoveredCount signature sourceData).
Proof.
  intros signature sourceData r outputBuffer HF Hwf Hp.
  destruct (@getSignedDataBuffer_accepts signature sourceData r outputBuffer HF Hwf Hp)
    as (Hn & _ & H).
  rewrite H. cbn [fst].
  set (s := coverContents sourceData (m_contents signature)
              (coverRanges (m_byteRanges signature) emptySet)) in *.
  assert (Hcount : uncoveredCount signature sourceData
                   = QByteArray_size sourceData - getTotalLength s).
  { unfold uncoveredCount. rewrite positions_from_zero.
    fold (countIn (fun x => negb (positionCoveredb signature sourceData x)) 0
                  (List.length sourceData)).
    rewrite countIn_negb.
    rewrite (@countIn_ext (positionCoveredb signature sourceData) (memberb s)).
    - rewrite (@countIn_sumLengths s 0 (QByteArray_size sourceData - 1))
        by (try exact Hn; unfold QByteArray_size; lia).
      rewrite getTotalLength_sum. reflexivity.
    - intros x Hx.
      pose proof (@member_mergedCoverage signature sourceData x HF (proj2 Hp)) as Hm.
      fold s in Hm.
      destruct (memberb s x) eqn:E.
      + apply positionCoveredb_iff, Hm, memberb_member, E.
      + destruct (positionCoveredb signature sourceData x) eqn:E'; [|reflexivity].
        apply positionCoveredb_iff, Hm, memberb_member in E'. congruence. }
  rewrite Hcount.
  pose proof (@isCovered_iff _ _ _ 0 (QByteArray_size sourceData - 1) Hn) as Hc.
  pose proof (@sumLengths_bound _ _ _ Hn) as Hb. rewrite <- getTotalLength_sum in Hb.
  pose proof (size_nonneg sourceData) as H0.
  destruct (isCovered s 0 (QByteArray_size sourceData - 1)) eqn:E.
  - assert (Hall : forall x, 0 <= x <= QByteArray_size sourceData - 1 -> member x s)
      by (now apply Hc).
    assert (Hfull : countIn (memberb s) 0 (List.length sourceData)
                    = Z.of_nat (List.length sourceData)).
    { apply countIn_all. intros x Hx. apply memberb_member, Hall.
      unfold QByteArray_size. lia. }
    rewrite (@countIn_sumLengths s 0 (QByteArray_size sourceData - 1)) in Hfull
      by (try exact Hn; unfold QByteArray_size; lia).
    rewrite getTotalLength_sum, Hfull. unfold QByteArray_size.
    now rewrite Z.sub_diag.
  - destruct (Z.eqb_spec (QByteArray_size sourceData - getTotalLength s) 0) as [Hz|Hnz];
      [|reflexivity].
    exfalso.
    assert (Hall : false = true); [|discriminate].
    apply Hc. intros x Hx. apply memberb_member.
    destruct (memberb s x) eqn:Em; [reflexivity|exfalso].
    assert (Hlt : countIn (memberb s) 0 (List.length sourceData)
                  < Z.of_nat (List.length sourceData)).
    { replace (List.length sourceData)
        with (Z.to_nat x + (1 + Z.to_nat (QByteArray_size sourceData - 1 - x)))%nat
        by (unfold QByteArray_size in *; lia).
      rewrite !countIn_app.
      rewrite (@countIn_none (memberb s) (0 + Z.of_nat (Z.to_nat x)) 1)
        by (intros y Hy; replace y with x by lia; exact Em).
      pose proof (countIn_negb (memberb s) 0 (Z.to_nat x)) as H1.
      pose proof (countIn_negb (memberb s)
                    (0 + Z.of_nat (Z.to_nat x) + Z.of_nat 1)
                    (Z.to_nat (QByteArray_size sourceData - 1 - x))) as H2.
      unfold countIn in *. lia. }
    rewrite (@countIn_sumLengths s 0 (QByteArray_size sourceData - 1)) in Hlt
      by (try exact Hn; unfold QByteArray_size; lia).
    rewrite <- getTotalLength_sum in Hlt. unfold QByteArray_size in *. lia.
Qed.

Lemma filter_nil_iff {A : Type} (p : A -> bool) (l : list A) :
  filter p l = [] <-> forall x, In x l -> p x = false.
Proof.
  induction l as [|y l IH]; cbn [filter].
  - split; [intros _ x []|reflexivity].
  - destruct (p y) eqn:E.
    + split; [discriminate|]. intros H. specialize (H y (or_introl eq_refl)). congruence.
    + rewrite IH. split.
      * intros H x [<-|Hx]; [exact E|now apply H].
      * intros H x Hx. apply H. now right.
Qed.

(** No position is left uncovered exactly when every position of the
    file is covered. *)
Lemma uncoveredCount_zero_iff (signature : PDFSignature) (sourceData : QByteArray) :
  uncoveredCount signature sourceData = 0
  <-> (forall x, 0 <= x < QByteArray_size sourceData -> positionCovered signature sourceData x).
Proof.
  unfold uncoveredCount. rewrite positions_from_zero.
  split.
  - intros H x Hx.
    assert (Hnil : filter (fun x => negb (positionCoveredb signature sourceData x))
                          (positionsFrom 0 (List.length sourceData)) = [])
      by (destruct (filter _ _); [reflexivity|cbn in H; lia]).
    pose proof (proj1 (filter_nil_iff _ _) Hnil x) as Hp.
    apply positionCoveredb_iff. apply negb_false_iff, Hp, in_positionsFrom.
    unfold QByteArray_size in Hx. lia.
  - intros H.
    replace (filter _ _) with (@nil Z); [reflexivity|].
    symmetry. apply filter_nil_iff. intros x Hx. apply in_positionsFrom in Hx.
    apply negb_false_iff, positionCoveredb_iff, H. unfold QByteArray_size. lia.
Qed.

(** The total length of the merged coverage is the number of covered
    positions of the file. *)
Lemma uncoveredCount_total (signature : PDFSignature) (sourceData : QByteArray) :
  QByteArray_size sourceData <= INT_MAX ->
  Forall (passesRangeCheck sourceData) (m_byteRanges signature) ->
  normIn 0 (QByteArray_size sourceData - 1)
         (coverContents sourceData (m_contents signature)
            (coverRanges (m_byteRanges signature) emptySet)) ->
  uncoveredCount signature sourceData
  = QByteArray_size sourceData
    - getTotalLength (coverContents sourceData (m_contents signature)
                        (coverRanges (m_byteRanges signature) emptySet)).
Proof.
  intros HF Hp Hn.
  set (s := coverContents sourceData (m_contents signature)
              (coverRanges (m_byteRanges signature) emptySet)) in *.
  unfold uncoveredCount. rewrite positions_from_zero.
  fold (countIn (fun x => negb (positionCoveredb signature sourceData x)) 0
                (List.length sourceData)).
  rewrite countIn_negb.
  rewrite (@countIn_ext (positionCoveredb signature sourceData) (memberb s)).
  - rewrite (@countIn_sumLengths s 0 (QByteArray_size sourceData - 1))
      by (try exact Hn; unfold QByteArray_size; lia).
    rewrite getTotalLength_sum. reflexivity.
  - intros x Hx.
    pose proof (@member_mergedCoverage signature sourceData x HF Hp) as Hm.
    fold s in Hm.
    destruct (memberb s x) eqn:E.
    + apply positionCoveredb_iff, Hm, memberb_member, E.
    + destruct (positionCoveredb signature sourceData x) eqn:E'; [|reflexivity].
      apply positionCoveredb_iff, Hm, memberb_member in E'. congruence.
Qed.

(** X10. When the byte ranges pass the checks, the assembler leaves the
    result as it was exactly when every position of the file lies in a
    byte range or in the interval of the contents.  This interval starts
    where the hexadecimal encoding of the contents is first found in the
    file and ends at its last digit; it is one byte longer at the front
    only when the byte before it is the delimiter that opens a hex
    string, and one byte longer at the end only when the byte behind it
    is the delimiter that closes one.  Otherwise the assembler appends
    exactly one warning, which reports the number of positions that are
    not covered, and changes nothing else. *)
Theorem X10_no_warning_iff_every_position_covered :
  forall (signature : PDFSignature) (sourceData : QByteArray)
         (r : PDFSignatureVerificationResult) (outputBuffer : QByteArray),
    QByteArray_size sourceData <= INT_MAX ->
    Forall wfByteRange (m_byteRanges signature) ->
    passesBoundsChecks sourceData (m_byteRanges signature) ->
    let r' := fst (fst (getSignedDataBuffer signature sourceData r outputBuffer)) in
    let covered :=
      forall x, 0 <= x < QByteArray_size sourceData -> positionCovered signature sourceData x in
    (r' = r <-> covered)
    /\ ((covered /\ r' = r)
        \/ (~ covered
            /\ r' = addSignatureNotCoveredBytesWarning r (uncoveredCount signature sourceData)
            /\ m_warnings r'
               = m_warnings r
                 ++ [arg (tr "%1 bytes are not covered by signature.")
                         (number (uncoveredCount signature sourceData))]
            /\ m_errors r' = m_errors r
            /\ m_certificateInfos r' = m_certificateInfos r)).
Proof.
  intros signature sourceData r outputBuffer HF Hwf Hp.
  destruct (@getSignedDataBuffer_accepts signature sourceData r outputBuffer HF Hwf Hp)
    as (Hn & _ & H).
  cbv zeta. rewrite H. cbn [fst].
  pose proof (@uncoveredCount_total signature sourceData HF (proj2 Hp) Hn) as Hcount.
  pose proof (@isCovered_iff _ _ _ 0 (QByteArray_size sourceData - 1) Hn) as Hc.
  assert (Hcov : isCovered (coverContents sourceData (m_contents signature)
                              (coverRanges (m_byteRanges signature) emptySet))
                           0 (QByteArray_size sourceData - 1) = true
                 <-> (forall x, 0 <= x < QByteArray_size sourceData ->
                                positionCovered signature sourceData x)).
  { rewrite Hc. split; intros Hall x Hx.
    - apply member_mergedCoverage; [exact HF|exact (proj2 Hp)|apply Hall; lia].
    - apply member_mergedCoverage; [exact HF|exact (proj2 Hp)|apply Hall; lia]. }
  rewrite <- Hcount.
  destruct (isCovered _ 0 (QByteArray_size sourceData - 1)).
  - assert (Hall : forall x, 0 <= x < QByteArray_size sourceData ->
                             positionCovered signature sourceData x) by (now apply Hcov).
    split; [split; [intros _; exact Hall|reflexivity]|left; split; [exact Hall|reflexivity]].
  - assert (Hnot : ~ (forall x, 0 <= x < QByteArray_size sourceData ->
                                positionCovered signature sourceData x))
      by (intros Hall; apply Hcov in Hall; discriminate).
    split.
    + split; [intros H'; now apply warning_changes_result in H'|intros Hall; now apply Hnot in Hall].
    + right. split; [exact Hnot|]. repeat split.
Qed.

(** C4. When the assembler reaches the comparison of the coverage (the
    byte ranges pass its checks), the merged coverage set it has built
    holds exactly the positions of the byte ranges and of the interval of
    the contents, and its total length is the number of these positions.
    The assembler adds the warning Warning_Signature_NotCoveredBytes
    exactly when this set does not contain every byte position of
    [0, |F| - 1], the count it reports is |F| minus the total length of
    the set, and it leaves the result as it was exactly when the whole
    file is covered. *)
Theorem C4_not_covered_bytes_warning :
  forall (signature : PDFSignature) (sourceData : QByteArray)
         (r : PDFSignatureVerificationResult) (outputBuffer : QByteArray),
    QByteArray_size sourceData <= INT_MAX ->
    Forall wfByteRange (m_byteRanges signature) ->
    passesBoundsChecks sourceData (m_byteRanges signature) ->
    exists s,
      mergedCoverage signature sourceData = Some s
      /\ (forall x, member x s <-> positionCovered signature sourceData x)
      /\ getTotalLength s
         = QByteArray_size sourceData - uncoveredCount signature sourceData
      /\ let r' := fst (fst (getSignedDataBuffer signature sourceData r outputBuffer)) in
         (r' = addSignatureNotCoveredBytesWarning r (QByteArray_size sourceData - getTotalLength s)
          <-> ~ coversFile s sourceData)
         /\ (r' = r <-> coversFile s sourceData).
Proof.
  intros signature sourceData r outputBuffer HF Hwf Hp.
  destruct (@getSignedDataBuffer_accepts signature sourceData r outputBuffer HF Hwf Hp)
    as (Hn & Hm & H).
  pose proof (@uncoveredCount_total signature sourceData HF (proj2 Hp) Hn) as Hcount.
  eexists. split; [exact Hm|].
  split; [intros x; exact (@member_mergedCoverage signature sourceData x HF (proj2 Hp))|].
  split; [rewrite Hcount; ring|].
  rewrite H. cbn [fst].
  match goal with |- context [isCovered ?s _ _] => set (cov := s) in * end.
  pose proof (@isCovered_iff _ _ _ 0 (QByteArray_size sourceData - 1) Hn) as Hc.
  fold (coversFile cov sourceData) in Hc.
  destruct (isCovered cov 0 (QByteArray_size sourceData - 1)).
  - assert (Hcov : coversFile cov sourceData) by (now apply Hc).
    split; split; intros H'; try tauto.
    symmetry in H'. now apply warning_changes_result in H'.
  - assert (Hcov : ~ coversFile cov sourceData) by (intros H'; apply Hc in H'; discriminate).
    split; split; intros H'; try tauto.
    now apply warning_changes_result in H'.
Qed.

End AssemblerCoverage.

(* ================================================================== *)
(** * Looking up the certificate store *)
(* ================================================================== *)

Module StoreLookup.
Import CertificateStore.
Import StoreFacts.

Lemma contains_app (l : list CertificateEntry) (e : CertificateEntry) (j : PDFCertificateInfo) :
  contains (mkStore (l ++ [e])) j = contains (mkStore l) j || info_eqb (info e) j.
Proof.
  unfold contains. cbn [m_certificates].
  induction l as [|x l IH]; cbn [app find].
  - unfold sameInfo at 1. destruct (info_eqb (info e) j); reflexivity.
  - destruct (sameInfo j x); [reflexivity|exact IH].
Qed.

Lemma contains_some (s : PDFCertificateStore) (i : PDFCertificateInfo) (e : CertificateEntry) :
  find (sameInfo i) (m_certificates s) = Some e ->
  forall j, info_eqb i j = true -> contains s j = true.
Proof.
  intros Hfind j Hij. apply find_some in Hfind. destruct Hfind as [Hin He].
  unfold sameInfo in He. unfold contains.
  destruct (find (sameInfo j) (m_certificates s)) eqn:E; [reflexivity|].
  pose proof (proj1 (find_none_iff s j) E e Hin) as E'.
  rewrite (info_eqb_trans _ _ _ He Hij) in E'. discriminate.
Qed.

(** X12. After add(type, info) the store contains a description exactly
    when it contained it before or the description equals the inserted
    one, and the entries the store held before are still its first
    entries, in the same order and with the same types. *)
Theorem X12_add_then_contains :
  forall (s : PDFCertificateStore) (t : EntryType) (i j : PDFCertificateInfo),
    contains (snd (add s t i)) j = contains s j || info_eqb i j
    /\ firstn (List.length (m_certificates s)) (m_certificates (snd (add s t i)))
       = m_certificates s.
Proof.
  intros s t i j.
  destruct (add_cases s t i) as [[Hnone ->]|(e & Hsome & ->)]; cbn [snd m_certificates].
  - split.
    + rewrite contains_app. cbn [info]. now destruct s.
    + rewrite firstn_app, Nat.sub_diag, firstn_all. cbn. apply app_nil_r.
  - split; [|apply firstn_all].
    destruct (info_eqb i j) eqn:Hij; [|now rewrite orb_false_r].
    now rewrite (contains_some s i Hsome j Hij).
Qed.

Section WithOpenSSL.
Context {ssl : OpenSSL}.

(** X13. When the bytes parse as a certificate, add(type, bytes) returns
    true, the store afterwards contains the description extracted from
    the certificate, and it holds the old entries first and at most one
    entry more. *)
Theorem X13_add_parsable_certificate :
  forall (s : PDFCertificateStore) (t : EntryType) (certificateData : QByteArray)
         (certificate : X509),
    d2i_X509 certificateData = Some certificate ->
    fst (addCertificate s t certificateData) = true
    /\ contains (snd (addCertificate s t certificateData)) (getCertificateInfo certificate) = true
    /\ firstn (List.length (m_certificates s))
              (m_certificates (snd (addCertificate s t certificateData)))
       = m_certificates s
    /\ (List.length (m_certificates (snd (addCertificate s t certificateData)))
        <= S (List.length (m_certificates s)))%nat.
Proof.
  intros s t certificateData certificate Hparse.
  unfold addCertificate, getCertificateInfoFromData. rewrite Hparse.
  set (i := getCertificateInfo certificate).
  destruct (add_cases s t i) as [[Hnone ->]|(e & Hsome & ->)]; cbn [fst snd m_certificates].
  - split; [reflexivity|]. split; [|split].
    + rewrite contains_app. cbn [info]. rewrite info_eqb_refl. apply orb_true_r.
    + rewrite firstn_app, Nat.sub_diag, firstn_all. cbn. apply app_nil_r.
    + rewrite length_app. cbn. lia.
  - split; [reflexivity|]. split; [|split].
    + apply (contains_some s i Hsome). apply info_eqb_refl.
    + apply firstn_all.
    + lia.
Qed.

End WithOpenSSL.

End StoreLookup.

(* ================================================================== *)
(** * The certificates handed to OpenSSL *)
(* ================================================================== *)

Module CertificateLists.

Section WithOpenSSL.
Context {ssl : OpenSSL}.

(** The certificates among [encoded] that parse, in order. *)
Definition parsedCertificates (encoded : list QByteArray) : list X509 :=
  flat_map (fun certificateData =>
              match d2i_X509 certificateData with
              | Some certificate => [certificate]
              | None => []
              end) encoded.

(** The certificates that parse at the head of [encoded], up to the
    first one that does not: the certificates createCertificate returns
    for consecutive indices until it returns a null pointer. *)
Fixpoint parsedPrefix (encoded : list QByteArray) : list X509 :=
  match encoded with
  | [] => []
  | certificateData :: rest =>
      match d2i_X509 certificateData with
      | Some certificate => certificate :: parsedPrefix rest
      | None => []
      end
  end.

(** The entries of the Cert array behind the first one. *)
Definition encodedTail (h : PDFSignatureHandler) : list QByteArray :=
  match SignatureDictionary.m_certificates (getSignature (m_signatureField h)) with
  | Some encoded => skipn 1 encoded
  | None => []
  end.

Definition decodeAt (encoded : list QByteArray) (index : nat) : option X509 :=
  match nth_error encoded index with
  | Some certificateData => d2i_X509 certificateData
  | None => None
  end.

Lemma addEncodedCertificates_parsed (encoded : list QByteArray) :
  forall x509store,
    addEncodedCertificates x509store encoded = x509store ++ parsedCertificates encoded.
Proof.
  induction encoded as [|certificateData rest IH]; intros x509store;
    cbn [addEncodedCertificates parsedCertificates flat_map].
  - now rewrite app_nil_r.
  - fold (parsedCertificates rest).
    destruct (d2i_X509 certificateData); rewrite IH; [|reflexivity].
    now rewrite <- app_assoc.
Qed.

Lemma in_parsedCertificates (encoded : list QByteArray) (certificate : X509) :
  In certificate (parsedCertificates encoded)
  <-> exists certificateData,
        In certificateData encoded /\ d2i_X509 certificateData = Some certificate.
Proof.
  unfold parsedCertificates. rewrite in_flat_map. split.
  - intros (d & Hin & Hc). exists d. split; [exact Hin|].
    destruct (d2i_X509 d); [|destruct Hc]. destruct Hc as [->|[]]. reflexivity.
  - intros (d & Hin & Hd). exists d. split; [exact Hin|]. rewrite Hd. now left.
Qed.

Lemma parsedPrefix_nth (encoded : list QByteArray) :
  forall k,
    nth_error (parsedPrefix encoded) k
    = if (k <? List.length (parsedPrefix encoded))%nat
      then decodeAt encoded k else None.
Proof.
  unfold decodeAt.
  induction encoded as [|certificateData rest IH]; intros k; cbn [parsedPrefix].
  - now destruct k.
  - destruct (d2i_X509 certificateData) as [c|] eqn:E; [|now destruct k].
    destruct k as [|k]; cbn [nth_error List.length]; [now rewrite E|].
    rewrite IH. reflexivity.
Qed.

Lemma parsedPrefix_stops (encoded : list QByteArray) :
  decodeAt encoded (List.length (parsedPrefix encoded)) = None.
Proof.
  unfold decodeAt.
  induction encoded as [|certificateData rest IH]; cbn [parsedPrefix];
    [reflexivity|].
  destruct (d2i_X509 certificateData) as [c|] eqn:E; cbn [List.length nth_error];
    [exact IH|exact E].
Qed.

(** What the loop leaves on the stack are the freed certificates of the
    parsed prefix. *)
Lemma createCertificatesFrom_freed (encoded : list QByteArray) :
  createCertificatesFrom encoded = map X509_free (parsedPrefix encoded).
Proof.
  induction encoded as [|certificateData rest IH]; cbn [createCertificatesFrom parsedPrefix map];
    [reflexivity|].
  destruct (d2i_X509 certificateData); cbn [map]; [now rewrite IH|reflexivity].
Qed.

Lemma createCertificate_tail (h : PDFSignatureHandler) (k : nat) :
  createCertificate h (S k) = decodeAt (encodedTail h) k.
Proof.
  unfold createCertificate, decodeAt, encodedTail.
  destruct (SignatureDictionary.m_certificates (getSignature (m_signatureField h)))
    as [[|first rest]|]; cbn [skipn nth_error]; try reflexivity; now destruct k.
Qed.

(** The certificates pushed behind the first one are createCertificate(1),
    createCertificate(2), ... up to the first null pointer. *)
Lemma parsedPrefix_createCertificate (h : PDFSignatureHandler) :
  (forall k, nth_error (parsedPrefix (encodedTail h)) k
             = if (k <? List.length (parsedPrefix (encodedTail h)))%nat
               then createCertificate h (S k) else None)
  /\ createCertificate h (S (List.length (parsedPrefix (encodedTail h)))) = None.
Proof.
  split.
  - intros k. rewrite createCertificate_tail. apply parsedPrefix_nth.
  - rewrite createCertificate_tail. apply parsedPrefix_stops.
Qed.

(** X14. addTrustedCertificates only appends to the X509 store: the
    certificates it held stay first, and a certificate is among the added
    ones exactly when it is the parse of the certificate data of an entry
    of the parameters' certificate store, or, with the system store
    enabled, the parse of a system root certificate.  Data that do not
    parse add nothing. *)
Theorem X14_trusted_certificates_added :
  forall (h : PDFSignatureHandler) (x509store : list X509),
    exists added,
      addTrustedCertificates h x509store = x509store ++ added
      /\ forall certificate,
           In certificate added
           <-> ((exists certificateStore entry,
                   store (m_parameters h) = Some certificateStore
                   /\ In entry (CertificateStore.m_certificates certificateStore)
                   /\ d2i_X509 (m_certificateData (info entry)) = Some certificate)
                \/ (useSystemCertificateStore (m_parameters h) = true
                    /\ exists certificateData,
                         In certificateData systemRootCertificates
                         /\ d2i_X509 certificateData = Some certificate)).
Proof.
  intros h x509store. unfold addTrustedCertificates.
  destruct (store (m_parameters h)) as [certificateStore|];
    destruct (useSystemCertificateStore (m_parameters h));
    rewrite ?addEncodedCertificates_parsed, <- ?app_assoc.
  - eexists. split; [reflexivity|]. intros c.
    rewrite in_app_iff, !in_parsedCertificates. split.
    + intros [(d & Hin & Hd)|Hsys]; [left|right; auto].
      apply in_map_iff in Hin. destruct Hin as (entry & <- & Hin). eauto.
    + intros [(st & entry & Hst & Hin & Hd)|[_ Hsys]]; [left|right; exact Hsys].
      inversion Hst; subst st. exists (m_certificateData (info entry)).
      split; [|exact Hd]. apply in_map_iff. eauto.
  - eexists. split; [reflexivity|]. intros c.
    rewrite in_parsedCertificates. split.
    + intros (d & Hin & Hd). left.
      apply in_map_iff in Hin. destruct Hin as (entry & <- & Hin). eauto.
    + intros [(st & entry & Hst & Hin & Hd)|[Hsys _]]; [|discriminate].
      inversion Hst; subst st. exists (m_certificateData (info entry)).
      split; [|exact Hd]. apply in_map_iff. eauto.
  - eexists. split; [reflexivity|]. intros c.
    rewrite in_parsedCertificates. split.
    + intros Hsys. right. auto.
    + intros [(st & entry & Hst & _)|[_ Hsys]]; [discriminate|exact Hsys].
  - exists []. split; [now rewrite app_nil_r|]. intros c. split; [intros []|].
    intros [(st & entry & Hst & _)|[Hsys _]]; discriminate.
Qed.

End WithOpenSSL.

End CertificateLists.

(* ================================================================== *)
(** * The byte ranges of a signature dictionary *)
(* ================================================================== *)

Module SignatureParser.

(** The loop of [PDFSignature::parse] that fills [m_byteRanges] from the
    integers read from the ByteRange entry. *)
Definition parseByteRanges (byteRangesArray : list Z) : list ByteRange :=
  let byteRangeCount := (List.length byteRangesArray / 2)%nat in
  fold_left
    (fun m_byteRanges i =>
       m_byteRanges ++ [mkByteRange (nth (2 * i) byteRangesArray 0)
                                    (nth (2 * i + 1) byteRangesArray 0)])
    (seq 0 byteRangeCount) [].

(** The integers of a list of byte ranges, as the ByteRange entry lists
    them. *)
Definition flatten (byteRanges : list ByteRange) : list Z :=
  flat_map (fun range => [offset range; SignatureDictionary.size range]) byteRanges.

Lemma firstn_succ_nth {A : Type} (d : A) (l : list A) :
  forall k, (k < List.length l)%nat -> firstn (S k) l = firstn k l ++ [nth k l d].
Proof.
  induction l as [|x l IH]; intros k Hk; cbn [List.length] in Hk; [lia|].
  destruct k as [|k]; [reflexivity|].
  cbn [firstn nth app]. f_equal. apply IH. lia.
Qed.

Lemma flatten_pairs (byteRangesArray : list Z) :
  forall n, (2 * n <= List.length byteRangesArray)%nat ->
    flatten (map (fun i => mkByteRange (nth (2 * i) byteRangesArray 0)
                                       (nth (2 * i + 1) byteRangesArray 0))
                 (seq 0 n))
    = firstn (2 * n) byteRangesArray.
Proof.
  unfold flatten.
  induction n as [|n IH]; intros Hn; [reflexivity|].
  rewrite seq_S, map_app, flat_map_app, IH by lia.
  cbn [Nat.add map flat_map offset SignatureDictionary.size app].
  replace (2 * S n)%nat with (S (S (2 * n))) by lia.
  rewrite (@firstn_succ_nth Z 0 byteRangesArray (S (2 * n))) by lia.
  rewrite (@firstn_succ_nth Z 0 byteRangesArray (2 * n)) by lia.
  rewrite <- app_assoc. cbn [app].
  now replace (2 * n + 1)%nat with (S (2 * n)) by lia.
Qed.

(** X16. PDFSignature::parse pairs the integers of the ByteRange entry
    in order: it builds half as many byte ranges as there are integers
    (rounded down), and listing offset and size of each range gives the
    integers back, without the last one when their number is odd. *)
Theorem X16_byte_ranges_pair_the_array :
  forall (byteRangesArray : list Z),
    List.length (parseByteRanges byteRangesArray)
    = (List.length byteRangesArray / 2)%nat
    /\ flatten (parseByteRanges byteRangesArray)
       = if Nat.even (List.length byteRangesArray) then byteRangesArray
         else removelast byteRangesArray.
Proof.
  intros byteRangesArray. unfold parseByteRanges.
  rewrite VerifySignaturesFacts.fold_left_snoc. cbn [app].
  pose proof (Nat.div_mod_eq (List.length byteRangesArray) 2) as Hdiv.
  pose proof (Nat.mod_upper_bound (List.length byteRangesArray) 2) as Hmod.
  split; [now rewrite length_map, length_seq|].
  rewrite flatten_pairs by lia.
  destruct (Nat.even (List.length byteRangesArray)) eqn:Heven.
  - apply Nat.even_spec in Heven. destruct Heven as [m Hm].
    rewrite Hm. replace (2 * m / 2)%nat with m by (rewrite Nat.mul_comm, Nat.div_mul; lia).
    rewrite <- Hm. apply firstn_all.
  - assert (Hodd : Nat.odd (List.length byteRangesArray) = true)
      by (rewrite <- Nat.negb_even, Heven; reflexivity).
    apply Nat.odd_spec in Hodd. destruct Hodd as [m Hm].
    rewrite removelast_firstn_len. f_equal.
    rewrite Hm. replace ((2 * m + 1) / 2)%nat with m; [lia|].
    apply (Nat.div_unique (2 * m + 1) 2 m 1); lia.
Qed.

End SignatureParser.

(* ================================================================== *)
(** * The description extracted from a certificate *)
(* ================================================================== *)

Module ExtractorFacts.

Section WithOpenSSL.
Context {ssl : OpenSSL}.

(** The NID whose string getCertificateInfo stores under a name entry. *)
Definition nidOf (e : NameEntry) : Z :=
  match e with
  | CountryName => NID_countryName
  | OrganizationName => NID_organizationName
  | OrganizationalUnitName => NID_organizationalUnitName
  | DistinguishedName => NID_distinguishedName
  | StateOrProvinceName => NID_stateOrProvinceName
  | CommonName => NID_commonName
  | SerialNumber => NID_serialNumber
  | LocalityName => NID_localityName
  | Title => NID_title
  | Surname => NID_surname
  | GivenName => NID_givenName
  | Initials => NID_initials
  | Pseudonym => NID_pseudonym
  | GenerationalQualifier => NID_generationQualifier
  | Email => NID_pkcs9_emailAddress
  end.

(** X17. For a certificate with a subject name, every name entry of the
    extracted description holds the string of its own NID (no setter
    overwrites what another one stored), the array keeps its NameEnd
    slots, the key usage stays KeyUsageNone when OpenSSL reports
    UINT32_MAX, and the certificate data stay empty when i2d_X509
    fails. *)
Theorem X17_extracted_fields :
  forall (certificate : X509) (subjectName : X509_NAME),
    X509_get_subject_name certificate = Some subjectName ->
    (forall e, getName (getCertificateInfo certificate) e
               = getStringFromX509Name subjectName (nidOf e))
    /\ List.length (m_nameEntries (getCertificateInfo certificate)) = NameEnd
    /\ m_keyUsage (getCertificateInfo certificate)
       = (if X509_get_key_usage certificate =? Extractor.UINT32_MAX then KeyUsageNone
          else wrap32 (X509_get_key_usage certificate))
    /\ m_certificateData (getCertificateInfo certificate)
       = (if fst (i2d_X509 certificate) >=? 0
          then firstn (Z.to_nat (fst (i2d_X509 certificate))) (snd (i2d_X509 certificate))
          else [])
    /\ m_notValidBefore (getCertificateInfo certificate)
       = getDateTimeFromASN (X509_get0_notBefore certificate)
    /\ m_notValidAfter (getCertificateInfo certificate)
       = getDateTimeFromASN (X509_get0_notAfter certificate).
Proof.
  intros certificate subjectName Hname. unfold getCertificateInfo. rewrite Hname.
  destruct (i2d_X509 certificate) as [length buffer]. cbn [fst snd].
  destruct (length >=? 0); destruct (X509_get_key_usage certificate =? Extractor.UINT32_MAX);
    cbn [negb]; (split; [intros e; destruct e; reflexivity|]); repeat split.
Qed.

End WithOpenSSL.

End ExtractorFacts.

(* ================================================================== *)
(** * Choosing the handler *)
(* ================================================================== *)

Module HandlerSelection.
Import FlagFacts.
Import StoreFacts.

(** The subfilter names that createHandler compares with. *)
Definition knownSubfilters : list (QByteArray * HandlerClass) :=
  [(lit "adbe.pkcs7.detached", PDFSignatureHandler_adbe_pkcs7_detached);
   (lit "adbe.pkcs7.sha1", PDFSignatureHandler_adbe_pkcs7_sha1);
   (lit "adbe.x509.rsa_sha1", PDFSignatureHandler_adbe_pkcs7_rsa_sha1)].

Lemma QByteArray_eqb_eq (a b : QByteArray) : QByteArray_eqb a b = true <-> a = b.
Proof. apply list_eqb_eq, byte_eqb_eq. Qed.

Lemma QByteArray_eqb_neq (a b : QByteArray) : QByteArray_eqb a b = false <-> a <> b.
Proof.
  split.
  - intros H E. apply QByteArray_eqb_eq in E. congruence.
  - intros H. destruct (QByteArray_eqb a b) eqn:E; [|reflexivity].
    now apply QByteArray_eqb_eq in E.
Qed.

(** X19. createHandler returns a handler exactly for the three subfilter
    names, compared byte by byte (so case matters); the handler is of the
    class that belongs to the name and holds the field, the source data
    and the parameters it was given. *)
Theorem X19_handler_for_known_subfilters :
  forall (signatureField : PDFFormField) (sourceData : QByteArray) (parameters : Parameters),
    match createHandler signatureField sourceData parameters with
    | Some h =>
        In (m_subfilter (getSignature signatureField), handlerClass h) knownSubfilters
        /\ m_signatureField h = signatureField
        /\ m_sourceData h = sourceData
        /\ m_parameters h = parameters
    | None =>
        forall class,
          ~ In (m_subfilter (getSignature signatureField), class) knownSubfilters
    end.
Proof.
  intros signatureField sourceData parameters. unfold createHandler, knownSubfilters.
  destruct (QByteArray_eqb _ (lit "adbe.pkcs7.detached")) eqn:E1;
    [apply QByteArray_eqb_eq in E1; rewrite E1; cbn; auto|].
  destruct (QByteArray_eqb _ (lit "adbe.pkcs7.sha1")) eqn:E2;
    [apply QByteArray_eqb_eq in E2; rewrite E2; cbn; auto|].
  destruct (QByteArray_eqb _ (lit "adbe.x509.rsa_sha1")) eqn:E3;
    [apply QByteArray_eqb_eq in E3; rewrite E3; cbn; auto 6|].
  apply QByteArray_eqb_neq in E1, E2, E3.
  intros class [H|[H|[H|[]]]]; inversion H; congruence.
Qed.

Section WithOpenSSL.
Context {ssl : OpenSSL}.

(** X20. For a signature field whose subfilter is none of the three
    names, the result of the field has the flag Error_NoHandler and no
    other flag, one error message, no warning and no certificate
    description, and it carries the reference and the qualified name of
    the field; OpenSSL is not consulted. *)
Theorem X20_unknown_subfilter_result :
  forall (sourceData : QByteArray) (parameters : Parameters) (signatureField : PDFFormField),
    (forall class,
        ~ In (m_subfilter (getSignature signatureField), class) knownSubfilters) ->
    let r := verifyField sourceData parameters signatureField in
    (forall f, hasFlag r f = true <-> f = Error_NoHandler)
    /\ List.length (m_errors r) = 1%nat
    /\ m_warnings r = []
    /\ m_certificateInfos r = []
    /\ m_signatureFieldReference r = getSelfReference signatureField
    /\ m_signatureFieldQualifiedName r = getFullyQualifiedName signatureField
    /\ isValid r = false.
Proof.
  intros sourceData parameters signatureField Hunknown r. subst r.
  unfold verifyField.
  destruct (createHandler signatureField sourceData parameters) as [h|] eqn:E.
  - exfalso. apply (Hunknown (handlerClass h)).
    unfold createHandler in E. unfold knownSubfilters.
    destruct (QByteArray_eqb _ (lit "adbe.pkcs7.detached")) eqn:E1;
      [apply QByteArray_eqb_eq in E1; inversion E; rewrite E1; cbn; auto|].
    destruct (QByteArray_eqb _ (lit "adbe.pkcs7.sha1")) eqn:E2;
      [apply QByteArray_eqb_eq in E2; inversion E; rewrite E2; cbn; auto|].
    destruct (QByteArray_eqb _ (lit "adbe.x509.rsa_sha1")) eqn:E3;
      [apply QByteArray_eqb_eq in E3; inversion E; rewrite E3; cbn; auto|].
    discriminate.
  - unfold addNoHandlerError.
    assert (Hflags : forall f,
               hasFlag (addError (newResult (getSelfReference signatureField)
                                            (getFullyQualifiedName signatureField))
                                 Error_NoHandler
                                 (arg (tr "No signature handler for signature format '%1'.")
                                      (fromLatin1 (m_subfilter (getSignature signatureField)))))
                       f
               = (flagBit f =? flagBit Error_NoHandler)).
    { intros f. rewrite hasFlag_addError.
      replace (hasFlag (newResult _ _) f) with false; [reflexivity|].
      symmetry. apply (hasFlag_emptyResult f). }
    refine (conj _ (conj eq_refl (conj eq_refl (conj eq_refl (conj eq_refl (conj eq_refl _)))))).
    + intros f. rewrite Hflags. rewrite Z.eqb_eq. split; [apply flagBit_inj|now intros ->].
    + unfold isValid. rewrite Hflags. reflexivity.
Qed.

End WithOpenSSL.

End HandlerSelection.

(* ================================================================== *)
(** * The two phases of a verification *)
(* ================================================================== *)

Module PhaseSeparation.
Import FlagFacts.
Import EngineFacts.
Import AssemblerFacts.

Section WithOpenSSL.
Context {ssl : OpenSSL}.

(** The result after the first phase of [verify]. *)
Definition certificatePhase (h : PDFSignatureHandler) : PDFSignatureVerificationResult :=
  match handlerClass h with
  | PDFSignatureHandler_adbe_pkcs7_rsa_sha1 =>
      verifyRSACertificate h (initializeResult h emptyResult)
  | _ => verifyCertificate h (initializeResult h emptyResult)
  end.

Lemma validate_frame r : frame [OK] r (validate r).
Proof.
  intros g Hg. rewrite hasFlag_validate.
  replace (flagBit g =? flagBit OK) with false; [now rewrite orb_false_r|].
  symmetry. apply Z.eqb_neq. intros E. apply flagBit_inj in E. apply Hg. now left.
Qed.

Lemma certificatePhase_frame (h : PDFSignatureHandler) :
  frame (Certificate_OK :: certificateErrors) (initializeResult h emptyResult)
        (certificatePhase h).
Proof.
  unfold certificatePhase.
  destruct (handlerClass h);
    [apply verifyCertificate_frame|apply verifyCertificate_frame
    |apply verifyRSACertificate_frame].
Qed.

Lemma verify_after_certificatePhase (h : PDFSignatureHandler) :
  frame (OK :: Signature_OK :: signaturePhaseFlags) (certificatePhase h) (verify h).
Proof.
  unfold verify, certificatePhase.
  destruct (handlerClass h).
  - eapply frame_trans; [|apply (@frame_weaken [OK]); [|apply validate_frame]].
    + apply (@frame_weaken (Signature_OK :: signaturePhaseFlags));
        [cbn; tauto|apply verifySignature_post].
    + cbn; tauto.
  - eapply frame_trans; [|apply (@frame_weaken [OK]); [|apply validate_frame]].
    + apply (@frame_weaken (Signature_OK :: signaturePhaseFlags));
        [cbn; tauto|apply verifySignature_post].
    + cbn; tauto.
  - eapply frame_trans; [|apply (@frame_weaken [OK]); [|apply validate_frame]].
    + apply (@frame_weaken (Signature_OK :: signaturePhaseFlags));
        [cbn; tauto|apply verifyRSASignature_post].
    + cbn; tauto.
Qed.

(** X21. The verdict on the certificate is final after the first phase:
    Certificate_OK and every certificate error flag have in the result of
    verify the value they had when the certificate phase ended, whatever
    the signature phase finds; and the certificate phase sets none of
    Signature_OK, the signature error flags, the warning flag and OK. *)
Theorem X21_certificate_verdict_is_final :
  forall (h : PDFSignatureHandler) (g : VerificationFlag),
    (In g (Certificate_OK :: certificateErrors) ->
     hasFlag (verify h) g = hasFlag (certificatePhase h) g)
    /\ (~ In g (Certificate_OK :: certificateErrors) ->
        hasFlag (certificatePhase h) g = false).
Proof.
  intros h g. split.
  - intros Hg. apply verify_after_certificatePhase.
    intros Hin. destruct Hin as [<-|Hin]; [cbn in Hg; intuition discriminate|].
    destruct (certificate_disjoint Hg) as [Hno _]. exact (Hno Hin).
  - intros Hg. rewrite (certificatePhase_frame h Hg). apply hasFlag_emptyResult.
Qed.

(** X22. With byte ranges that pass the checks, the buffer the sha1
    handler hands to OpenSSL is the SHA1 digest of the concatenated
    slices, whatever the output buffer held before, and the handler gives
    the same result (with or without the warning) as the detached
    handler, which hands on the slices themselves. *)
Theorem X22_sha1_handler_digests_the_slices :
  forall (signature : PDFSignature) (sourceData : QByteArray)
         (r : PDFSignatureVerificationResult) (outputBuffer : QByteArray),
    QByteArray_size sourceData <= INT_MAX ->
    Forall wfByteRange (m_byteRanges signature) ->
    passesBoundsChecks sourceData (m_byteRanges signature) ->
    getSignedDataBuffer_sha1 signature sourceData r outputBuffer
    = (fst (fst (getSignedDataBuffer signature sourceData r [])),
       SHA1 (rangeSlices sourceData (m_byteRanges signature)),
       Some (SHA1 (rangeSlices sourceData (m_byteRanges signature))))
    /\ snd (getSignedDataBuffer signature sourceData r [])
       = Some (rangeSlices sourceData (m_byteRanges signature)).
Proof.
  intros signature sourceData r outputBuffer HF Hwf Hp.
  destruct (@getSignedDataBuffer_accepts signature sourceData r [] HF Hwf Hp)
    as (_ & _ & H).
  unfold getSignedDataBuffer_sha1. rewrite H. cbn [fst snd app]. auto.
Qed.

(** X23. getMessageDigest writes the digest only when it returns true:
    then the signature decrypted to a positive number of bytes, the NID
    it reports names a digest OpenSSL knows, and the digest is the one of
    the message under it; when it returns false the digest buffer is as
    before, and the NID is 0 unless the algorithm was read. *)
Theorem X23_message_digest_outcomes :
  forall (message : QByteArray) (encryptedString : ASN1_OCTET_STRING) (rsa : RSA)
         (digest : QByteArray),
    match getMessageDigest message encryptedString rsa digest with
    | (true, algorithmNID, digest') =>
        fst (RSA_public_decrypt encryptedString rsa) > 0
        /\ getMessageDigestAlgorithm encryptedString rsa = (true, algorithmNID)
        /\ exists md, EVP_get_digestbynid algorithmNID = Some md
                      /\ digest' = EVP_Digest md message
    | (false, algorithmNID, digest') =>
        digest' = digest
        /\ (algorithmNID = 0
            \/ (getMessageDigestAlgorithm encryptedString rsa = (true, algorithmNID)
                /\ EVP_get_digestbynid algorithmNID = None))
    end.
Proof.
  intros message encryptedString rsa digest.
  unfold getMessageDigest, getMessageDigestAlgorithm.
  destruct (RSA_public_decrypt encryptedString rsa) as [signatureSize decryptedBuffer].
  cbn [fst].
  destruct (signatureSize <=? 0) eqn:Hsize; cbn [negb]; [auto|].
  apply Z.leb_gt in Hsize.
  destruct (d2i_X509_SIG decryptedBuffer signatureSize) as [x509_sig|]; cbn [negb]; [|auto].
  destruct (EVP_get_digestbynid (X509_SIG_algorithm_nid x509_sig)) as [md|] eqn:Hmd.
  - split; [lia|]. split; [reflexivity|]. exists md. auto.
  - auto.
Qed.

End WithOpenSSL.

End PhaseSeparation.

(* ================================================================== *)
(** * The stream format is self-delimiting *)
(* ================================================================== *)

Module StreamFormat.
Import CertificateStore.
Import DataStreamFacts.

Lemma serialize_entry_append (e : CertificateEntry) (stream : Stream) :
  serialize_entry e stream = stream ++ serialize_entry e [].
Proof.
  unfold serialize_entry. cbn [app]. now rewrite <- !app_assoc.
Qed.

(** X24. An entry of the store is read back unchanged from the bytes
    that serialize writes, with either entry type, into any target entry,
    and the bytes behind it stay in the stream; serialize only appends to
    the stream it is given. *)
Theorem X24_entry_round_trip :
  forall (e target : CertificateEntry) (stream rest : Stream),
    valid_info (info e) -> targetInfo (info target) ->
    deserialize_entry target (serialize_entry e [] ++ rest) = Some (e, rest)
    /\ serialize_entry e stream = stream ++ serialize_entry e [].
Proof.
  intros e target stream rest He Ht. split.
  - now apply read_write_entry.
  - apply serialize_entry_append.
Qed.

(** X25. The format is self-delimiting: when the bytes of two
    representable stores, each followed by any bytes, are the same
    stream, the stores are equal and so are the bytes that follow; the
    same holds for two certificate descriptions.  In particular
    serialize is injective on representable values. *)
Theorem X25_serialization_is_injective :
  forall (s1 s2 : PDFCertificateStore) (i1 i2 : PDFCertificateInfo) (rest1 rest2 : Stream),
    valid_store s1 -> valid_store s2 -> valid_info i1 -> valid_info i2 ->
    (serialize_store s1 [] ++ rest1 = serialize_store s2 [] ++ rest2 ->
     s1 = s2 /\ rest1 = rest2)
    /\ (serialize_info i1 [] ++ rest1 = serialize_info i2 [] ++ rest2 ->
        i1 = i2 /\ rest1 = rest2).
Proof.
  intros s1 s2 i1 i2 rest1 rest2 Hs1 Hs2 Hi1 Hi2. split; intros Heq.
  - pose proof (@deserialize_store_fields s1 emptyStore persist_version rest1 Hs1
                  (Forall_nil _)) as H1.
    pose proof (@deserialize_store_fields s2 emptyStore persist_version rest2 Hs2
                  (Forall_nil _)) as H2.
    rewrite !serialize_store_fields, <- !app_assoc in Heq.
    rewrite Heq, H2 in H1. now inversion H1.
  - pose proof (@read_write_info i1 defaultInfo rest1 Hi1 defaultInfo_target) as H1.
    pose proof (@read_write_info i2 defaultInfo rest2 Hi2 defaultInfo_target) as H2.
    rewrite Heq, H2 in H1. now inversion H1.
Qed.

End StreamFormat.

(* ================================================================== *)
(** * Counting the messages of a result *)
(* ================================================================== *)

Module MessageCounts.
Import FlagFacts.
Import EngineFacts.
Import ResultEvolution.

(** The error flags that are set in a result. *)
Definition setErrorFlags (r : PDFSignatureVerificationResult) : list VerificationFlag :=
  filter (hasFlag r) errorFlags.

(** The result has no warning, or the one of getSignedDataBuffer. *)
Definition atMostOneWarning (before : list QString) (r : PDFSignatureVerificationResult) : Prop :=
  m_warnings r = before
  \/ exists count,
      m_warnings r
      = before ++ [arg (tr "%1 bytes are not covered by signature.") (number count)].

Definition occurrences (f : VerificationFlag) (l : list VerificationFlag) : nat :=
  List.length (filter (fun g => flagBit g =? flagBit f) l).

Lemma filter_orb_length {A : Type} (p q : A -> bool) (l : list A) :
  (List.length (filter (fun x => p x || q x) l)
   <= List.length (filter p l) + List.length (filter q l))%nat.
Proof.
  induction l as [|x l IH]; cbn [filter]; [cbn; lia|].
  destruct (p x), (q x); cbn [orb List.length]; lia.
Qed.

Lemma occurrences_errorFlags (f : VerificationFlag) : (occurrences f errorFlags <= 1)%nat.
Proof. destruct f; vm_compute; lia. Qed.

Lemma setErrorFlags_after (r r' : PDFSignatureVerificationResult) (f : VerificationFlag) :
  (forall g, hasFlag r' g = hasFlag r g || (flagBit g =? flagBit f)) ->
  (List.length (setErrorFlags r') <= List.length (setErrorFlags r) + occurrences f errorFlags)%nat.
Proof.
  intros H. unfold setErrorFlags, occurrences.
  rewrite (filter_ext (hasFlag r') (fun g => hasFlag r g || (flagBit g =? flagBit f)) H).
  apply filter_orb_length.
Qed.

Lemma setErrorFlags_same (r r' : PDFSignatureVerificationResult) :
  (forall g, hasFlag r' g = hasFlag r g) -> setErrorFlags r' = setErrorFlags r.
Proof. intros H. unfold setErrorFlags. now apply filter_ext. Qed.

Lemma step_counts r r' :
  step r r' ->
  (List.length (setErrorFlags r) <= List.length (m_errors r))%nat ->
  (List.length (setErrorFlags r') <= List.length (m_errors r'))%nat.
Proof.
  intros H Hr. destruct H as [r f message Hin|r count|r i|r f Hin|r reference|r name].
  - pose proof (@setErrorFlags_after r (addError r f message) f
                  (fun g => hasFlag_addError r f message g)) as Hs.
    pose proof (occurrences_errorFlags f). cbn [m_errors addError].
    rewrite length_app. cbn [List.length]. lia.
  - pose proof (@setErrorFlags_after r (addSignatureNotCoveredBytesWarning r count)
                  Warning_Signature_NotCoveredBytes (fun g => hasFlag_warning r count g)) as Hs.
    change (occurrences Warning_Signature_NotCoveredBytes errorFlags) with 0%nat in Hs.
    cbn [m_errors addSignatureNotCoveredBytesWarning]. lia.
  - rewrite (@setErrorFlags_same r (addCertificateInfo r i)
               (fun g => hasFlag_addCertificateInfo r i g)). exact Hr.
  - pose proof (@setErrorFlags_after r (setFlag r f true) f
                  (fun g => hasFlag_setFlag_true r f g)) as Hs.
    assert (H0 : occurrences f errorFlags = 0%nat)
      by (destruct Hin as [<-|[<-|[<-|[]]]]; reflexivity).
    rewrite H0 in Hs. cbn [m_errors setFlag withFlags]. lia.
  - exact Hr.
  - exact Hr.
Qed.

Lemma evolves_counts r r' :
  evolves r r' ->
  (List.length (setErrorFlags r) <= List.length (m_errors r))%nat ->
  (List.length (setErrorFlags r') <= List.length (m_errors r'))%nat.
Proof.
  induction 1 as [|r r' r'' H IH Hs]; intros Hr; [exact Hr|].
  eapply step_counts; [exact Hs|apply IH, Hr].
Qed.

Ltac same_warnings :=
  unfold_adders; repeat break_match;
  cbn [m_warnings addError setFlag withFlags addCertificateInfo fst snd];
  try reflexivity.

Lemma atMostOneWarning_same before r r' :
  m_warnings r' = m_warnings r -> atMostOneWarning before r -> atMostOneWarning before r'.
Proof. unfold atMostOneWarning. intros ->. auto. Qed.

Lemma setCertificateOK_warnings r : m_warnings (setCertificateOK r) = m_warnings r.
Proof. unfold setCertificateOK. same_warnings. Qed.

Lemma setSignatureOK_warnings r : m_warnings (setSignatureOK r) = m_warnings r.
Proof. unfold setSignatureOK. same_warnings. Qed.

Lemma validate_warnings r : m_warnings (validate r) = m_warnings r.
Proof. unfold validate. same_warnings. Qed.

Lemma getSignedDataBuffer_warnings signature sourceData r outputBuffer :
  atMostOneWarning (m_warnings r)
    (fst (fst (getSignedDataBuffer signature sourceData r outputBuffer))).
Proof.
  unfold getSignedDataBuffer, atMostOneWarning.
  repeat break_match; cbn [fst]; unfold_adders;
    cbn [m_warnings addError addSignatureNotCoveredBytesWarning]; eauto.
Qed.

Section WithOpenSSL.
Context {ssl : OpenSSL}.

Lemma addVerificationError_warnings r error :
  m_warnings (addVerificationError r error) = m_warnings r.
Proof. unfold addVerificationError. same_warnings. Qed.

Lemma addCertificateInfos_warnings certificates :
  forall r, m_warnings (addCertificateInfos r certificates) = m_warnings r.
Proof.
  unfold addCertificateInfos.
  induction certificates as [|c cs IH]; intros r; cbn [fold_left]; [reflexivity|].
  now rewrite IH.
Qed.

Lemma verifyChain_warnings h context certificates r :
  m_warnings (snd (verifyChain h context certificates r)) = m_warnings r.
Proof.
  unfold verifyChain. repeat break_match; cbn [snd];
    now rewrite addCertificateInfos_warnings, ?addVerificationError_warnings.
Qed.

Lemma verifyCertificateSigners_warnings h x509store certificates signerInfo :
  forall context r,
    m_warnings (verifyCertificateSigners h x509store certificates signerInfo context r)
    = m_warnings r.
Proof.
  induction signerInfo as [|s rest IH]; intros context r; cbn [verifyCertificateSigners].
  - reflexivity.
  - destruct (X509_find_by_issuer_and_serial certificates s); [|same_warnings].
    destruct (X509_STORE_CTX_init context x509store x certificates) as [initialized context1].
    destruct initialized; cbn [negb]; [|same_warnings].
    destruct (X509_STORE_CTX_set_purpose context1 X509_PURPOSE_SMIME_SIGN) as [purposeSet context2].
    destruct purposeSet; cbn [negb]; [|same_warnings].
    pose proof (verifyChain_warnings h context2 certificates r) as Hc.
    destruct (verifyChain h context2 certificates r) as [context3 r1]. cbn [snd] in Hc.
    now rewrite IH.
Qed.

Lemma verifyCertificate_warnings h r : m_warnings (verifyCertificate h r) = m_warnings r.
Proof.
  unfold verifyCertificate. rewrite setCertificateOK_warnings.
  repeat break_match; try apply verifyCertificateSigners_warnings; same_warnings.
Qed.

Lemma verifyRSACertificate_warnings h r : m_warnings (verifyRSACertificate h r) = m_warnings r.
Proof.
  unfold verifyRSACertificate. rewrite setCertificateOK_warnings.
  destruct (createCertificate h 0); [|same_warnings].
  destruct (X509_STORE_CTX_init _ _ _ _) as [initialized context1].
  destruct (X509_STORE_CTX_set_purpose _ _) as [purposeSet context2].
  set (r1 := if negb initialized then addCertificateGenericError r else r).
  set (r2 := if negb purposeSet then addCertificateGenericError r1 else r1).
  assert (H1 : m_warnings r1 = m_warnings r) by (subst r1; same_warnings).
  assert (H2 : m_warnings r2 = m_warnings r1) by (subst r2; same_warnings).
  destruct (negb (hasCertificateError r2)).
  - rewrite verifyChain_warnings. congruence.
  - congruence.
Qed.

Lemma getSignedDataBufferOf_warnings h r outputBuffer :
  atMostOneWarning (m_warnings r) (fst (fst (getSignedDataBufferOf h r outputBuffer))).
Proof.
  unfold getSignedDataBufferOf, getSignedDataBuffer_sha1.
  destruct (handlerClass h); try apply getSignedDataBuffer_warnings.
  pose proof (getSignedDataBuffer_warnings (getSignature (m_signatureField h))
                (m_sourceData h) r []) as Hf.
  destruct (getSignedDataBuffer _ _ r []) as [[r1 temporaryBuffer] [bio|]]; exact Hf.
Qed.

Lemma verifySignatureSigners_warnings pkcs7 dataBio certificates signerInfo :
  forall r,
    m_warnings (verifySignatureSigners pkcs7 dataBio certificates signerInfo r) = m_warnings r.
Proof.
  induction signerInfo as [|s rest IH]; intros r; cbn [verifySignatureSigners].
  - reflexivity.
  - destruct (X509_find_by_issuer_and_serial certificates s); [|same_warnings].
    destruct (PKCS7_signatureVerify dataBio pkcs7 s x) as [verification reason].
    rewrite IH. same_warnings.
Qed.

Lemma verifySignature_warnings h r :
  atMostOneWarning (m_warnings r) (verifySignature h r).
Proof.
  unfold verifySignature.
  apply (@atMostOneWarning_same _ _ _ (setSignatureOK_warnings _)).
  destruct (d2i_PKCS7 _) as [pkcs7|]; [|left; same_warnings].
  pose proof (getSignedDataBufferOf_warnings h r []) as Hf.
  destruct (getSignedDataBufferOf h r []) as [[r1 buffer] [inputBuffer|]]; cbn [fst] in Hf;
    [|exact Hf].
  refine (@atMostOneWarning_same _ r1 _ _ Hf).
  repeat break_match; try apply verifySignatureSigners_warnings; same_warnings.
Qed.

Lemma verifyRSASignature_warnings h r :
  atMostOneWarning (m_warnings r) (verifyRSASignature h r).
Proof.
  unfold verifyRSASignature.
  destruct (createCertificate h 0) as [certificate|]; [|left; same_warnings].
  destruct (X509_get0_pubkey certificate) as [evpKey|]; [|left; same_warnings].
  destruct (EVP_PKEY_get0_RSA evpKey) as [rsa|]; [|left; same_warnings].
  pose proof (getSignedDataBufferOf_warnings h r []) as Hf.
  destruct (getSignedDataBufferOf h r []) as [[r1 outputBuffer] [bio|]]; cbn [fst] in Hf;
    [|exact (@atMostOneWarning_same _ r1 _ (setSignatureOK_warnings r1) Hf)].
  refine (@atMostOneWarning_same _ r1 _ _ Hf).
  destruct (d2i_ASN1_OCTET_STRING _) as [encryptedString|].
  - destruct (getMessageDigest outputBuffer encryptedString rsa []) as [[found nid] digest].
    destruct found; [|same_warnings].
    destruct (RSA_verify nid digest encryptedString rsa) as [verifyValue errorCode].
    rewrite setSignatureOK_warnings. same_warnings.
  - rewrite setSignatureOK_warnings. same_warnings.
Qed.

Lemma verify_warnings h : atMostOneWarning [] (verify h).
Proof.
  unfold verify. destruct (handlerClass h);
    apply (@atMostOneWarning_same _ _ _ (validate_warnings _)).
  - pose proof (verifySignature_warnings h (verifyCertificate h (initializeResult h emptyResult)))
      as H.
    now rewrite verifyCertificate_warnings in H.
  - pose proof (verifySignature_warnings h (verifyCertificate h (initializeResult h emptyResult)))
      as H.
    now rewrite verifyCertificate_warnings in H.
  - pose proof (verifyRSASignature_warnings h
                  (verifyRSACertificate h (initializeResult h emptyResult))) as H.
    now rewrite verifyRSACertificate_warnings in H.
Qed.

(** X26. Every result that verifySignatures returns has at least as
    many error messages as error flags set (each error sets one flag and
    appends one message; an error that repeats sets its flag once), and
    at most one warning, the one about bytes not covered. *)
Theorem X26_message_counts :
  forall (form : PDFForm) (sourceData : QByteArray) (parameters : Parameters)
         (r : PDFSignatureVerificationResult),
    In r (verifySignatures form sourceData parameters) ->
    (List.length (setErrorFlags r) <= List.length (m_errors r))%nat
    /\ (m_warnings r = []
        \/ exists count,
            m_warnings r = [arg (tr "%1 bytes are not covered by signature.") (number count)]).
Proof.
  intros form sourceData parameters r Hin.
  unfold verifySignatures in Hin.
  destruct (enableVerification parameters && (isAcroForm form || isXFAForm form));
    [|destruct Hin].
  rewrite VerifySignaturesFacts.fold_left_snoc in Hin. cbn [app] in Hin.
  apply in_map_iff in Hin. destruct Hin as (field & <- & _). split.
  - apply (evolves_counts (verifyField_evolves sourceData parameters field)).
    cbn. lia.
  - unfold verifyField. destruct (createHandler _ _ _) as [h|].
    + exact (verify_warnings h).
    + left. reflexivity.
Qed.

End WithOpenSSL.

End MessageCounts.

(* ================================================================== *)
(** * Verifying a certificate chain *)
(* ================================================================== *)

Module ChainVerification.
Import FlagFacts.
Import EngineFacts.

Section WithOpenSSL.
Context {ssl : OpenSSL}.

Lemma addCertificateInfos_fields (certificates : list X509) :
  forall r,
    m_flags (addCertificateInfos r certificates) = m_flags r
    /\ m_errors (addCertificateInfos r certificates) = m_errors r
    /\ m_certificateInfos (addCertificateInfos r certificates)
       = m_certificateInfos r ++ map getCertificateInfo certificates.
Proof.
  unfold addCertificateInfos.
  induction certificates as [|c cs IH]; intros r; cbn [fold_left map].
  - now rewrite app_nil_r.
  - destruct (IH (addCertificateInfo r (getCertificateInfo c))) as (Hf & He & Hi).
    rewrite Hf, He, Hi. cbn [m_flags m_errors m_certificateInfos addCertificateInfo].
    now rewrite <- app_assoc.
Qed.

Lemma addVerificationError_cases (r : PDFSignatureVerificationResult) (error : Z) :
  (error = X509_V_OK /\ addVerificationError r error = r)
  \/ (error <> X509_V_OK
      /\ exists f message,
          In f certificateErrors /\ addVerificationError r error = addError r f message).
Proof.
  unfold addVerificationError.
  destruct (Z.eqb_spec error X509_V_OK) as [E|E]; [left; auto|right].
  split; [exact E|]. unfold_adders.
  repeat break_match; eexists; eexists; (split; [|reflexivity]); cbn; tauto.
Qed.

Lemma hasCertificateError_flags (r r' : PDFSignatureVerificationResult) :
  m_flags r' = m_flags r -> hasCertificateError r' = hasCertificateError r.
Proof. unfold hasCertificateError. now intros ->. Qed.

(** X18. What one run of X509_verify_cert leaves in the result.  When
    it fails, the certificates given to the check are described, and one
    error of the certificate group is recorded unless the error code is
    X509_V_OK; a failure with that code records nothing.  When it
    succeeds, the certificates of the verified chain are described and
    no error is recorded. *)
Theorem X18_chain_verification_outcome :
  forall (h : PDFSignatureHandler) (context context' : X509_STORE_CTX)
         (certificates : list X509) (r : PDFSignatureVerificationResult)
         (verificationResult : Z),
    X509_verify_cert (X509_STORE_CTX_set_flags context (verificationFlags h))
    = (verificationResult, context') ->
    let r' := snd (verifyChain h context certificates r) in
    let recorded :=
      (verificationResult <=? 0) && negb (X509_STORE_CTX_get_error context' =? X509_V_OK) in
    m_certificateInfos r'
    = m_certificateInfos r
      ++ map getCertificateInfo
           (if verificationResult <=? 0 then certificates
            else X509_STORE_CTX_get0_chain context')
    /\ hasCertificateError r' = hasCertificateError r || recorded
    /\ List.length (m_errors r')
       = (List.length (m_errors r) + if recorded then 1 else 0)%nat.
Proof.
  intros h context context' certificates r verificationResult Hverify r' recorded.
  subst r' recorded. unfold verifyChain. rewrite Hverify. cbn [snd].
  destruct (verificationResult <=? 0); cbn [andb].
  - destruct (addCertificateInfos_fields certificates
                (addVerificationError r (X509_STORE_CTX_get_error context')))
      as (Hf & He & Hi).
    rewrite Hi, He, (hasCertificateError_flags _ _ Hf).
    destruct (addVerificationError_cases r (X509_STORE_CTX_get_error context'))
      as [[E ->]|(E & f & message & Hin & ->)].
    + rewrite E, Z.eqb_refl. cbn [negb]. now rewrite orb_false_r, Nat.add_0_r.
    + apply Z.eqb_neq in E. rewrite E. cbn [negb].
      rewrite (hasCertificateError_addError r message Hin), orb_true_r.
      cbn [m_errors m_certificateInfos addError]. rewrite length_app. cbn [List.length].
      auto.
  - destruct (addCertificateInfos_fields (X509_STORE_CTX_get0_chain context') r)
      as (Hf & He & Hi).
    rewrite Hi, He, (hasCertificateError_flags _ _ Hf).
    now rewrite orb_false_r, Nat.add_0_r.
Qed.

Lemma setCertificateOK_infos (r : PDFSignatureVerificationResult) :
  m_certificateInfos (setCertificateOK r) = m_certificateInfos r.
Proof. unfold setCertificateOK. now destruct (negb (hasCertificateError r)). Qed.

Lemma addVerificationError_infos (r : PDFSignatureVerificationResult) (error : Z) :
  m_certificateInfos (addVerificationError r error) = m_certificateInfos r.
Proof.
  destruct (addVerificationError_cases r error) as [[_ ->]|(_ & f & message & _ & ->)];
    reflexivity.
Qed.

(** X15. The stack of verifyRSACertificate.  Behind the first
    certificate the loop pushes createCertificate(1), createCertificate(2),
    ... in order and stops at the first index for which createCertificate
    returns a null pointer, and it frees each of them right after the
    push.  So the stack handed to X509_STORE_CTX_init and to the chain
    check is the first certificate followed by freed certificates, and
    when the check fails the descriptions added to the result are read
    from this stack, freed certificates included. *)
Theorem X15_rsa_stack_holds_freed_certificates :
  forall (h : PDFSignatureHandler) (r : PDFSignatureVerificationResult) (certificate : X509),
    createCertificate h 0 = Some certificate ->
    exists pushed : list X509,
      (forall k, nth_error pushed k
                 = if (k <? List.length pushed)%nat then createCertificate h (S k) else None)
      /\ createCertificate h (S (List.length pushed)) = None
      /\ let stack := certificate :: map X509_free pushed in
         forall context1 context2,
           X509_STORE_CTX_init X509_STORE_CTX_new (addTrustedCertificates h []) certificate stack
           = (true, context1) ->
           X509_STORE_CTX_set_purpose context1 X509_PURPOSE_SMIME_SIGN = (true, context2) ->
           hasCertificateError r = false ->
           verifyRSACertificate h r = setCertificateOK (snd (verifyChain h context2 stack r))
           /\ (fst (X509_verify_cert (X509_STORE_CTX_set_flags context2 (verificationFlags h)))
               <= 0 ->
               m_certificateInfos (verifyRSACertificate h r)
               = m_certificateInfos r ++ map getCertificateInfo stack).
Proof.
  intros h r certificate Hfirst.
  exists (CertificateLists.parsedPrefix (CertificateLists.encodedTail h)).
  destruct (CertificateLists.parsedPrefix_createCertificate h) as [Hnth Hstop].
  split; [exact Hnth|]. split; [exact Hstop|].
  cbv zeta. intros context1 context2 Hinit Hpurpose Herror.
  assert (Heq : verifyRSACertificate h r
                = setCertificateOK
                    (snd (verifyChain h context2
                            (certificate
                             :: map X509_free
                                  (CertificateLists.parsedPrefix (CertificateLists.encodedTail h)))
                            r))).
  { unfold verifyRSACertificate. rewrite Hfirst.
    unfold CertificateLists.encodedTail in *.
    rewrite CertificateLists.createCertificatesFrom_freed, Hinit. cbn [negb].
    rewrite Hpurpose. cbn [negb]. rewrite Herror. reflexivity. }
  split; [exact Heq|].
  intros Hfails. rewrite Heq, setCertificateOK_infos. unfold verifyChain.
  destruct (X509_verify_cert (X509_STORE_CTX_set_flags context2 (verificationFlags h)))
    as [verificationResult context3].
  cbn [fst] in Hfails. cbn [snd].
  replace (verificationResult <=? 0) with true by (symmetry; apply Z.leb_le; exact Hfails).
  destruct (addCertificateInfos_fields
              (certificate
               :: map X509_free (CertificateLists.parsedPrefix (CertificateLists.encodedTail h)))
              (addVerificationError r (X509_STORE_CTX_get_error context3)))
    as (_ & _ & Hinfos).
  rewrite Hinfos, addVerificationError_infos. reflexivity.
Qed.

End WithOpenSSL.

End ChainVerification.

(* ================================================================== *)
(** * A second small OpenSSL *)
(* ================================================================== *)

Module SignerOpenSSL.
Import SmallOpenSSL.

(** A certificate that is the tag byte alone. *)
Definition bareTag (certificate : QByteArray) : bool :=
  match certificate with
  | [_] => true
  | _ => false
  end.

(** As [smallOpenSSL], but a signer info names its certificate by the
    bytes of the certificate, the signature of a signer whose certificate
    is a bare tag does not verify (digest failure), and the chain check of
    such a certificate fails leaving the error code X509_V_OK. *)
Definition signerOpenSSL : OpenSSL := {|
  X509 := QByteArray;
  X509_NAME := unit;
  X509_NAME_ENTRY := unit;
  ASN1_STRING := unit;
  ASN1_TIME := Z;
  ASN1_OCTET_STRING := QByteArray;
  EVP_PKEY := unit;
  EVP_MD := unit;
  RSA := unit;
  X509_SIG := unit;
  PKCS7 := QByteArray;
  PKCS7_SIGNER_INFO := QByteArray;
  X509_STORE_CTX := (list QByteArray * option QByteArray)%type;
  BIO := QByteArray;
  d2i_X509 := parse;
  d2i_PKCS7 := parse;
  d2i_ASN1_OCTET_STRING := fun b => Some b;
  d2i_X509_SIG := fun _ _ => Some tt;
  i2d_X509 := fun c => (QByteArray_size c, c);
  X509_free := fun _ => [];
  NID_countryName := 14;
  NID_organizationName := 17;
  NID_organizationalUnitName := 18;
  NID_distinguishedName := 887;
  NID_stateOrProvinceName := 16;
  NID_commonName := 13;
  NID_serialNumber := 105;
  NID_localityName := 15;
  NID_title := 106;
  NID_surname := 100;
  NID_givenName := 99;
  NID_initials := 101;
  NID_pseudonym := 510;
  NID_generationQualifier := 509;
  NID_pkcs9_emailAddress := 48;
  X509_get_subject_name := fun _ => Some tt;
  X509_NAME_get_index_by_NID := fun _ _ _ => -1;
  X509_NAME_get_entry := fun _ _ => None;
  X509_NAME_ENTRY_get_data := fun _ => None;
  ASN1_STRING_to_UTF8 := fun _ => (0, []);
  QString_fromUtf8 := fun b n => fromLatin1 (firstn (Z.to_nat n) b);
  X509_get_version := fun _ => 2;
  X509_get0_notBefore := fun _ => Some 0;
  X509_get0_notAfter := fun _ => Some 4102444800;
  ASN1_TIME_to_time_t := fun t => Some t;
  X509_public_key_type := fun _ => 6;
  X509_public_key_bits := fun _ => 2048;
  EVP_PKEY_RSA := 6;
  EVP_PKEY_DSA := 116;
  EVP_PKEY_DH := 28;
  EVP_PKEY_EC := 408;
  X509_get_key_usage := fun _ => 2 ^ 32 - 1;
  X509_get0_pubkey := fun _ => Some tt;
  EVP_PKEY_get0_RSA := fun _ => Some tt;
  PKCS7_type_is_signed := fun _ => true;
  PKCS7_type_is_signedAndEnveloped := fun _ => false;
  PKCS7_sign_cert := fun p => Some [p];
  PKCS7_signed_and_enveloped_cert := fun _ => None;
  PKCS7_get_signer_info := fun p => Some [p];
  X509_find_by_issuer_and_serial :=
    fun certificates signerInfo => find (QByteArray_eqb signerInfo) certificates;
  PKCS7_dataInit := fun _ data => Some data;
  BIO_read_until_end := fun bio => bio;
  PKCS7_signatureVerify := fun _ _ _ signer => if bareTag signer then (0, 101) else (1, 0);
  PKCS7_R_DIGEST_FAILURE := 101;
  X509_STORE_CTX_new := ([], None);
  X509_STORE_CTX_init := fun _ x509store signer _ => (true, (x509store, Some signer));
  X509_STORE_CTX_set_purpose := fun context _ => (true, context);
  X509_STORE_CTX_set_flags := fun context _ => context;
  X509_verify_cert := fun context => (verifyContext context, context);
  X509_STORE_CTX_get_error :=
    fun context =>
      match snd context with
      | Some signer => if bareTag signer then 0 else 18
      | None => 18
      end;
  X509_STORE_CTX_get0_chain :=
    fun context => match snd context with Some signer => [signer] | None => [] end;
  X509_STORE_CTX_cleanup := fun _ => ([], None);
  X509_PURPOSE_SMIME_SIGN := 4;
  X509_V_FLAG_TRUSTED_FIRST := 32768;
  X509_V_FLAG_NO_CHECK_TIME := 2097152;
  X509_V_OK := 0;
  X509_V_ERR_CERT_HAS_EXPIRED := 10;
  X509_V_ERR_DEPTH_ZERO_SELF_SIGNED_CERT := 18;
  X509_V_ERR_SELF_SIGNED_CERT_IN_CHAIN := 19;
  X509_V_ERR_UNABLE_TO_GET_ISSUER_CERT := 2;
  X509_V_ERR_UNABLE_TO_GET_ISSUER_CERT_LOCALLY := 20;
  X509_V_ERR_CERT_REVOKED := 23;
  systemRootCertificates := [];
  RSA_size := fun _ => 256;
  RSA_public_decrypt := fun s _ => (QByteArray_size s, s);
  X509_SIG_algorithm_nid := fun _ => 672;
  EVP_get_digestbynid := fun _ => Some tt;
  EVP_Digest := fun _ message => message;
  RSA_verify := fun _ _ _ _ => (1, 0);
  RSA_R_DIGEST_DOES_NOT_MATCH := 104;
  SHA1 := fun message => firstn 20 message
|}.

Definition tagOnly : QByteArray := lit "0".
Definition firstSigner : QByteArray := lit "01".
Definition unknownSigner : QByteArray := lit "02".

End SignerOpenSSL.

(* ================================================================== *)
(** * Further properties on concrete inputs *)
(* ================================================================== *)

Module FurtherExamples.
Import SmallOpenSSL.
Import SignerOpenSSL.
Import CertificateStore.
Import AssemblerFacts.
Import DataStreamFacts.
Import Examples.

Definition unknownField : PDFFormField := exampleField "adbe.foo.unknown" exampleRanges.

Definition rangesWithEmpty : list ByteRange :=
  [mkByteRange 0 7; mkByteRange 9 0; mkByteRange 17 4].

Definition rangesOutside : list ByteRange := [mkByteRange 0 7; mkByteRange 17 5].

(** A field whose contents do not start with the tag byte. *)
Definition unparsableField : PDFFormField :=
  mkField Signature (12, 0) (tr "Signature1")
    (mkSignature Sig (lit "Adobe.PPKLite") (lit "adbe.pkcs7.detached") (lit "abc") None
                 exampleRanges).

Lemma unknownField_unknown :
  forall class,
    ~ In (m_subfilter (getSignature unknownField), class) HandlerSelection.knownSubfilters.
Proof. intros class H. vm_compute in H. intuition discriminate. Qed.

Lemma X2_messages_agree_with_flags_witness :
  let r := verifyField exampleFile trustingParameters unknownField in
  In r (verifySignatures exampleForm exampleFile trustingParameters)
  /\ ((m_errors r = []
       <-> forall f, In f ResultEvolution.errorFlags -> hasFlag r f = false)
      /\ (m_warnings r = [] <-> hasFlag r Warning_Signature_NotCoveredBytes = false)).
Proof.
  cbv zeta.
  assert (Hin : In (verifyField exampleFile trustingParameters unknownField)
                   (verifySignatures exampleForm exampleFile trustingParameters))
    by (left; reflexivity).
  split; [exact Hin|].
  exact (@ResultInvariants.X2_messages_agree_with_flags smallOpenSSL
           exampleForm exampleFile trustingParameters _ Hin).
Defined.

Lemma X3_pkcs7_contents_do_not_parse_witness :
  let h := mkHandler PDFSignatureHandler_adbe_pkcs7_detached unparsableField exampleFile
                     plainParameters in
  (handlerClass h <> PDFSignatureHandler_adbe_pkcs7_rsa_sha1
   /\ d2i_PKCS7 (m_contents (getSignature (m_signatureField h))) = None)
  /\ (verify h
      = addInvalidSignatureError (addInvalidCertificateError (initializeResult h emptyResult))
      /\ isValid (verify h) = false
      /\ isCertificateValid (verify h) = false
      /\ isSignatureValid (verify h) = false).
Proof.
  cbv zeta.
  assert (H1 : PDFSignatureHandler_adbe_pkcs7_detached
               <> PDFSignatureHandler_adbe_pkcs7_rsa_sha1) by discriminate.
  split; [split; [exact H1|reflexivity]|].
  exact (@HandlerEdgeCases.X3_pkcs7_contents_do_not_parse smallOpenSSL
           (mkHandler PDFSignatureHandler_adbe_pkcs7_detached unparsableField exampleFile
                      plainParameters) H1 eq_refl).
Defined.

Lemma X4_rsa_without_first_certificate_witness :
  let h := mkHandler PDFSignatureHandler_adbe_pkcs7_rsa_sha1
                     (exampleField "adbe.x509.rsa_sha1" exampleRanges) exampleFile
                     plainParameters in
  (handlerClass h = PDFSignatureHandler_adbe_pkcs7_rsa_sha1
   /\ HandlerEdgeCases.noFirstCertificate (getSignature (m_signatureField h)))
  /\ (verify h
      = addSignatureCertificateMissingError
          (addInvalidCertificateError (initializeResult h emptyResult))
      /\ isValid (verify h) = false
      /\ isCertificateValid (verify h) = false
      /\ isSignatureValid (verify h) = false).
Proof.
  cbv zeta.
  assert (H2 : HandlerEdgeCases.noFirstCertificate
                 (exampleSignature "adbe.x509.rsa_sha1" exampleRanges))
    by (left; reflexivity).
  split; [split; [reflexivity|exact H2]|].
  exact (@HandlerEdgeCases.X4_rsa_without_first_certificate smallOpenSSL
           (mkHandler PDFSignatureHandler_adbe_pkcs7_rsa_sha1
                      (exampleField "adbe.x509.rsa_sha1" exampleRanges) exampleFile
                      plainParameters) eq_refl H2).
Defined.

Lemma X5_pkcs7_range_outside_file_witness :
  let h := detachedHandler plainParameters rangesOutside in
  (handlerClass h <> PDFSignatureHandler_adbe_pkcs7_rsa_sha1
   /\ d2i_PKCS7 (m_contents (getSignature (m_signatureField h))) = Some exampleContents
   /\ Forall wfByteRange (m_byteRanges (getSignature (m_signatureField h)))
   /\ HandlerEdgeCases.someRangeOutside (m_sourceData h)
        (m_byteRanges (getSignature (m_signatureField h))))
  /\ (verify h
      = addSignatureDataCoveredBySignatureMissingError
          (verifyCertificate h (initializeResult h emptyResult))
      /\ isSignatureValid (verify h) = false
      /\ isValid (verify h) = false
      /\ m_warnings (verify h) = []
      /\ hasFlag (verify h) Error_Signature_DataCoveredBySignatureMissing = true).
Proof.
  cbv zeta.
  assert (H1 : PDFSignatureHandler_adbe_pkcs7_detached
               <> PDFSignatureHandler_adbe_pkcs7_rsa_sha1) by discriminate.
  assert (H3 : Forall wfByteRange rangesOutside) by ranges_ok.
  assert (H4 : HandlerEdgeCases.someRangeOutside exampleFile rangesOutside).
  { exists (mkByteRange 17 5). cbn. repeat split; [tauto|lia|lia]. }
  split; [exact (conj H1 (conj eq_refl (conj H3 H4)))|].
  exact (@HandlerEdgeCases.X5_pkcs7_range_outside_file smallOpenSSL
           (detachedHandler plainParameters rangesOutside) exampleContents
           H1 eq_refl H3 H4).
Defined.

(** Two signers whose certificates are found, the second one failing,
    then a signer whose certificate is not among the certificates. *)
Lemma X6_signature_signers_loop_witness :
  let certificates := [firstSigner; tagOnly] in
  let before := [firstSigner; tagOnly] in
  (Forall (HandlerEdgeCases.signerFound (ssl := signerOpenSSL) certificates) before
   /\ X509_find_by_issuer_and_serial (OpenSSL := signerOpenSSL) certificates unknownSigner
      = None)
  /\ (List.length
        (m_errors (verifySignatureSigners (ssl := signerOpenSSL) exampleContents exampleFile
                     certificates before emptyResult))
      = (List.length (m_errors emptyResult)
         + List.length
             (filter (HandlerEdgeCases.signerFails (ssl := signerOpenSSL)
                        exampleContents exampleFile certificates) before))%nat
      /\ verifySignatureSigners (ssl := signerOpenSSL) exampleContents exampleFile certificates
           (before ++ unknownSigner :: [firstSigner]) emptyResult
         = addSignatureCertificateMissingError
             (verifySignatureSigners (ssl := signerOpenSSL) exampleContents exampleFile
                certificates before emptyResult)).
Proof.
  cbv zeta.
  assert (H1 : Forall (HandlerEdgeCases.signerFound (ssl := signerOpenSSL)
                         [firstSigner; tagOnly]) [firstSigner; tagOnly])
    by (repeat (apply Forall_cons; [discriminate|]); apply Forall_nil).
  split; [split; [exact H1|reflexivity]|].
  exact (@HandlerEdgeCases.X6_signature_signers_loop signerOpenSSL
           exampleContents exampleFile [firstSigner; tagOnly] [firstSigner; tagOnly]
           [firstSigner] unknownSigner emptyResult H1 eq_refl).
Defined.

Lemma X7_certificate_signers_stop_at_missing_witness :
  let h := detachedHandler plainParameters exampleRanges in
  let certificates := [firstSigner; tagOnly] in
  X509_find_by_issuer_and_serial (OpenSSL := signerOpenSSL) certificates unknownSigner = None
  /\ (verifyCertificateSigners (ssl := signerOpenSSL) h [] certificates
        ([firstSigner] ++ unknownSigner :: [tagOnly]) ([], None) emptyResult
      = verifyCertificateSigners (ssl := signerOpenSSL) h [] certificates
          ([firstSigner] ++ [unknownSigner]) ([], None) emptyResult
      /\ hasCertificateError
           (verifyCertificateSigners (ssl := signerOpenSSL) h [] certificates
              ([firstSigner] ++ unknownSigner :: [tagOnly]) ([], None) emptyResult)
         = true).
Proof.
  cbv zeta. split; [reflexivity|].
  exact (@HandlerEdgeCases.X7_certificate_signers_stop_at_missing signerOpenSSL
           (detachedHandler plainParameters exampleRanges) [] [firstSigner; tagOnly]
           [firstSigner] [tagOnly] unknownSigner ([], None) emptyResult eq_refl).
Defined.

Lemma X8_buffer_iff_checks_pass_witness :
  let signature := exampleSignature "adbe.pkcs7.detached" exampleRanges in
  (QByteArray_size exampleFile <= INT_MAX /\ Forall wfByteRange (m_byteRanges signature))
  /\ (snd (getSignedDataBuffer signature exampleFile emptyResult []) <> None
      <-> passesBoundsChecks exampleFile (m_byteRanges signature)).
Proof.
  cbv zeta.
  assert (H2 : Forall wfByteRange exampleRanges) by ranges_ok.
  split; [exact (conj exampleFile_fits H2)|].
  exact (@AssemblerCoverage.X8_buffer_iff_checks_pass
           (exampleSignature "adbe.pkcs7.detached" exampleRanges) exampleFile emptyResult []
           exampleFile_fits H2).
Defined.

Lemma X9_empty_ranges_are_ignored_witness :
  let signature := exampleSignature "adbe.pkcs7.detached" rangesWithEmpty in
  Forall wfByteRange (m_byteRanges signature)
  /\ getSignedDataBuffer (AssemblerCoverage.withoutEmptyRanges signature) exampleFile
       emptyResult []
     = getSignedDataBuffer signature exampleFile emptyResult [].
Proof.
  cbv zeta.
  assert (H1 : Forall wfByteRange rangesWithEmpty) by ranges_ok.
  split; [exact H1|].
  exact (@AssemblerCoverage.X9_empty_ranges_are_ignored
           (exampleSignature "adbe.pkcs7.detached" rangesWithEmpty) exampleFile emptyResult []
           H1).
Defined.

Lemma X10_no_warning_iff_every_position_covered_witness :
  let signature := exampleSignature "adbe.pkcs7.detached" [mkByteRange 0 7] in
  (QByteArray_size exampleFile <= INT_MAX
   /\ Forall wfByteRange (m_byteRanges signature)
   /\ passesBoundsChecks exampleFile (m_byteRanges signature))
  /\ let r' := fst (fst (getSignedDataBuffer signature exampleFile emptyResult [])) in
     let covered :=
       forall x, 0 <= x < QByteArray_size exampleFile ->
                 AssemblerCoverage.positionCovered signature exampleFile x in
     (r' = emptyResult <-> covered)
     /\ ((covered /\ r' = emptyResult)
         \/ (~ covered
             /\ r' = addSignatureNotCoveredBytesWarning emptyResult
                       (AssemblerCoverage.uncoveredCount signature exampleFile)
             /\ m_warnings r'
                = m_warnings emptyResult
                  ++ [arg (tr "%1 bytes are not covered by signature.")
                          (number (AssemblerCoverage.uncoveredCount signature exampleFile))]
             /\ m_errors r' = m_errors emptyResult
             /\ m_certificateInfos r' = m_certificateInfos emptyResult)).
Proof.
  cbv zeta.
  assert (H2 : Forall wfByteRange [mkByteRange 0 7]) by ranges_ok.
  assert (H3 : passesBoundsChecks exampleFile [mkByteRange 0 7]) by ranges_pass.
  split; [exact (conj exampleFile_fits (conj H2 H3))|].
  exact (@AssemblerCoverage.X10_no_warning_iff_every_position_covered
           (exampleSignature "adbe.pkcs7.detached" [mkByteRange 0 7]) exampleFile emptyResult []
           exampleFile_fits H2 H3).
Defined.

(** A signature over the first range alone leaves the last 4 bytes of the
    21 uncovered: the coverage is [0, 16] and the warning reports 4. *)
Lemma C4_not_covered_bytes_warning_witness :
  let signature := exampleSignature "adbe.pkcs7.detached" [mkByteRange 0 7] in
  (QByteArray_size exampleFile <= INT_MAX
   /\ Forall wfByteRange (m_byteRanges signature)
   /\ passesBoundsChecks exampleFile (m_byteRanges signature))
  /\ exists s,
      mergedCoverage signature exampleFile = Some s
      /\ (forall x, member x s <-> AssemblerCoverage.positionCovered signature exampleFile x)
      /\ getTotalLength s
         = QByteArray_size exampleFile - AssemblerCoverage.uncoveredCount signature exampleFile
      /\ let r' := fst (fst (getSignedDataBuffer signature exampleFile emptyResult [])) in
         (r' = addSignatureNotCoveredBytesWarning emptyResult
                 (QByteArray_size exampleFile - getTotalLength s)
          <-> ~ coversFile s exampleFile)
         /\ (r' = emptyResult <-> coversFile s exampleFile).
Proof.
  cbv zeta.
  assert (H2 : Forall wfByteRange [mkByteRange 0 7]) by ranges_ok.
  assert (H3 : passesBoundsChecks exampleFile [mkByteRange 0 7]) by ranges_pass.
  split; [exact (conj exampleFile_fits (conj H2 H3))|].
  exact (@AssemblerCoverage.C4_not_covered_bytes_warning
           (exampleSignature "adbe.pkcs7.detached" [mkByteRange 0 7]) exampleFile emptyResult []
           exampleFile_fits H2 H3).
Defined.

(** The merged coverage of this signature is the one interval [0, 16]:
    the range [0, 6] and the contents with their delimiters [7, 16]. *)
Example first_range_coverage :
  mergedCoverage (exampleSignature "adbe.pkcs7.detached" [mkByteRange 0 7]) exampleFile
  = Some [(0, 16)].
Proof. vm_compute. reflexivity. Qed.

(** Contents that stand in the file without delimiters: the interval of
    the contents is the hexadecimal digits alone, and the two bytes
    around them are reported. *)
Example undelimited_contents :
  let sourceData := lit "x30313233y" in
  let signature := exampleSignature "adbe.pkcs7.detached" [] in
  AssemblerCoverage.contentsInterval sourceData (m_contents signature) = Some (1, 8)
  /\ AssemblerCoverage.uncoveredCount signature sourceData = 2
  /\ m_warnings (fst (fst (getSignedDataBuffer signature sourceData emptyResult [])))
     = [tr "2 bytes are not covered by signature."].
Proof. vm_compute. repeat split. Qed.

(** With the first range alone the four bytes behind the contents are
    not covered. *)
Lemma X11_warning_counts_uncovered_positions_witness :
  let signature := exampleSignature "adbe.pkcs7.detached" [mkByteRange 0 7] in
  (QByteArray_size exampleFile <= INT_MAX
   /\ Forall wfByteRange (m_byteRanges signature)
   /\ passesBoundsChecks exampleFile (m_byteRanges signature))
  /\ fst (fst (getSignedDataBuffer signature exampleFile emptyResult []))
     = (if AssemblerCoverage.uncoveredCount signature exampleFile =? 0 then emptyResult
        else addSignatureNotCoveredBytesWarning emptyResult
               (AssemblerCoverage.uncoveredCount signature exampleFile)).
Proof.
  cbv zeta.
  assert (H2 : Forall wfByteRange [mkByteRange 0 7]) by ranges_ok.
  assert (H3 : passesBoundsChecks exampleFile [mkByteRange 0 7]) by ranges_pass.
  split; [exact (conj exampleFile_fits (conj H2 H3))|].
  exact (@AssemblerCoverage.X11_warning_counts_uncovered_positions
           (exampleSignature "adbe.pkcs7.detached" [mkByteRange 0 7]) exampleFile emptyResult []
           exampleFile_fits H2 H3).
Defined.

Example four_positions_uncovered :
  AssemblerCoverage.uncoveredCount
    (exampleSignature "adbe.pkcs7.detached" [mkByteRange 0 7]) exampleFile = 4.
Proof. vm_compute. reflexivity. Qed.

Lemma X13_add_parsable_certificate_witness :
  d2i_X509 exampleContents = Some exampleContents
  /\ (fst (addCertificate exampleStore System exampleContents) = true
      /\ contains (snd (addCertificate exampleStore System exampleContents))
           (getCertificateInfo exampleContents) = true
      /\ firstn (List.length (m_certificates exampleStore))
                (m_certificates (snd (addCertificate exampleStore System exampleContents)))
         = m_certificates exampleStore
      /\ (List.length (m_certificates (snd (addCertificate exampleStore System exampleContents)))
          <= S (List.length (m_certificates exampleStore)))%nat).
Proof.
  split; [reflexivity|].
  exact (@StoreLookup.X13_add_parsable_certificate smallOpenSSL exampleStore System
           exampleContents exampleContents eq_refl).
Defined.

Lemma X17_extracted_fields_witness :
  X509_get_subject_name exampleContents = Some tt
  /\ ((forall e, getName (getCertificateInfo exampleContents) e
                 = getStringFromX509Name tt (ExtractorFacts.nidOf e))
      /\ List.length (m_nameEntries (getCertificateInfo exampleContents)) = NameEnd
      /\ m_keyUsage (getCertificateInfo exampleContents)
         = (if X509_get_key_usage exampleContents =? Extractor.UINT32_MAX then KeyUsageNone
            else wrap32 (X509_get_key_usage exampleContents))
      /\ m_certificateData (getCertificateInfo exampleContents)
         = (if fst (i2d_X509 exampleContents) >=? 0
            then firstn (Z.to_nat (fst (i2d_X509 exampleContents)))
                        (snd (i2d_X509 exampleContents))
            else [])
      /\ m_notValidBefore (getCertificateInfo exampleContents)
         = getDateTimeFromASN (X509_get0_notBefore exampleContents)
      /\ m_notValidAfter (getCertificateInfo exampleContents)
         = getDateTimeFromASN (X509_get0_notAfter exampleContents)).
Proof.
  split; [reflexivity|].
  exact (@ExtractorFacts.X17_extracted_fields smallOpenSSL exampleContents tt eq_refl).
Defined.

(** The chain check of a bare tag fails and leaves X509_V_OK: the
    certificates are described and no error is recorded. *)
Lemma X18_chain_verification_outcome_witness :
  let h := detachedHandler plainParameters exampleRanges in
  let context : X509_STORE_CTX (OpenSSL := signerOpenSSL) := ([], Some tagOnly) in
  X509_verify_cert (OpenSSL := signerOpenSSL)
    (X509_STORE_CTX_set_flags (OpenSSL := signerOpenSSL) context
       (verificationFlags (ssl := signerOpenSSL) h))
  = (0, context)
  /\ (let r' := snd (verifyChain (ssl := signerOpenSSL) h context [tagOnly] emptyResult) in
      let recorded :=
        (0 <=? 0)
        && negb (X509_STORE_CTX_get_error (OpenSSL := signerOpenSSL) context
                 =? X509_V_OK (OpenSSL := signerOpenSSL)) in
      m_certificateInfos r'
      = m_certificateInfos emptyResult
        ++ map (getCertificateInfo (ssl := signerOpenSSL))
             (if 0 <=? 0 then [tagOnly]
              else X509_STORE_CTX_get0_chain (OpenSSL := signerOpenSSL) context)
      /\ hasCertificateError r' = hasCertificateError emptyResult || recorded
      /\ List.length (m_errors r')
         = (List.length (m_errors emptyResult) + if recorded then 1 else 0)%nat).
Proof.
  cbv zeta. split; [reflexivity|].
  exact (@ChainVerification.X18_chain_verification_outcome signerOpenSSL
           (detachedHandler plainParameters exampleRanges) ([], Some tagOnly)
           ([], Some tagOnly) [tagOnly] emptyResult 0 eq_refl).
Defined.

Example silent_chain_failure :
  let r' := snd (verifyChain (ssl := signerOpenSSL)
                   (detachedHandler plainParameters exampleRanges)
                   ([], Some tagOnly) [tagOnly] emptyResult) in
  m_flags r' = 0 /\ m_errors r' = [] /\ List.length (m_certificateInfos r') = 1%nat.
Proof. vm_compute. repeat split. Qed.

(** A Cert array of four entries whose third entry does not parse: the
    second certificate is pushed and freed, the fourth is never
    decoded. *)
Definition chainField : PDFFormField :=
  mkField Signature (12, 0) (tr "Signature1")
    (mkSignature Sig (lit "Adobe.PPKLite") (lit "adbe.x509.rsa_sha1") exampleContents
                 (Some [lit "01"; lit "02"; lit "xx"; lit "03"]) exampleRanges).

Definition chainHandler : PDFSignatureHandler :=
  mkHandler PDFSignatureHandler_adbe_pkcs7_rsa_sha1 chainField exampleFile plainParameters.

Lemma X15_rsa_stack_holds_freed_certificates_witness :
  createCertificate chainHandler 0 = Some (lit "01")
  /\ exists pushed : list X509,
      (forall k, nth_error pushed k
                 = if (k <? List.length pushed)%nat
                   then createCertificate chainHandler (S k) else None)
      /\ createCertificate chainHandler (S (List.length pushed)) = None
      /\ let stack := lit "01" :: map X509_free pushed in
         forall context1 context2,
           X509_STORE_CTX_init X509_STORE_CTX_new (addTrustedCertificates chainHandler [])
                               (lit "01") stack
           = (true, context1) ->
           X509_STORE_CTX_set_purpose context1 X509_PURPOSE_SMIME_SIGN = (true, context2) ->
           hasCertificateError emptyResult = false ->
           verifyRSACertificate chainHandler emptyResult
           = setCertificateOK (snd (verifyChain chainHandler context2 stack emptyResult))
           /\ (fst (X509_verify_cert
                      (X509_STORE_CTX_set_flags context2 (verificationFlags chainHandler)))
               <= 0 ->
               m_certificateInfos (verifyRSACertificate chainHandler emptyResult)
               = m_certificateInfos emptyResult ++ map getCertificateInfo stack).
Proof.
  split; [reflexivity|].
  exact (@ChainVerification.X15_rsa_stack_holds_freed_certificates smallOpenSSL
           chainHandler emptyResult (lit "01") eq_refl).
Defined.

(** The two descriptions of the failed check: the one of the first
    certificate and the one read from the freed second certificate. *)
Example descriptions_of_the_freed_certificate :
  map m_certificateData (m_certificateInfos (verifyRSACertificate chainHandler emptyResult))
  = [lit "01"; []].
Proof. vm_compute. reflexivity. Qed.

Lemma X20_unknown_subfilter_result_witness :
  (forall class,
     ~ In (m_subfilter (getSignature unknownField), class) HandlerSelection.knownSubfilters)
  /\ (let r := verifyField exampleFile trustingParameters unknownField in
      (forall f, hasFlag r f = true <-> f = Error_NoHandler)
      /\ List.length (m_errors r) = 1%nat
      /\ m_warnings r = []
      /\ m_certificateInfos r = []
      /\ m_signatureFieldReference r = getSelfReference unknownField
      /\ m_signatureFieldQualifiedName r = getFullyQualifiedName unknownField
      /\ isValid r = false).
Proof.
  split; [exact unknownField_unknown|].
  exact (@HandlerSelection.X20_unknown_subfilter_result smallOpenSSL exampleFile
           trustingParameters unknownField unknownField_unknown).
Defined.

Lemma X22_sha1_handler_digests_the_slices_witness :
  let signature := exampleSignature "adbe.pkcs7.sha1" exampleRanges in
  (QByteArray_size exampleFile <= INT_MAX
   /\ Forall wfByteRange (m_byteRanges signature)
   /\ passesBoundsChecks exampleFile (m_byteRanges signature))
  /\ (getSignedDataBuffer_sha1 signature exampleFile emptyResult (lit "old bytes")
      = (fst (fst (getSignedDataBuffer signature exampleFile emptyResult [])),
         SHA1 (rangeSlices exampleFile (m_byteRanges signature)),
         Some (SHA1 (rangeSlices exampleFile (m_byteRanges signature))))
      /\ snd (getSignedDataBuffer signature exampleFile emptyResult [])
         = Some (rangeSlices exampleFile (m_byteRanges signature))).
Proof.
  cbv zeta.
  assert (H2 : Forall wfByteRange exampleRanges) by ranges_ok.
  split; [exact (conj exampleFile_fits (conj H2 exampleRanges_pass))|].
  exact (@PhaseSeparation.X22_sha1_handler_digests_the_slices smallOpenSSL
           (exampleSignature "adbe.pkcs7.sha1" exampleRanges) exampleFile emptyResult
           (lit "old bytes") exampleFile_fits H2 exampleRanges_pass).
Defined.

Lemma X24_entry_round_trip_witness :
  let e := mkEntry User exampleInfo in
  let target := mkEntry System defaultInfo in
  (valid_info (info e) /\ targetInfo (info target))
  /\ (deserialize_entry target (serialize_entry e [] ++ lit "rest") = Some (e, lit "rest")
      /\ serialize_entry e (lit "before") = lit "before" ++ serialize_entry e []).
Proof.
  cbv zeta. split; [exact (conj exampleInfo_valid defaultInfo_target)|].
  exact (@StreamFormat.X24_entry_round_trip (mkEntry User exampleInfo)
           (mkEntry System defaultInfo) (lit "before") (lit "rest")
           exampleInfo_valid defaultInfo_target).
Defined.

Lemma X25_serialization_is_injective_witness :
  (valid_store exampleStore /\ valid_store exampleStore
   /\ valid_info exampleInfo /\ valid_info exampleInfo)
  /\ ((serialize_store exampleStore [] ++ lit "rest"
       = serialize_store exampleStore [] ++ lit "rest" ->
       exampleStore = exampleStore /\ lit "rest" = lit "rest")
      /\ (serialize_info exampleInfo [] ++ lit "rest"
          = serialize_info exampleInfo [] ++ lit "rest" ->
          exampleInfo = exampleInfo /\ lit "rest" = lit "rest")).
Proof.
  split; [exact (conj exampleStore_valid
                   (conj exampleStore_valid (conj exampleInfo_valid exampleInfo_valid)))|].
  exact (@StreamFormat.X25_serialization_is_injective exampleStore exampleStore
           exampleInfo exampleInfo (lit "rest") (lit "rest")
           exampleStore_valid exampleStore_valid exampleInfo_valid exampleInfo_valid).
Defined.

Lemma X26_message_counts_witness :
  let r := verifyField exampleFile trustingParameters unknownField in
  In r (verifySignatures exampleForm exampleFile trustingParameters)
  /\ ((List.length (MessageCounts.setErrorFlags r) <= List.length (m_errors r))%nat
      /\ (m_warnings r = []
          \/ exists count,
              m_warnings r
              = [arg (tr "%1 bytes are not covered by signature.") (number count)])).
Proof.
  cbv zeta.
  assert (Hin : In (verifyField exampleFile trustingParameters unknownField)
                   (verifySignatures exampleForm exampleFile trustingParameters))
    by (left; reflexivity).
  split; [exact Hin|].
  exact (@MessageCounts.X26_message_counts smallOpenSSL
           exampleForm exampleFile trustingParameters _ Hin).
Defined.

End FurtherExamples.
